(** * preprocess.py: sharding and vocabulary construction

    A shallow embedding of [preprocess.py] of the AMR-multiview
    preprocessing pipeline.  The script reads four line-aligned corpora
    (source, target, structure, mask), cuts them into shards, turns every
    shard into a dataset file, and finally builds one vocabulary per field
    from the training shards.

    Conventions of the model.
    - A text file is the list of its lines (each line keeps its line
      terminator, as Python's file iteration yields it); a string is a
      sequence of characters with code points below 256.
    - The file system is a finite map from path names to files; a path is
      identified with its string.  Directories, permissions, encodings and
      the log file are not modelled.
    - Python integers are [Z]; [int(a / b)] is the quotient truncated
      towards zero (exact for operands below 2^53).
    - Exceptions are values of [exn]; a computation returns its outcome
      together with the state reached, so that what was written before an
      exception stays visible.
    - Vocabulary objects live in a store and fields refer to them by
      location, so that sharing one object between two fields is visible. *)

From Stdlib Require Import ZArith String Ascii.
From stdpp Require Import base tactics option list strings gmap sorting pretty.

Local Open Scope Z_scope.

(** ** Python values used by the script *)

(** [str.isspace] on the characters below 256. *)
Definition isspace (c : ascii) : bool :=
  let n := N_of_ascii c in
  ((9 <=? n)%N && (n <=? 13)%N) || ((28 <=? n)%N && (n <=? 32)%N)
  || (n =? 133)%N || (n =? 160)%N.

(** [s.split()]: the maximal runs of non-whitespace characters of [s].
    [cur] is the current run, reversed. *)
Fixpoint split_go (cur : string) (s : string) : list string :=
  match s with
  | EmptyString => if cur is EmptyString then [] else [String.rev cur]
  | String c s' =>
      if isspace c
      then (if cur is EmptyString then [] else [String.rev cur]) ++ split_go "" s'
      else split_go (String c cur) s'
  end.

Definition split (s : string) : list string := split_go "" s.

(** Python's [len]. *)
Definition len {A} (l : list A) : Z := Z.of_nat (length l).

(** A slice bound [i] of a sequence of length [n], as Python normalises it:
    negative bounds count from the end, and everything is clipped to
    [0..n]. *)
Definition slice_bound (n : nat) (i : Z) : nat :=
  if i <? 0 then Z.to_nat (Z.max 0 (i + Z.of_nat n))
  else Z.to_nat (Z.min i (Z.of_nat n)).

(** [l[a:b]] *)
Definition py_slice {A} (l : list A) (a b : Z) : list A :=
  let lo := slice_bound (length l) a in
  let hi := slice_bound (length l) b in
  take (hi - lo) (drop lo l).

(** [l[a:]] *)
Definition py_slice_from {A} (l : list A) (a : Z) : list A :=
  drop (slice_bound (length l) a) l.

(** [range(n)] *)
Definition range (n : Z) : list Z := seqZ 0 n.

(** [enumerate(l)] *)
Definition enumerate {A} (l : list A) : list (nat * A) := imap pair l.

(** ** Fields, vocabularies, examples, datasets *)

(** A [collections.Counter] over tokens. *)
Abbreviation Counter := (gmap string nat).

(** Location of a vocabulary object in the store. *)
Abbreviation loc := nat (only parsing).

(** The part of a [torchtext.vocab.Vocab] the script uses. *)
Record Vocab := mkVocab {
  freqs : Counter;
  itos : list string;
  stoi : gmap string nat
}.

(** The part of a [torchtext.data.Field] the script uses.  [vocab] is
    [None] as long as the field object has no [vocab] attribute. *)
Record Field := mkField {
  sequential : bool;
  unk_token : option string;
  pad_token : option string;
  init_token : option string;
  eos_token : option string;
  vocab : option loc
}.

(** The [fields] dictionary, in insertion order; a value may be Python's
    [None]. *)
Abbreviation fields_t := (list (string * option Field)).

(** The value of an attribute of an example: absent, a sequence of tokens,
    or a sequence of sequences of tokens. *)
Inductive value :=
  | VNone
  | VSeq (toks : list string)
  | VMat (rows : list (list string)).

(** An example: its attributes by name. *)
Abbreviation Example := (gmap string value).

Record Dataset := mkDataset {
  examples : list Example;
  ds_fields : fields_t
}.

(** ** Files and the program state *)

Inductive file :=
  | TextFile (lines : list string)
  | DatasetFile (d : Dataset)
  | VocabFile (v : list (string * Vocab)).

Record state := mkState {
  files : gmap string file;
  heap : list Vocab
}.

Inductive exn :=
  | AssertionError (msg : option string)
  | FileNotFoundError (path : string)
  | UnicodeDecodeError (path : string)
  | UnpicklingError (path : string)
  | IndexError
  | KeyError (key : string)
  | ZeroDivisionError
  | TypeError
  | AttributeError.

Inductive outcome (A : Type) :=
  | Ok (a : A)
  | Raise (e : exn).
Arguments Ok {A} a.
Arguments Raise {A} e.

(** Computations over the program state that may raise. *)
Definition M (A : Type) : Type := state → outcome A * state.

Global Instance M_ret : MRet M := λ A a st, (Ok a, st).
Global Instance M_bind : MBind M := λ A B k m st,
  match m st with
  | (Ok a, st') => k a st'
  | (Raise e, st') => (Raise e, st')
  end.

Definition raise {A} (e : exn) : M A := λ st, (Raise e, st).

(** [assert b] *)
Definition assert (b : bool) : M unit :=
  if b then mret () else raise (AssertionError None).

(** [for x in l: body x] *)
Fixpoint for_each {A} (l : list A) (body : A → M unit) : M unit :=
  match l with
  | [] => mret ()
  | x :: l' => body x ;; for_each l' body
  end.

(** *** File operations *)

Definition set_files (f : gmap string file → gmap string file) (st : state) : state :=
  mkState (f (files st)) (heap st).

(** Reading a text file as [open(path, "r")] and iterating over it do. *)
Definition read_lines (path : string) : M (list string) := λ st,
  match files st !! path with
  | None => (Raise (FileNotFoundError path), st)
  | Some (TextFile ls) => (Ok ls, st)
  | Some _ => (Raise (UnicodeDecodeError path), st)
  end.

(** Creating the file [path], or replacing it. *)
Definition write_file (path : string) (f : file) : M unit := λ st,
  (Ok (), set_files <[path := f]> st).

(** [f = codecs.open(path, "w", ...); f.writelines(ls); f.close()] *)
Definition writelines (path : string) (ls : list string) : M unit :=
  write_file path (TextFile ls).

(** [torch.save(dataset, path)] *)
Definition torch_save_dataset (d : Dataset) (path : string) : M unit :=
  write_file path (DatasetFile d).

(** [torch.load(path)], for a dataset. *)
Definition torch_load (path : string) : M Dataset := λ st,
  match files st !! path with
  | None => (Raise (FileNotFoundError path), st)
  | Some (DatasetFile d) => (Ok d, st)
  | Some _ => (Raise (UnpicklingError path), st)
  end.

(** [os.remove(path)] *)
Definition os_remove (path : string) : M unit := λ st,
  match files st !! path with
  | None => (Raise (FileNotFoundError path), st)
  | Some _ => (Ok (), set_files (delete path) st)
  end.

(** [l[i]] *)
Definition list_index {A} (l : list A) (i : nat) : M A :=
  match l !! i with
  | Some x => mret x
  | None => raise IndexError
  end.

(** [int(a / b)] *)
Definition int_div (a b : Z) : M Z :=
  if b =? 0 then raise ZeroDivisionError else mret (Z.quot a b).

(** ** Names of the files the script creates *)

(** [corpus + ".{0}.txt".format(x)] *)
Definition shard_txt (corpus : string) (x : Z) : string :=
  corpus +:+ "." +:+ pretty x +:+ ".txt".

(** ["{:s}_{:s}.{:d}.pt".format(save_data, corpus_type, index)] *)
Definition shard_pt (save_data corpus_type : string) (index : Z) : string :=
  save_data +:+ "_" +:+ corpus_type +:+ "." +:+ pretty index +:+ ".pt".

(** ["{:s}_{:s}.pt".format(save_data, corpus_type)] *)
Definition mono_pt (save_data corpus_type : string) : string :=
  save_data +:+ "_" +:+ corpus_type +:+ ".pt".

(** *** [sorted(glob.glob(corpus + '.*.txt'))]

    The corpus path is taken literally (it is assumed to contain none of
    the pattern characters of [glob]); [*] stands for any sequence of
    characters other than the path separator. *)
Fixpoint strip_prefix (p s : string) : option string :=
  match p, s with
  | EmptyString, _ => Some s
  | String a p', String b s' =>
      if bool_decide (a = b) then strip_prefix p' s' else None
  | String _ _, EmptyString => None
  end.

Fixpoint strip_suffix (p s : string) : option string :=
  if bool_decide (s = p) then Some ""
  else match s with
       | EmptyString => None
       | String c s' => String c <$> strip_suffix p s'
       end.

Fixpoint has_sep (s : string) : bool :=
  match s with
  | EmptyString => false
  | String c s' => bool_decide (c = "/"%char) || has_sep s'
  end.

Definition glob_match (corpus path : string) : bool :=
  match strip_prefix (corpus +:+ ".") path with
  | None => false
  | Some rest =>
      match strip_suffix ".txt" rest with
      | None => false
      | Some mid => negb (has_sep mid)
      end
  end.

Definition sorted_glob (corpus : string) : M (list string) := λ st,
  (Ok (merge_sort String.le
         (filter (λ p, glob_match corpus p = true) (elements (dom (files st))))),
   st).

(** ** Command-line options read by the script *)

Record options := mkOptions {
  train_src : string;
  train_tgt : string;
  train_structure : string;
  train_mask : string;
  valid_src : string;
  valid_tgt : string;
  valid_structure : string;
  valid_mask : string;
  save_data : string;
  shard_size : Z;
  shuffle : Z;
  share_vocab : bool;
  src_vocab_size : Z;
  src_words_min_frequency : Z;
  tgt_vocab_size : Z;
  tgt_words_min_frequency : Z;
  structure_vocab_size : Z;
  structure_words_min_frequency : Z;
  src_seq_length : Z;
  tgt_seq_length : Z;
  src_seq_length_trunc : Z;
  tgt_seq_length_trunc : Z
}.

(** The four line lists collected from the corpora. *)
Record corpora := mkCorpora {
  src_data : list string;
  tgt_data : list string;
  structure_data : list string;
  mask_data : list string
}.

(** The condition asserted on every example (line 144). *)
Definition lengths_agree (s t structure mask : string) : bool :=
  bool_decide ((len (split s) + 1) ^ 2 = len (split structure))
  && bool_decide (len (split t) ^ 2 = len (split mask)).

(** [zip(a, b, c, d)]: as long as the shortest of the four. *)
Definition zip4 {A} (a b c d : list A) : list (A * A * A * A) :=
  zip (zip (zip a b) c) d.

(** The reading loop of lines 138-144. *)
Fixpoint read_loop (rows : list (string * string * string * string))
    (acc : corpora) : M corpora :=
  match rows with
  | [] => mret acc
  | (s, t, structure, mask) :: rows =>
      let acc := mkCorpora (src_data acc ++ [s]) (tgt_data acc ++ [t])
                   (structure_data acc ++ [structure]) (mask_data acc ++ [mask]) in
      assert (lengths_agree s t structure mask) ;;
      read_loop rows acc
  end.

Definition read_corpora (src_corpus tgt_corpus structure_corpus mask_corpus : string)
    : M corpora :=
  src_file ← read_lines src_corpus;
  tgt_file ← read_lines tgt_corpus;
  structure_file ← read_lines structure_corpus;
  mask_file ← read_lines mask_corpus;
  read_loop (zip4 src_file tgt_file structure_file mask_file) (mkCorpora [] [] [] []).

Definition length_message : string :=
  "Source,Target and structure should have the same length".

(** The explicit check of lines 146-147. *)
Definition check_lengths (d : corpora) : M unit :=
  if negb (bool_decide (len (src_data d) = len (tgt_data d)))
     || negb (bool_decide (len (tgt_data d) = len (structure_data d)))
  then raise (AssertionError (Some length_message))
  else mret ().

(** Writing the four text files of one shard; [slice] is the slicing
    expression applied to each of the four line lists. *)
Definition write_shard (src_corpus tgt_corpus structure_corpus mask_corpus : string)
    (d : corpora) (x : Z) (slice : list string → list string) : M unit :=
  writelines (shard_txt src_corpus x) (slice (src_data d)) ;;
  writelines (shard_txt tgt_corpus x) (slice (tgt_data d)) ;;
  writelines (shard_txt structure_corpus x) (slice (structure_data d)) ;;
  writelines (shard_txt mask_corpus x) (slice (mask_data d)).

(** Lines 149-186: the full shards, then the remaining lines. *)
Definition split_shards (src_corpus tgt_corpus structure_corpus mask_corpus : string)
    (d : corpora) (shard_size : Z) : M unit :=
  num_shards ← int_div (len (src_data d)) shard_size;
  for_each (range num_shards) (λ x,
    write_shard src_corpus tgt_corpus structure_corpus mask_corpus d x
      (λ l, py_slice l (x * shard_size) ((x + 1) * shard_size))) ;;
  let num_written := num_shards * shard_size in
  if bool_decide (num_written < len (src_data d)) then
    write_shard src_corpus tgt_corpus structure_corpus mask_corpus d num_shards
      (λ l, py_slice_from l (num_shards * shard_size))
  else mret ().

(** Modelled from the spec: [inputters.dataset.make_text_iterator_from_file]
    is not part of the sources at hand; following the comment at its call
    site it yields the lines of the file, one at a time. *)
Definition make_text_iterator_from_file (path : string) : M (list string) :=
  read_lines path.

(** ** Counters and vocabularies *)

(** [c[tok]] for a counter: a missing token counts zero. *)
Definition count (c : Counter) (tok : string) : nat := default 0%nat (c !! tok).

(** [c.update(toks)] *)
Definition counter_update (c : Counter) (toks : list string) : Counter :=
  foldl (λ c tok, <[tok := S (count c tok)]> c) c toks.

(** [a + b] on counters: the sums that are positive. *)
Definition counter_add (a b : Counter) : Counter :=
  filter (λ kv, (0 < kv.2)%nat) (union_with (λ x y, Some (x + y)%nat) a b).

(** [sum(cs, Counter())] *)
Definition counter_sum (cs : list Counter) : Counter := foldl counter_add ∅ cs.

(** Iterating over a string yields its characters. *)
Fixpoint chars (s : string) : list string :=
  match s with
  | EmptyString => []
  | String c s' => String c "" :: chars s'
  end.

(** [list(OrderedDict.fromkeys(l))]: [l] without repetitions, every element
    at the place of its first occurrence. *)
Fixpoint fromkeys_go (acc l : list string) : list string :=
  match l with
  | [] => acc
  | x :: l => fromkeys_go (if bool_decide (x ∈ acc) then acc else acc ++ [x]) l
  end.
Definition fromkeys (l : list string) : list string := fromkeys_go [] l.

(** The order in which [torchtext.vocab.Vocab] lists the words of a counter:
    by decreasing frequency, and alphabetically among equally frequent
    words. *)
Definition word_order (a b : string * nat) : Prop :=
  (b.2 < a.2)%nat ∨ (a.2 = b.2 ∧ String.le a.1 b.1).

Global Instance word_order_dec : RelDecision word_order.
Proof. intros a b. unfold word_order. apply _. Defined.

(** The loop of the constructor that appends words to [itos] until a word is
    too rare or the size limit is reached. *)
Fixpoint append_words (min_freq : Z) (max_size : option Z)
    (words : list (string * nat)) (itos : list string) : list string :=
  match words with
  | [] => itos
  | (word, freq) :: words =>
      if bool_decide (Z.of_nat freq < min_freq)
         || bool_decide (max_size = Some (len itos))
      then itos
      else append_words min_freq max_size words (itos ++ [word])
  end.

(** [{tok: i for i, tok in enumerate(itos)}] *)
Definition stoi_of (itos : list string) : gmap string nat :=
  foldl (λ m it, <[it.2 := it.1]> m) ∅ (enumerate itos).

(** [torchtext.vocab.Vocab(counter, specials=specials, max_size=max_size,
    min_freq=min_freq)], as the torchtext library constructs it. *)
Definition Vocab_init (counter : Counter) (specials : list string)
    (max_size : option Z) (min_freq : Z) : Vocab :=
  let min_freq := Z.max min_freq 1 in
  let max_size := (λ m, m + len specials) <$> max_size in
  let counter' := foldl (λ c tok, delete tok c) counter specials in
  let words_and_frequencies := merge_sort word_order (map_to_list counter') in
  let itos := append_words min_freq max_size words_and_frequencies specials in
  mkVocab counter itos (stoi_of itos).

(** *** The store of vocabulary objects *)

Definition alloc (v : Vocab) : M loc := λ st,
  (Ok (length (heap st)), mkState (files st) (heap st ++ [v])).

(** A location outside the store has no counterpart in Python; reading it
    is an error of the model. *)
Definition load (l : loc) : M Vocab := λ st,
  match heap st !! l with
  | Some v => (Ok v, st)
  | None => (Raise AttributeError, st)
  end.

Definition store (l : loc) (v : Vocab) : M unit := λ st,
  (Ok (), mkState (files st) (<[l := v]> (heap st))).

(** *** The [fields] dictionary *)

Fixpoint dict_get (fields : fields_t) (k : string) : option (option Field) :=
  match fields with
  | [] => None
  | (k', f) :: fields => if bool_decide (k' = k) then Some f else dict_get fields k
  end.

(** [fields[k]], used as a field object. *)
Definition get_field (fields : fields_t) (k : string) : M Field :=
  match dict_get fields k with
  | None => raise (KeyError k)
  | Some None => raise AttributeError
  | Some (Some f) => mret f
  end.

(** [fields[k].vocab] *)
Definition get_vocab (fields : fields_t) (k : string) : M loc :=
  f ← get_field fields k;
  match vocab f with
  | None => raise AttributeError
  | Some l => mret l
  end.

Definition with_vocab (l : loc) (f : Field) : Field :=
  mkField (sequential f) (unk_token f) (pad_token f) (init_token f) (eos_token f)
    (Some l).

(** [fields[k].vocab = l] *)
Definition set_vocab (k : string) (l : loc) (fields : fields_t) : fields_t :=
  (λ kf : string * option Field,
     if bool_decide (kf.1 = k) then (kf.1, with_vocab l <$> kf.2) else kf)
    <$> fields.

(** ** [save_fields_to_vocab] *)

Fixpoint save_fields_to_vocab_loop (items : fields_t) (vocab : list (string * loc))
    : M (list (string * loc)) :=
  match items with
  | [] => mret vocab
  | (k, f) :: items =>
      match f with
      | Some (mkField _ _ _ _ _ (Some l)) =>
          v ← load l;
          store l (mkVocab (freqs v) (itos v) (stoi v)) ;;
          save_fields_to_vocab_loop items (vocab ++ [(k, l)])
      | _ => save_fields_to_vocab_loop items vocab
      end
  end.

Definition save_fields_to_vocab (fields : fields_t) : M (list (string * loc)) :=
  save_fields_to_vocab_loop fields [].

(** ** [build_field_vocab] and [merge_vocabs] *)

Definition field_specials (f : Field) : list string :=
  fromkeys (omap id [unk_token f; pad_token f; init_token f; eos_token f]).

(** [build_field_vocab(fields[k], counter, max_size=..., min_freq=...)];
    the field object is updated in place, that is, in the dictionary. *)
Definition build_field_vocab (fields : fields_t) (k : string) (counter : Counter)
    (max_size min_freq : Z) : M fields_t :=
  field ← get_field fields k;
  l ← alloc (Vocab_init counter (field_specials field) (Some max_size) min_freq);
  mret (set_vocab k l fields).

(** ** [build_vocab] *)

(** What one attribute value adds to the counter of field [k]
    (lines 65-69). *)
Definition count_value (k : string) (val : value) (c : Counter) : M Counter :=
  if bool_decide (k = "structure") then
    match val with
    | VNone => raise TypeError
    | VSeq toks => mret (foldl (λ c i, counter_update c (chars i)) c toks)
    | VMat rows => mret (foldl counter_update c rows)
    end
  else
    match val with
    | VNone => mret c
    | VSeq toks => mret (counter_update c toks)
    | VMat [] => mret c
    | VMat (_ :: _) => raise TypeError
    end.

(** [for k in fields: ...] for one example (lines 61-69). *)
Fixpoint count_example (keys : list string) (fields : fields_t) (ex : Example)
    (counter : gmap string Counter) : M (gmap string Counter) :=
  match keys with
  | [] => mret counter
  | k :: keys =>
      let val := default VNone (ex !! k) in
      field ← get_field fields k;
      if negb (sequential field) then count_example keys fields ex counter
      else
        c ← count_value k val (default ∅ (counter !! k));
        count_example keys fields ex (<[k := c]> counter)
  end.

(** [for ex in dataset.examples: ...] *)
Fixpoint count_examples (exs : list Example) (fields : fields_t)
    (counter : gmap string Counter) : M (gmap string Counter) :=
  match exs with
  | [] => mret counter
  | ex :: exs =>
      counter ← count_example fields.*1 fields ex counter;
      count_examples exs fields counter
  end.

(** [for _, path in enumerate(train_dataset_files): ...] (lines 57-76). *)
Fixpoint count_files (paths : list string) (fields : fields_t)
    (counter : gmap string Counter) : M (gmap string Counter) :=
  match paths with
  | [] => mret counter
  | path :: paths =>
      dataset ← torch_load path;
      counter ← count_examples (examples dataset) fields counter;
      count_files paths fields counter
  end.

(** [counter = {}; for k in fields: counter[k] = Counter()] (lines 51-54). *)
Definition empty_counters (fields : fields_t) : gmap string Counter :=
  foldl (λ counter k, <[k := ∅]> counter) ∅ fields.*1.

(** [counter[k]] for the dictionary of counters. *)
Definition get_counter (counter : gmap string Counter) (k : string) : M Counter :=
  match counter !! k with
  | None => raise (KeyError k)
  | Some c => mret c
  end.

Definition shuffle_message : string :=
  "-shuffle is not implemented, please make sure                          you shuffle your data before pre-processing.".

Section Preprocess.

(** [inputters.dataset.build_dataset] and [inputters.dataset.get_fields]
    are not part of the sources at hand: they are parameters of the
    development.  So are the four special tokens of [onmt.constants]. *)
Variable build_dataset :
  fields_t → list string → list string → list string → list string →
  Z → Z → Z → Z → Dataset.
Variable get_fields : fields_t.
Variables UNK_WORD PAD_WORD BOS_WORD EOS_WORD : string.

(** Lines 195-230: one dataset file per text shard found. *)
Fixpoint build_shards (src_list : list (nat * string))
    (tgt_list structure_list mask_list : list string)
    (fields : fields_t) (corpus_type : string) (opt : options)
    (ret_list : list string) : M (list string) :=
  match src_list with
  | [] => mret ret_list
  | (index, src) :: src_list =>
      src_iter ← make_text_iterator_from_file src;
      tgt ← list_index tgt_list index;
      tgt_iter ← make_text_iterator_from_file tgt;
      structure ← list_index structure_list index;
      structure_iter ← make_text_iterator_from_file structure;
      mask ← list_index mask_list index;
      mask_iter ← make_text_iterator_from_file mask;
      let dataset :=
        build_dataset fields src_iter tgt_iter structure_iter mask_iter
          (src_seq_length opt) (tgt_seq_length opt)
          (src_seq_length_trunc opt) (tgt_seq_length_trunc opt) in
      let pt_file := shard_pt (save_data opt) corpus_type (Z.of_nat index) in
      let dataset := mkDataset (examples dataset) [] in
      torch_save_dataset dataset pt_file ;;
      let ret_list := ret_list ++ [pt_file] in
      os_remove src ;;
      os_remove tgt ;;
      os_remove structure ;;
      os_remove mask ;;
      build_shards src_list tgt_list structure_list mask_list
        fields corpus_type opt ret_list
  end.

Definition build_save_in_shards_using_shards_size
    (src_corpus tgt_corpus structure_corpus mask_corpus : string)
    (fields : fields_t) (corpus_type : string) (opt : options) : M (list string) :=
  d ← read_corpora src_corpus tgt_corpus structure_corpus mask_corpus;
  check_lengths d ;;
  split_shards src_corpus tgt_corpus structure_corpus mask_corpus d (shard_size opt) ;;
  src_list ← sorted_glob src_corpus;
  tgt_list ← sorted_glob tgt_corpus;
  structure_list ← sorted_glob structure_corpus;
  mask_list ← sorted_glob mask_corpus;
  build_shards (enumerate src_list) tgt_list structure_list mask_list
    fields corpus_type opt [].

Definition build_save_dataset (corpus_type : string) (fields : fields_t)
    (opt : options) : M (list string) :=
  assert (bool_decide (corpus_type ∈ ["train"; "valid"])) ;;
  let '(src_corpus, tgt_corpus, structure_corpus, mask_corpus) :=
    if bool_decide (corpus_type = "train")
    then (train_src opt, train_tgt opt, train_structure opt, train_mask opt)
    else (valid_src opt, valid_tgt opt, valid_structure opt, valid_mask opt) in
  if bool_decide (0 < shard_size opt) then
    build_save_in_shards_using_shards_size
      src_corpus tgt_corpus structure_corpus mask_corpus fields corpus_type opt
  else
    src_iter ← make_text_iterator_from_file src_corpus;
    tgt_iter ← make_text_iterator_from_file tgt_corpus;
    structure_iter ← make_text_iterator_from_file structure_corpus;
    mask_iter ← make_text_iterator_from_file mask_corpus;
    let dataset :=
      build_dataset fields src_iter tgt_iter structure_iter mask_iter
        (src_seq_length opt) (tgt_seq_length opt)
        (src_seq_length_trunc opt) (tgt_seq_length_trunc opt) in
    let dataset := mkDataset (examples dataset) [] in
    let pt_file := mono_pt (save_data opt) corpus_type in
    torch_save_dataset dataset pt_file ;;
    mret [pt_file].

(** [merge_vocabs(vocabs, vocab_size=..., min_frequency=...)] *)
Definition merge_vocabs (vocabs : list Vocab) (vocab_size : option Z)
    (min_frequency : Z) : Vocab :=
  let merged := counter_sum (freqs <$> vocabs) in
  Vocab_init merged [UNK_WORD; PAD_WORD; BOS_WORD; EOS_WORD]
    vocab_size min_frequency.

Definition build_vocab (train_dataset_files : list string) (fields : fields_t)
    (share_vocab : bool)
    (src_vocab_size src_words_min_frequency
     tgt_vocab_size tgt_words_min_frequency
     structure_vocab_size structure_words_min_frequency : Z) : M fields_t :=
  let counter := empty_counters fields in
  counter ← count_files train_dataset_files fields counter;
  c ← (get_field fields "tgt" ;; get_counter counter "tgt");
  fields ← build_field_vocab fields "tgt" c
             tgt_vocab_size tgt_words_min_frequency;
  c ← (get_field fields "src" ;; get_counter counter "src");
  fields ← build_field_vocab fields "src" c
             src_vocab_size src_words_min_frequency;
  c ← (get_field fields "structure" ;; get_counter counter "structure");
  fields ← build_field_vocab fields "structure" c
             structure_vocab_size structure_words_min_frequency;
  c ← (get_field fields "mask" ;; get_counter counter "mask");
  fields ← build_field_vocab fields "mask" c 2 0;
  if share_vocab then
    src_vocab ← get_vocab fields "src";
    src_vocab ← load src_vocab;
    tgt_vocab ← get_vocab fields "tgt";
    tgt_vocab ← load tgt_vocab;
    merged_vocab ← alloc (merge_vocabs [src_vocab; tgt_vocab]
                            (Some src_vocab_size) src_words_min_frequency);
    let fields := set_vocab "src" merged_vocab fields in
    let fields := set_vocab "tgt" merged_vocab fields in
    mret fields
  else mret fields.

(** ** Saving the vocabularies *)

(** The text written by [store_vocab_to_file]: one [write] per token. *)
Definition vocab_lines (itos : list string) : list string :=
  (λ it, pretty (Z.of_nat it.1) +:+ " " +:+ it.2 +:+ String "010"%char "")
    <$> enumerate itos.

Definition store_vocab_to_file (vocab : Vocab) (filename : string) : M unit :=
  writelines filename (vocab_lines (itos vocab)).

(** [torch.save(vocab, path)] for the list of named vocabularies: the file
    holds the vocabulary objects the list refers to. *)
Fixpoint pickle_vocab (vocab : list (string * loc)) : M (list (string * Vocab)) :=
  match vocab with
  | [] => mret []
  | (k, l) :: vocab =>
      v ← load l;
      rest ← pickle_vocab vocab;
      mret ((k, v) :: rest)
  end.

Definition torch_save_vocab (vocab : list (string * loc)) (path : string) : M unit :=
  content ← pickle_vocab vocab;
  write_file path (VocabFile content).

Definition build_save_vocab (train_dataset : list string) (fields : fields_t)
    (opt : options) : M unit :=
  fields ← build_vocab train_dataset fields (share_vocab opt)
             (src_vocab_size opt) (src_words_min_frequency opt)
             (tgt_vocab_size opt) (tgt_words_min_frequency opt)
             (structure_vocab_size opt) (structure_words_min_frequency opt);
  let vocab_file := save_data opt +:+ "_vocab.pt" in
  vocab ← save_fields_to_vocab fields;
  torch_save_vocab vocab vocab_file ;;
  v ← (get_vocab fields "src" ≫= load);
  store_vocab_to_file v (save_data opt +:+ "_src_vocab") ;;
  v ← (get_vocab fields "tgt" ≫= load);
  store_vocab_to_file v (save_data opt +:+ "_tgt_vocab") ;;
  v ← (get_vocab fields "structure" ≫= load);
  store_vocab_to_file v (save_data opt +:+ "_structure_vocab") ;;
  v ← (get_vocab fields "mask" ≫= load);
  store_vocab_to_file v (save_data opt +:+ "_mask_vocab").

(** ** [main], after the options have been parsed *)

Definition main (opt : options) : M unit :=
  if bool_decide (0 < shuffle opt)
  then raise (AssertionError (Some shuffle_message))
  else
    let fields := get_fields in
    train_dataset_files ← build_save_dataset "train" fields opt;
    build_save_dataset "valid" fields opt ;;
    build_save_vocab train_dataset_files fields opt.

End Preprocess.

(** ** Definitions used to state the properties *)

(** The four line lists, as columns. *)
Definition columns : list (corpora → list string) :=
  [src_data; tgt_data; structure_data; mask_data].

(** The examples [x*S .. (x+1)*S) of the corpora. *)
Definition chunk (d : corpora) (S x : nat) : corpora :=
  mkCorpora (take S (drop (x * S) (src_data d)))
            (take S (drop (x * S) (tgt_data d)))
            (take S (drop (x * S) (structure_data d)))
            (take S (drop (x * S) (mask_data d))).

(** The file system after the four text files of shard [x] have been
    written with the lines of [c]. *)
Definition store_shard (src_corpus tgt_corpus structure_corpus mask_corpus : string)
    (x : nat) (c : corpora) (fs : gmap string file) : gmap string file :=
  <[shard_txt mask_corpus (Z.of_nat x) := TextFile (mask_data c)]>
    (<[shard_txt structure_corpus (Z.of_nat x) := TextFile (structure_data c)]>
       (<[shard_txt tgt_corpus (Z.of_nat x) := TextFile (tgt_data c)]>
          (<[shard_txt src_corpus (Z.of_nat x) := TextFile (src_data c)]> fs))).

(** The number of shards of [N] examples for shard size [S]. *)
Definition shard_count (N S : nat) : nat :=
  (N / S + (if decide (N mod S = 0) then 0 else 1))%nat.

(** The four line lists collected from a list of examples. *)
Definition corpora_of_rows (rows : list (string * string * string * string)) : corpora :=
  mkCorpora rows.*1.*1.*1 rows.*1.*1.*2 rows.*1.*2 rows.*2.

(** The two equations an example has to satisfy. *)
Definition well_sized (r : string * string * string * string) : Prop :=
  (len (split r.1.1.1) + 1) ^ 2 = len (split r.1.2)
  ∧ len (split r.1.1.2) ^ 2 = len (split r.2).

(** A computation that raises raises an exception in [P]. *)
Definition raises_only {A} (P : exn → Prop) (m : M A) : Prop :=
  ∀ st e st', m st = (Raise e, st') → P e.

(** The named vocabularies of a dictionary of fields, in its order: one
    pair for every field that is not [None] and has a [vocab] attribute. *)
Definition named_vocabs (fields : fields_t) : list (string * loc) :=
  omap (λ kf : string * option Field, l ← kf.2 ≫= vocab; Some (kf.1, l)) fields.

(** The location and the value of the vocabulary of field [k]. *)
Definition field_loc (fields : fields_t) (k : string) : option loc :=
  f ← dict_get fields k; f ← f; vocab f.

Definition field_vocab (fields : fields_t) (st : state) (k : string) : option Vocab :=
  l ← field_loc fields k; heap st !! l.

(** A computation that leaves the state as it is. *)
Definition read_only {A} (m : M A) : Prop := ∀ st, (m st).2 = st.

(** The vocabulary objects a list of named locations refers to. *)
Definition deref_all (h : list Vocab) (vs : list (string * loc)) : list (string * Vocab) :=
  omap (λ kl : string * loc, v ← h !! kl.2; Some (kl.1, v)) vs.

(** A path with the extension [.txt]. *)
Definition ends_txt (p : string) : Prop := ∃ q, p = q +:+ ".txt".

(** The paths a dataset-building step for [corpus_type] may create, replace
    or delete: text files with the extension [.txt] and its own dataset
    files. *)
Definition touched_by (save_data corpus_type : string) (p : string) : Prop :=
  ends_txt p ∨ (∃ i, p = shard_pt save_data corpus_type i)
  ∨ p = mono_pt save_data corpus_type.

(** [st'] differs from [st] at most in the files with a path in [Q]. *)
Definition changes_only (Q : string → Prop) (st st' : state) : Prop :=
  heap st' = heap st ∧ ∀ p, ¬ Q p → files st' !! p = files st !! p.

(** A computation that changes at most the files with a path in [Q]. *)
Definition frames {A} (Q : string → Prop) (m : M A) : Prop :=
  ∀ st o st', m st = (o, st') → changes_only Q st st'.

(** Two states with the same vocabulary objects and the same files at the
    paths [paths]. *)
Definition agree_on (paths : list string) (st1 st2 : state) : Prop :=
  heap st1 = heap st2 ∧ ∀ p, p ∈ paths → files st1 !! p = files st2 !! p.

(** A computation whose outcome and whose effect on the vocabulary objects
    depend on the file system only through the files at [paths]. *)
Definition depends_only_on {A} (paths : list string) (m : M A) : Prop :=
  ∀ st1 st2, agree_on paths st1 st2 →
    (m st1).1 = (m st2).1 ∧ agree_on paths (m st1).2 (m st2).2.

(** The names of the text files of the first [n] shards of the corpora
    [paths]. *)
Definition shard_names (paths : list string) (n : nat) : list string :=
  c ← paths; shard_txt c <$> (Z.of_nat <$> seq 0 n).

(** The four files of an entry of the build loop. *)
Definition quad_files (q : string * string * string * string) : list string :=
  [q.1.1.1; q.1.1.2; q.1.2; q.2].

(** ** Definitions used to state the further properties *)

(** A dataset file whose [fields] attribute has been emptied. *)
Definition saved_dataset (st : state) (p : string) : Prop :=
  ∃ d, files st !! p = Some (DatasetFile d) ∧ ds_fields d = [].

(** The exceptions of the dataset-building step. *)
Definition dataset_error (e : exn) : Prop :=
  match e with
  | AssertionError None | FileNotFoundError _ | UnicodeDecodeError _
  | IndexError => True
  | _ => False
  end.

(** A computation that leaves the files alone and adds at most [n]
    vocabulary objects to the store, whatever its outcome. *)
Definition allocates {A} (n : nat) (m : M A) : Prop :=
  ∀ st o st', m st = (o, st') →
    files st' = files st ∧ ∃ h, heap st' = heap st ++ h ∧ (length h ≤ n)%nat.

(** The four fields [build_vocab] builds a vocabulary for. *)
Definition vocab_fields : list string := ["tgt"; "src"; "structure"; "mask"].

(** A counter without zero entries, as [Counter.__add__] returns it. *)
Definition positive_counts (c : Counter) : Prop := ∀ k n, c !! k = Some n → (0 < n)%nat.

(** The characters of a text file written piece by piece. *)
Definition file_text (pieces : list string) : string := foldr String.app "" pieces.

(** A token without a line feed. *)
Fixpoint single_line (s : string) : bool :=
  match s with
  | EmptyString => true
  | String c s' => negb (bool_decide (c = "010"%char)) && single_line s'
  end.

(** The exceptions of the vocabulary step that do not come from loading a
    dataset file. *)
Definition vocab_error (e : exn) : Prop :=
  match e with
  | TypeError | AttributeError | KeyError _ => True
  | _ => False
  end.

(** A computation that creates, replaces or deletes at most the files with
    a path in [Q], whatever its outcome. *)
Definition writes_only {A} (Q : string → Prop) (m : M A) : Prop :=
  ∀ st o st', m st = (o, st') → ∀ p, ¬ Q p → files st' !! p = files st !! p.

(** The files [build_save_vocab] writes. *)
Definition vocab_outputs (save_data : string) : list string :=
  [save_data +:+ "_vocab.pt"; save_data +:+ "_src_vocab";
   save_data +:+ "_tgt_vocab"; save_data +:+ "_structure_vocab";
   save_data +:+ "_mask_vocab"].

(** The paths [main] may create, replace or delete. *)
Definition main_output (opt : options) (p : string) : Prop :=
  touched_by (save_data opt) "train" p
  ∨ touched_by (save_data opt) "valid" p
  ∨ p ∈ vocab_outputs (save_data opt).

(** An update of the entries of the dictionary that keeps the keys and
    sets the vocabulary of the fields with a key in [P]. *)
Definition sets_vocab_of (P : string → Prop)
    (h : string * option Field → string * option Field) : Prop :=
  ∀ kf, (h kf).1 = kf.1
        ∧ (is_Some (h kf).2 ↔ is_Some kf.2)
        ∧ (is_Some ((h kf).2 ≫= vocab)
           ↔ (P kf.1 ∧ is_Some kf.2) ∨ is_Some (kf.2 ≫= vocab)).

(** ** A small instance *)

(** Corpora of [n] copies of one example, a dataset builder that keeps the
    tokens of every line, and the four fields. *)
Module Demo.

Definition nl : string := String "010"%char "".

Definition example_of (r : string * string * string * string) : Example :=
  <["src" := VSeq (split r.1.1.1)]>
    (<["tgt" := VSeq (split r.1.1.2)]>
       (<["structure" := VMat [split r.1.2]]>
          (<["mask" := VSeq (split r.2)]> ∅))).

Definition build_dataset (fields : fields_t)
    (src tgt structure mask : list string) (_ _ _ _ : Z) : Dataset :=
  mkDataset (example_of <$> zip4 src tgt structure mask) fields.

Definition f_plain : Field :=
  mkField true (Some "<unk>") (Some "<blank>") None None None.
Definition f_tgt : Field :=
  mkField true (Some "<unk>") (Some "<blank>") (Some "<s>") (Some "</s>") None.

Definition fields : fields_t :=
  [("src", Some f_plain); ("tgt", Some f_tgt);
   ("structure", Some f_plain); ("mask", Some f_plain)].

Definition opt (shard_size : Z) (share_vocab : bool) : options :=
  mkOptions "train.src" "train.tgt" "train.structure" "train.mask"
            "valid.src" "valid.tgt" "valid.structure" "valid.mask"
            "out/d" shard_size 0 share_vocab
            50000 0 50000 0 50000 0 50 50 0 0.

Definition src_line : string := "a" +:+ nl.
Definition tgt_line : string := "b c" +:+ nl.
Definition structure_line : string := "p q r s" +:+ nl.
Definition mask_line : string := "0 1 2 1" +:+ nl.

Definition corpus_files (n : nat) : gmap string file :=
  <["train.src" := TextFile (replicate n src_line)]>
    (<["train.tgt" := TextFile (replicate n tgt_line)]>
       (<["train.structure" := TextFile (replicate n structure_line)]>
          (<["train.mask" := TextFile (replicate n mask_line)]>
             (<["valid.src" := TextFile [src_line]]>
                (<["valid.tgt" := TextFile [tgt_line]]>
                   (<["valid.structure" := TextFile [structure_line]]>
                      (<["valid.mask" := TextFile [mask_line]]> ∅))))))).

Definition initial (n : nat) : state := mkState (corpus_files n) [].

(** The same with a text file left behind by someone else. *)
Definition with_stale_file : state :=
  mkState (<["train.tgt.00.txt" := TextFile ["old" +:+ nl]]> (corpus_files 2)) [].

(** Three training examples whose second structure line lacks a token. *)
Definition ill_sized : state :=
  mkState (<["train.structure" :=
               TextFile [structure_line; "p q r" +:+ nl; structure_line]]>
             (corpus_files 3)) [].

(** A source corpus with one line more than the other corpora. *)
Definition uneven : state :=
  mkState (<["train.src" := TextFile (replicate 3 src_line)]> (corpus_files 2)) [].

(** The states after the training step and after the validation step. *)
Definition after_train (shard_size : Z) (n : nat) : state :=
  (build_save_dataset build_dataset "train" fields
     (opt shard_size true) (initial n)).2.

Definition after_datasets (shard_size : Z) (n : nat) : state :=
  (build_save_dataset build_dataset "valid" fields (opt shard_size true)
     (after_train shard_size n)).2.

Definition train_files (shard_size : Z) (n : nat) : list string :=
  match (build_save_dataset build_dataset "train" fields
           (opt shard_size true) (initial n)).1 with
  | Ok l => l
  | Raise _ => []
  end.

(** The counters of the training shards. *)
Definition counters (shard_size : Z) (n : nat) : gmap string Counter :=
  match (count_files (train_files shard_size n) fields (empty_counters fields)
           (after_datasets shard_size n)).1 with
  | Ok c => c
  | Raise _ => ∅
  end.

(** The fields and the state after [build_vocab] with a shared
    vocabulary. *)
Definition shared_run : outcome fields_t * state :=
  build_vocab "<unk>" "<blank>" "<s>" "</s>" (train_files 2 3) fields true
    50000 0 50000 0 50000 0 (after_datasets 2 3).

Definition shared_fields : fields_t :=
  match shared_run.1 with
  | Ok f => f
  | Raise _ => []
  end.

Definition shared_state : state := shared_run.2.

(** A counter, a state without files, and the vocabulary built for [src]
    from this counter alone. *)
Definition small_counter : Counter := <["a" := 3%nat]> (<["b" := 1%nat]> ∅).

Definition empty : state := mkState ∅ [].

Definition src_built : state :=
  mkState ∅ [Vocab_init small_counter (field_specials f_plain) (Some 1) 2].

(** The training corpora with the target corpus missing. *)
Definition without_tgt : state := mkState (delete "train.tgt" (corpus_files 2)) [].

(** [build_vocab] on an empty list of training datasets. *)
Definition untrained : outcome fields_t * state :=
  build_vocab "<unk>" "<blank>" "<s>" "</s>" [] fields false
    50000 0 50000 0 50000 0 empty.

Definition untrained_fields : fields_t :=
  match untrained.1 with
  | Ok f => f
  | Raise _ => []
  end.

Definition untrained_state : state := untrained.2.

(** The example of one line of the corpora, and the first training shard
    of two examples. *)
Definition row : string * string * string * string :=
  (src_line, tgt_line, structure_line, mask_line).

Definition first_shard : Dataset := mkDataset (example_of <$> replicate 2 row) [].

End Demo.

(** * Properties *)

(** ** The monad *)

Lemma bind_ok {A B} (m : M A) (k : A → M B) st a st' :
  m st = (Ok a, st') → (m ≫= k) st = k a st'.
Proof. intros H. unfold mbind, M_bind. by rewrite H. Qed.

Lemma bind_raise {A B} (m : M A) (k : A → M B) st e st' :
  m st = (Raise e, st') → (m ≫= k) st = (Raise e, st').
Proof. intros H. unfold mbind, M_bind. by rewrite H. Qed.

Lemma ret_inv_ok {A} (a b : A) st st' :
  (mret a : M A) st = (Ok b, st') → b = a ∧ st' = st.
Proof. unfold mret, M_ret. intros ?; by simplify_eq. Qed.

Lemma bind_inv_ok {A B} (m : M A) (k : A → M B) st b st' :
  (m ≫= k) st = (Ok b, st') →
  ∃ a st1, m st = (Ok a, st1) ∧ k a st1 = (Ok b, st').
Proof.
  unfold mbind, M_bind. destruct (m st) as [[a|e] st1]; [eauto|done].
Qed.

Lemma for_each_foldl {A B} (f : B → A) (l : list B) (body : A → M unit)
    (step : state → B → state) :
  (∀ x st, x ∈ l → body (f x) st = (Ok (), step st x)) →
  ∀ st, for_each (f <$> l) body st = (Ok (), foldl step st l).
Proof.
  induction l as [|x l IH]; intros Hbody st; [done|].
  simpl. erewrite bind_ok; [|apply Hbody; left].
  apply IH. intros y st' Hy. apply Hbody. by right.
Qed.

Lemma foldl_set_files {A} (step : gmap string file → A → gmap string file) l st :
  foldl (λ st x, set_files (λ fs, step fs x) st) st l
  = set_files (λ fs, foldl step fs l) st.
Proof.
  revert st. induction l as [|x l IH]; intros st; simpl.
  - by destruct st.
  - by rewrite IH.
Qed.

(** ** Slices *)

Lemma slice_bound_nat n (i : nat) : slice_bound n (Z.of_nat i) = (i `min` n)%nat.
Proof.
  unfold slice_bound. destruct (Z.ltb_spec (Z.of_nat i) 0); lia.
Qed.

Lemma py_slice_chunk {A} (l : list A) (S x : nat) :
  py_slice l (Z.of_nat x * Z.of_nat S) ((Z.of_nat x + 1) * Z.of_nat S)
  = take S (drop (x * S) l).
Proof.
  unfold py_slice.
  replace (Z.of_nat x * Z.of_nat S) with (Z.of_nat (x * S)) by lia.
  replace ((Z.of_nat x + 1) * Z.of_nat S) with (Z.of_nat (x * S + S)) by lia.
  rewrite !slice_bound_nat.
  destruct (decide (x * S + S ≤ length l)%nat) as [Hin|Hout].
  - rewrite !Nat.min_l by lia. f_equal. lia.
  - destruct (decide (x * S ≤ length l)%nat) as [Hlo|Hlo].
    + rewrite (Nat.min_l (x * S)), (Nat.min_r (x * S + S)) by lia.
      rewrite !take_ge; [done| |]; rewrite length_drop; lia.
    + rewrite !Nat.min_r by lia.
      rewrite Nat.sub_diag, take_0.
      rewrite (drop_ge l (x * S)) by lia. by rewrite take_nil.
Qed.

Lemma py_slice_from_chunk {A} (l : list A) (S x : nat) :
  (length l < x * S + S)%nat →
  py_slice_from l (Z.of_nat x * Z.of_nat S) = take S (drop (x * S) l).
Proof.
  intros Hlen. unfold py_slice_from.
  replace (Z.of_nat x * Z.of_nat S) with (Z.of_nat (x * S)) by lia.
  rewrite slice_bound_nat.
  destruct (decide (x * S ≤ length l)%nat) as [Hlo|Hlo].
  - rewrite Nat.min_l by lia.
    rewrite take_ge; [done|]. rewrite length_drop. lia.
  - rewrite Nat.min_r by lia.
    rewrite drop_all. rewrite (drop_ge l (x * S)) by lia. by rewrite take_nil.
Qed.

(** Cutting a list into consecutive pieces of [sz] elements loses nothing. *)
Lemma concat_chunks {A} (sz : nat) (l : list A) (n : nat) :
  (0 < sz)%nat → (length l ≤ n * sz)%nat →
  concat ((λ x, take sz (drop (x * sz) l)) <$> seq 0 n) = l.
Proof.
  intros Hsz. revert l. induction n as [|n IH]; intros l Hlen.
  - destruct l; [done|simpl in Hlen; lia].
  - change (seq 0 (S n)) with (0%nat :: seq 1 n).
    rewrite fmap_cons, <-(fmap_S_seq 0 n), <-list_fmap_compose. simpl.
    rewrite drop_0. trans (take sz l ++ drop sz l); [|apply take_drop].
    f_equal. trans (concat ((λ x, take sz (drop (x * sz) (drop sz l))) <$> seq 0 n)).
    + f_equal. apply list_fmap_ext. intros _ x _. simpl.
      by rewrite drop_drop.
    + apply IH. rewrite length_drop. lia.
Qed.

Lemma chunk_length_full {A} (sz : nat) (l : list A) (x : nat) :
  (x < length l / sz)%nat → length (take sz (drop (x * sz) l)) = sz.
Proof.
  intros Hx. rewrite length_take, length_drop.
  assert (sz ≠ 0)%nat by (intros ->; simpl in Hx; lia).
  pose proof (Nat.div_mod_eq (length l) sz).
  pose proof (Nat.mod_upper_bound (length l) sz). nia.
Qed.

Lemma chunk_length_last {A} (sz : nat) (l : list A) :
  (0 < sz)%nat →
  length (take sz (drop (length l / sz * sz) l)) = (length l mod sz)%nat.
Proof.
  intros Hsz. rewrite length_take, length_drop.
  pose proof (Nat.div_mod_eq (length l) sz).
  pose proof (Nat.mod_upper_bound (length l) sz). nia.
Qed.

(** ** Splitting the corpora into shards *)

Lemma range_of_nat (n : nat) : range (Z.of_nat n) = Z.of_nat <$> seq 0 n.
Proof.
  unfold range, seqZ. rewrite Nat2Z.id.
  apply list_fmap_ext. intros _ x _. lia.
Qed.

Lemma columns_cases (P : (corpora → list string) → Prop) :
  P src_data → P tgt_data → P structure_data → P mask_data →
  ∀ col, col ∈ columns → P col.
Proof.
  intros ???? col Hcol. unfold columns in Hcol.
  repeat (apply elem_of_cons in Hcol as [->|Hcol]; [done|]).
  by apply elem_of_nil in Hcol.
Qed.

Lemma write_shard_store src_corpus tgt_corpus structure_corpus mask_corpus
    (d : corpora) (sz x : nat) (slice : list string → list string) st :
  (∀ col, col ∈ columns → slice (col d) = take sz (drop (x * sz) (col d))) →
  write_shard src_corpus tgt_corpus structure_corpus mask_corpus d (Z.of_nat x) slice st
  = (Ok (), set_files (store_shard src_corpus tgt_corpus structure_corpus mask_corpus
                         x (chunk d sz x)) st).
Proof.
  intros Hslice. unfold write_shard, store_shard, chunk. simpl.
  rewrite <-!Hslice by (unfold columns; set_solver). done.
Qed.

Lemma int_div_nat (n sz : nat) st :
  (0 < sz)%nat →
  int_div (Z.of_nat n) (Z.of_nat sz) st = (Ok (Z.of_nat (n / sz)), st).
Proof.
  intros Hsz. unfold int_div.
  destruct (Z.eqb_spec (Z.of_nat sz) 0) as [?|_]; [lia|].
  rewrite Z.quot_div_nonneg by lia. by rewrite <-Nat2Z.inj_div.
Qed.

(** The files of the shards, written one shard after the other. *)
Lemma split_shards_run
    (src_corpus tgt_corpus structure_corpus mask_corpus : string)
    (d : corpora) (shard_size : Z) (st : state) :
  0 < shard_size →
  (∀ col, col ∈ columns → length (col d) = length (src_data d)) →
  let N := length (src_data d) in
  let sz := Z.to_nat shard_size in
  split_shards src_corpus tgt_corpus structure_corpus mask_corpus d shard_size st
  = (Ok (),
     mkState
       (foldl (λ fs x,
                 store_shard src_corpus tgt_corpus structure_corpus mask_corpus
                   x (chunk d sz x) fs)
              (files st) (seq 0 (shard_count N sz)))
       (heap st)).
Proof.
  intros Hpos Hcols N sz.
  assert (Hsz : (0 < sz)%nat) by (unfold sz; lia).
  assert (HS : shard_size = Z.of_nat sz) by (unfold sz; lia).
  pose proof (Nat.div_mod_eq N sz) as Hdm.
  pose proof (Nat.mod_upper_bound N sz ltac:(lia)) as Hmod.
  unfold split_shards. rewrite HS. unfold len. fold N.
  erewrite bind_ok; [|by apply int_div_nat].
  rewrite range_of_nat.
  erewrite bind_ok; cycle 1.
  { apply (for_each_foldl Z.of_nat _ _
      (λ st x, set_files (λ fs, store_shard src_corpus tgt_corpus structure_corpus
                                  mask_corpus x (chunk d sz x) fs) st)).
    intros x st' _. apply write_shard_store.
    intros col _. apply py_slice_chunk. }
  rewrite (foldl_set_files (λ fs x, store_shard src_corpus tgt_corpus
             structure_corpus mask_corpus x (chunk d sz x) fs)).
  unfold shard_count. fold N. destruct (decide (N mod sz = 0)%nat) as [H0|H0].
  - rewrite bool_decide_eq_false_2 by nia.
    by rewrite Nat.add_0_r.
  - rewrite bool_decide_eq_true_2 by nia.
    rewrite (write_shard_store _ _ _ _ _ sz); cycle 1.
    { intros col Hcol. apply py_slice_from_chunk.
      rewrite (Hcols col Hcol). fold N. nia. }
    unfold set_files. simpl. by rewrite seq_app, foldl_app.
Qed.

(** C1. For every shard size [S > 0] and every corpus of [N] line-aligned
    examples, the splitting phase of
    [build_save_in_shards_using_shards_size] writes [floor(N/S)] shards of
    exactly [S] lines each and, when [N mod S] is not zero, one more shard
    with the remaining [N mod S] lines; shard [x] holds the lines
    [x*S .. (x+1)*S) of each of the four corpora, and the shards put one
    after the other in the order of their index give back the corpus. *)
Theorem split_shards_partition
    (src_corpus tgt_corpus structure_corpus mask_corpus : string)
    (d : corpora) (shard_size : Z) (st : state) :
  0 < shard_size →
  (∀ col, col ∈ columns → length (col d) = length (src_data d)) →
  let N := length (src_data d) in
  let sz := Z.to_nat shard_size in
  split_shards src_corpus tgt_corpus structure_corpus mask_corpus d shard_size st
  = (Ok (),
     mkState
       (foldl (λ fs x,
                 store_shard src_corpus tgt_corpus structure_corpus mask_corpus
                   x (chunk d sz x) fs)
              (files st) (seq 0 (shard_count N sz)))
       (heap st))
  ∧ shard_count N sz = (N / sz + (if decide (N mod sz = 0) then 0 else 1))%nat
  ∧ ∀ col, col ∈ columns →
      (∀ x, col (chunk d sz x) = take sz (drop (x * sz) (col d)))
      ∧ (∀ x, (x < N / sz)%nat → length (col (chunk d sz x)) = sz)
      ∧ (N mod sz ≠ 0 → length (col (chunk d sz (N / sz))) = N mod sz)%nat
      ∧ concat ((λ x, col (chunk d sz x)) <$> seq 0 (shard_count N sz)) = col d.
Proof.
  intros Hpos Hcols N sz.
  assert (Hsz : (0 < sz)%nat) by (unfold sz; lia).
  assert (Hchunk : ∀ col, col ∈ columns →
            ∀ x, col (chunk d sz x) = take sz (drop (x * sz) (col d))).
  { apply (columns_cases (λ col, ∀ x, col (chunk d sz x) = _)); done. }
  pose proof (Nat.div_mod_eq N sz) as Hdm.
  pose proof (Nat.mod_upper_bound N sz ltac:(lia)) as Hmod.
  split; [by apply split_shards_run|split; [done|]].
  intros col Hcol. subst N. rewrite <-(Hcols col Hcol) in *.
  split; [by apply Hchunk|]. split; [|split].
  - intros x Hx. rewrite Hchunk by done. by apply chunk_length_full.
  - intros _. rewrite Hchunk by done. by apply chunk_length_last.
  - erewrite list_fmap_ext; [|intros ? x ?; by apply Hchunk].
    apply concat_chunks; [done|].
    unfold shard_count. destruct (decide (length (col d) mod sz = 0)%nat); nia.
Qed.

(** ** Which exceptions a computation can raise *)

Lemma raises_only_ret {A} P (a : A) : raises_only P (mret a).
Proof. by intros st e st' H. Qed.

Lemma raises_only_raise {A} (P : exn → Prop) e : P e → raises_only P (raise (A:=A) e).
Proof. intros He st e' st' H. unfold raise in H. by simplify_eq. Qed.

Lemma raises_only_bind {A B} P (m : M A) (k : A → M B) :
  raises_only P m → (∀ a, raises_only P (k a)) → raises_only P (m ≫= k).
Proof.
  intros Hm Hk st e st'. unfold mbind, M_bind.
  destruct (m st) as [[a|e'] st1] eqn:E.
  - apply Hk.
  - intros ?; simplify_eq. by eapply Hm.
Qed.

Lemma raises_only_weaken {A} (P Q : exn → Prop) (m : M A) :
  (∀ e, P e → Q e) → raises_only P m → raises_only Q m.
Proof. intros HPQ Hm st e st' H. eapply HPQ, Hm, H. Qed.

(** The exceptions of the file operations. *)
Definition io_error (e : exn) : Prop :=
  match e with
  | FileNotFoundError _ | UnicodeDecodeError _ | UnpicklingError _
  | IndexError | ZeroDivisionError => True
  | _ => False
  end.

Lemma raises_only_read_lines path : raises_only io_error (read_lines path).
Proof.
  intros st e st'. unfold read_lines.
  destruct (files st !! path) as [[]|]; intros ?; by simplify_eq.
Qed.

Lemma raises_only_write_file path f : raises_only io_error (write_file path f).
Proof. by intros st e st' ?. Qed.

Lemma raises_only_os_remove path : raises_only io_error (os_remove path).
Proof.
  intros st e st'. unfold os_remove.
  destruct (files st !! path); intros ?; by simplify_eq.
Qed.

Lemma raises_only_list_index {A} (l : list A) i : raises_only io_error (list_index l i).
Proof.
  unfold list_index. destruct (l !! i).
  - apply raises_only_ret.
  - by apply raises_only_raise.
Qed.

Lemma raises_only_for_each {A} P (l : list A) body :
  (∀ x, raises_only P (body x)) → raises_only P (for_each l body).
Proof.
  intros Hbody. induction l as [|x l IH]; simpl.
  - apply raises_only_ret.
  - apply raises_only_bind; auto.
Qed.

Lemma raises_only_split_shards src_corpus tgt_corpus structure_corpus mask_corpus d sz :
  raises_only io_error
    (split_shards src_corpus tgt_corpus structure_corpus mask_corpus d sz).
Proof.
  assert (Hw : ∀ x slice, raises_only io_error
            (write_shard src_corpus tgt_corpus structure_corpus mask_corpus d x slice)).
  { intros x slice. by intros st e st' ?. }
  unfold split_shards. apply raises_only_bind.
  - unfold int_div. destruct (sz =? 0).
    + by apply raises_only_raise.
    + apply raises_only_ret.
  - intros n. apply raises_only_bind.
    + by apply raises_only_for_each.
    + intros _. case_bool_decide; [apply Hw|apply raises_only_ret].
Qed.

Lemma raises_only_build_shards build_dataset src_list tgt_list structure_list mask_list
    fields corpus_type opt ret_list :
  raises_only io_error
    (build_shards build_dataset src_list tgt_list structure_list mask_list
       fields corpus_type opt ret_list).
Proof.
  revert ret_list. induction src_list as [|[index src] src_list IH]; intros ret_list.
  - apply raises_only_ret.
  - simpl.
    repeat first
      [ apply IH
      | apply raises_only_read_lines
      | apply raises_only_list_index
      | apply raises_only_os_remove
      | apply raises_only_write_file
      | apply raises_only_bind; [|intros ?] ].
Qed.

(** ** Reading the corpora *)

Lemma zip4_columns {A} (a b c d : list A) :
  let n := (((length a `min` length b) `min` length c) `min` length d)%nat in
  (zip4 a b c d).*1.*1.*1 = take n a ∧ (zip4 a b c d).*1.*1.*2 = take n b
  ∧ (zip4 a b c d).*1.*2 = take n c ∧ (zip4 a b c d).*2 = take n d.
Proof.
  revert b c d. induction a as [|x a IH]; intros b c d.
  { simpl. by rewrite ?take_0, ?take_nil. }
  destruct b as [|y b]; [simpl; by rewrite ?take_0, ?take_nil|].
  destruct c as [|z c]; [simpl; by rewrite ?take_0, ?take_nil|].
  destruct d as [|w d]; [simpl; by rewrite ?Nat.min_0_r, ?take_0, ?take_nil|].
  destruct (IH b c d) as (H1 & H2 & H3 & H4).
  unfold zip4 in *. simpl. repeat split; f_equal; assumption.
Qed.

Lemma read_loop_run rows acc st :
  read_loop rows acc st
  = if decide (Forall well_sized rows)
    then (Ok (mkCorpora (src_data acc ++ rows.*1.*1.*1) (tgt_data acc ++ rows.*1.*1.*2)
                        (structure_data acc ++ rows.*1.*2) (mask_data acc ++ rows.*2)),
          st)
    else (Raise (AssertionError None), st).
Proof.
  revert acc. induction rows as [|[[[s t] structure] mask] rows IH]; intros acc.
  - destruct (decide (Forall well_sized [])) as [_|[]]; [|constructor].
    cbn. rewrite !app_nil_r. by destruct acc.
  - cbn [read_loop]. unfold lengths_agree.
    destruct (decide (well_sized (s, t, structure, mask))) as [Hok|Hbad].
    + destruct Hok as [H1 H2]. simpl in H1, H2.
      rewrite !bool_decide_eq_true_2 by done.
      erewrite bind_ok by done. rewrite IH.
      destruct (decide (Forall well_sized rows)) as [Hrows|Hrows].
      * rewrite decide_True by (constructor; [by split|done]).
        cbn. by rewrite <-!app_assoc.
      * rewrite decide_False; [done|]. by intros [_ ?]%Forall_cons.
    + rewrite decide_False by (by intros [? _]%Forall_cons).
      unfold well_sized in Hbad. simpl in Hbad.
      apply bind_raise. unfold assert.
      destruct (decide ((len (split s) + 1) ^ 2 = len (split structure))) as [H1|H1].
      * rewrite (bool_decide_eq_true_2 _ H1).
        rewrite bool_decide_eq_false_2 by tauto. done.
      * by rewrite (bool_decide_eq_false_2 _ H1).
Qed.

Lemma read_corpora_run src_corpus tgt_corpus structure_corpus mask_corpus st
    src_file tgt_file structure_file mask_file :
  files st !! src_corpus = Some (TextFile src_file) →
  files st !! tgt_corpus = Some (TextFile tgt_file) →
  files st !! structure_corpus = Some (TextFile structure_file) →
  files st !! mask_corpus = Some (TextFile mask_file) →
  let rows := zip4 src_file tgt_file structure_file mask_file in
  read_corpora src_corpus tgt_corpus structure_corpus mask_corpus st
  = if decide (Forall well_sized rows)
    then (Ok (corpora_of_rows rows), st)
    else (Raise (AssertionError None), st).
Proof.
  intros H1 H2 H3 H4 rows. unfold read_corpora.
  erewrite bind_ok by (unfold read_lines; by rewrite H1).
  erewrite bind_ok by (unfold read_lines; by rewrite H2).
  erewrite bind_ok by (unfold read_lines; by rewrite H3).
  erewrite bind_ok by (unfold read_lines; by rewrite H4).
  by rewrite read_loop_run.
Qed.

Lemma raises_only_read_loop rows acc :
  raises_only (λ e, io_error e ∨ e = AssertionError None) (read_loop rows acc).
Proof.
  intros st e st'. rewrite read_loop_run. case_decide; intros ?; simplify_eq. by right.
Qed.

Lemma raises_only_read_corpora src_corpus tgt_corpus structure_corpus mask_corpus :
  raises_only (λ e, io_error e ∨ e = AssertionError None)
    (read_corpora src_corpus tgt_corpus structure_corpus mask_corpus).
Proof.
  unfold read_corpora.
  repeat (apply raises_only_bind;
    [eapply raises_only_weaken, raises_only_read_lines; by left|intros ?]).
  apply raises_only_read_loop.
Qed.

Lemma read_corpora_inv src_corpus tgt_corpus structure_corpus mask_corpus st d st' :
  read_corpora src_corpus tgt_corpus structure_corpus mask_corpus st = (Ok d, st') →
  st' = st ∧ ∃ rows, d = corpora_of_rows rows.
Proof.
  unfold read_corpora. intros H.
  assert (Hrd : ∀ p ls st1, read_lines p st = (Ok ls, st1) → st1 = st).
  { intros p ls st1. unfold read_lines.
    destruct (files st !! p) as [[]|]; intros ?; by simplify_eq. }
  apply bind_inv_ok in H as (a & st1 & Ha & H). apply Hrd in Ha as ->.
  apply bind_inv_ok in H as (b & st1 & Hb & H). apply Hrd in Hb as ->.
  apply bind_inv_ok in H as (c & st1 & Hc & H). apply Hrd in Hc as ->.
  apply bind_inv_ok in H as (c' & st1 & Hc' & H). apply Hrd in Hc' as ->.
  rewrite read_loop_run in H. case_decide; simplify_eq. eauto.
Qed.

Lemma check_lengths_rows rows st :
  check_lengths (corpora_of_rows rows) st = (Ok (), st).
Proof.
  unfold check_lengths, corpora_of_rows, len. simpl.
  rewrite !length_fmap. by rewrite !bool_decide_eq_true_2.
Qed.

Lemma raises_only_build_save_in_shards build_dataset
    src_corpus tgt_corpus structure_corpus mask_corpus fields corpus_type opt :
  raises_only (λ e, io_error e ∨ e = AssertionError None)
    (build_save_in_shards_using_shards_size build_dataset
       src_corpus tgt_corpus structure_corpus mask_corpus fields corpus_type opt).
Proof.
  intros st e st'. unfold build_save_in_shards_using_shards_size.
  destruct (read_corpora src_corpus tgt_corpus structure_corpus mask_corpus st)
    as [[d|e'] st1] eqn:E.
  - erewrite bind_ok by done.
    apply read_corpora_inv in E as [-> [rows ->]].
    erewrite bind_ok by apply check_lengths_rows.
    intros H. left. revert H.
    apply raises_only_bind; [apply raises_only_split_shards|intros _].
    do 4 (apply raises_only_bind; [by intros ????|intros ?]).
    apply raises_only_build_shards.
  - erewrite bind_raise by done. intros ?; simplify_eq.
    by eapply raises_only_read_corpora.
Qed.

(** C4. Every example read by [build_save_in_shards_using_shards_size] has
    [(number of src tokens + 1)^2] tokens on its structure line and
    [(number of tgt tokens)^2] tokens on its mask line: an example that
    violates one of the two equations makes the function raise an
    [AssertionError] while the file system is still as it was found, and
    whenever the function does not end that way every example satisfies
    both. *)
Theorem ill_sized_example_aborts build_dataset
    (src_corpus tgt_corpus structure_corpus mask_corpus : string)
    (fields : fields_t) (corpus_type : string) (opt : options) (st : state)
    (src_file tgt_file structure_file mask_file : list string) :
  files st !! src_corpus = Some (TextFile src_file) →
  files st !! tgt_corpus = Some (TextFile tgt_file) →
  files st !! structure_corpus = Some (TextFile structure_file) →
  files st !! mask_corpus = Some (TextFile mask_file) →
  let rows := zip4 src_file tgt_file structure_file mask_file in
  let run := build_save_in_shards_using_shards_size build_dataset
               src_corpus tgt_corpus structure_corpus mask_corpus
               fields corpus_type opt st in
  ((∃ r, r ∈ rows ∧ ¬ well_sized r) → run = (Raise (AssertionError None), st))
  ∧ (run.1 ≠ Raise (AssertionError None) → ∀ r, r ∈ rows → well_sized r).
Proof.
  intros H1 H2 H3 H4 rows run.
  assert (Hbad : ¬ Forall well_sized rows → run = (Raise (AssertionError None), st)).
  { intros Hrows. unfold run, build_save_in_shards_using_shards_size.
    apply bind_raise. rewrite (read_corpora_run _ _ _ _ _ _ _ _ _ H1 H2 H3 H4).
    fold rows. by rewrite decide_False. }
  split.
  - intros (r & Hr & Hnot). apply Hbad. intros Hall.
    rewrite Forall_forall in Hall. by apply Hnot, Hall.
  - intros Hrun. apply Forall_forall.
    destruct (decide (Forall well_sized rows)) as [?|Hrows]; [done|].
    by rewrite (Hbad Hrows) in Hrun.
Qed.

(** C8. The check that raises [AssertionError("Source,Target and structure
    should have the same length")] never fires: the four line lists are
    filled from [zip], so they always have the same length and the check
    passes; the function never raises that exception, and corpora with
    different numbers of lines are cut to the length of the shortest. *)
Theorem length_check_unreachable build_dataset
    (src_corpus tgt_corpus structure_corpus mask_corpus : string)
    (fields : fields_t) (corpus_type : string) (opt : options) (st : state) :
  (∀ d st',
     read_corpora src_corpus tgt_corpus structure_corpus mask_corpus st = (Ok d, st') →
     length (tgt_data d) = length (src_data d)
     ∧ length (structure_data d) = length (src_data d)
     ∧ length (mask_data d) = length (src_data d)
     ∧ check_lengths d st' = (Ok (), st'))
  ∧ (∀ st',
       build_save_in_shards_using_shards_size build_dataset
         src_corpus tgt_corpus structure_corpus mask_corpus fields corpus_type opt st
       ≠ (Raise (AssertionError (Some length_message)), st'))
  ∧ (∀ src_file tgt_file structure_file mask_file,
       files st !! src_corpus = Some (TextFile src_file) →
       files st !! tgt_corpus = Some (TextFile tgt_file) →
       files st !! structure_corpus = Some (TextFile structure_file) →
       files st !! mask_corpus = Some (TextFile mask_file) →
       Forall well_sized (zip4 src_file tgt_file structure_file mask_file) →
       let n := (((length src_file `min` length tgt_file)
                    `min` length structure_file) `min` length mask_file)%nat in
       read_corpora src_corpus tgt_corpus structure_corpus mask_corpus st
       = (Ok (mkCorpora (take n src_file) (take n tgt_file)
                        (take n structure_file) (take n mask_file)), st)).
Proof.
  split; [|split].
  - intros d st' [-> [rows ->]]%read_corpora_inv.
    unfold corpora_of_rows. simpl. rewrite !length_fmap.
    repeat split. apply check_lengths_rows.
  - intros st' H.
    apply raises_only_build_save_in_shards in H as [H|H]; [done|discriminate].
  - intros src_file tgt_file structure_file mask_file H1 H2 H3 H4 Hrows n.
    rewrite (read_corpora_run _ _ _ _ _ _ _ _ _ H1 H2 H3 H4).
    rewrite decide_True by done. unfold corpora_of_rows.
    destruct (zip4_columns src_file tgt_file structure_file mask_file)
      as (-> & -> & -> & ->). done.
Qed.

(** ** The assertions of [build_save_dataset] and [main] *)

(** C7. The failures the script itself provides for are plain assertions:
    [build_save_dataset] raises an assertion failure for every corpus type
    other than ['train'] and ['valid'], and [main] raises an
    [AssertionError] whenever the [shuffle] option is positive; in both
    cases nothing has been written yet.  No exception is ever caught: an
    exception raised by one of the three steps of [main] ends [main] with
    that exception. *)
Theorem assertions_before_any_output build_dataset get_fields
    (UNK_WORD PAD_WORD BOS_WORD EOS_WORD : string)
    (corpus_type : string) (fields : fields_t) (opt : options) (st : state) :
  (corpus_type ≠ "train" → corpus_type ≠ "valid" →
   build_save_dataset build_dataset corpus_type fields opt st
   = (Raise (AssertionError None), st))
  ∧ (0 < shuffle opt →
     main build_dataset get_fields UNK_WORD PAD_WORD BOS_WORD EOS_WORD opt st
     = (Raise (AssertionError (Some shuffle_message)), st))
  ∧ (shuffle opt ≤ 0 → ∀ e st',
       build_save_dataset build_dataset "train" get_fields opt st = (Raise e, st') →
       main build_dataset get_fields UNK_WORD PAD_WORD BOS_WORD EOS_WORD opt st
       = (Raise e, st'))
  ∧ (shuffle opt ≤ 0 → ∀ files1 st1 e st',
       build_save_dataset build_dataset "train" get_fields opt st = (Ok files1, st1) →
       build_save_dataset build_dataset "valid" get_fields opt st1 = (Raise e, st') →
       main build_dataset get_fields UNK_WORD PAD_WORD BOS_WORD EOS_WORD opt st
       = (Raise e, st')).
Proof.
  split; [|split; [|split]].
  - intros Htrain Hvalid. unfold build_save_dataset.
    apply bind_raise. unfold assert.
    rewrite bool_decide_eq_false_2; [done|].
    intros [?|[?|[]%elem_of_nil]%elem_of_cons]%elem_of_cons; done.
  - intros Hshuffle. unfold main. by rewrite bool_decide_eq_true_2.
  - intros Hshuffle e st' Htrain. unfold main.
    rewrite bool_decide_eq_false_2 by lia. by apply bind_raise.
  - intros Hshuffle files1 st1 e st' Htrain Hvalid. unfold main.
    rewrite bool_decide_eq_false_2 by lia.
    erewrite bind_ok by done. by apply bind_raise.
Qed.

(** ** [save_fields_to_vocab] *)

Lemma vocab_eta (v : Vocab) : mkVocab (freqs v) (itos v) (stoi v) = v.
Proof. by destruct v. Qed.

Lemma store_same l v st :
  heap st !! l = Some v → store l (mkVocab (freqs v) (itos v) (stoi v)) st = (Ok (), st).
Proof.
  intros Hl. unfold store. rewrite vocab_eta, list_insert_id by done. by destruct st.
Qed.

Lemma save_fields_to_vocab_loop_run items acc st :
  (∀ k l, (k, l) ∈ named_vocabs items → is_Some (heap st !! l)) →
  save_fields_to_vocab_loop items acc st = (Ok (acc ++ named_vocabs items), st).
Proof.
  revert acc. induction items as [|[k f] items IH]; intros acc Hheap.
  - simpl. by rewrite app_nil_r.
  - destruct f as [[sq unk pad ini eos [l|]]|]; simpl.
    + destruct (Hheap k l) as [v Hv]; [left|].
      erewrite bind_ok by (unfold load; by rewrite Hv).
      erewrite bind_ok by (by apply store_same).
      rewrite IH, <-app_assoc; [done|].
      intros k' l' Hin. apply (Hheap k' l'). by right.
    + apply IH. intros k' l' Hin. by apply (Hheap k' l').
    + apply IH. intros k' l' Hin. by apply (Hheap k' l').
Qed.

(** C9. [save_fields_to_vocab] only reads its argument: it leaves the
    fields, the vocabulary objects and the files as they are (the
    assignment to [stoi] writes back the value that is there) and returns
    the pairs (key, vocabulary) of the fields that are not [None] and have
    a [vocab] attribute, in the order of the dictionary. *)
Theorem save_fields_to_vocab_read_only (fields : fields_t) (st : state) :
  (∀ k l, (k, l) ∈ named_vocabs fields → is_Some (heap st !! l)) →
  save_fields_to_vocab fields st = (Ok (named_vocabs fields), st)
  ∧ ∀ k l, (k, l) ∈ named_vocabs fields ↔
      ∃ f, (k, Some f) ∈ fields ∧ vocab f = Some l.
Proof.
  intros Hheap. split.
  - unfold save_fields_to_vocab. by rewrite save_fields_to_vocab_loop_run.
  - intros k l. unfold named_vocabs. rewrite list_elem_of_omap. split.
    + intros ([k' [f|]] & Hin & Heq); simpl in Heq; [|done].
      destruct (vocab f) as [l'|] eqn:Hv; simplify_eq/=. eauto.
    + intros (f & Hin & Hv). exists (k, Some f). split; [done|].
      simpl. by rewrite Hv.
Qed.

(** ** Counters *)

Lemma count_counter_add (a b : Counter) tok :
  count (counter_add a b) tok = (count a tok + count b tok)%nat.
Proof.
  unfold count, counter_add.
  destruct (filter _ _ !! tok) as [n|] eqn:E.
  - apply map_lookup_filter_Some in E as [E _].
    rewrite lookup_union_with in E.
    destruct (a !! tok), (b !! tok); simplify_eq/=; lia.
  - apply map_lookup_filter_None in E as [E|E].
    + rewrite lookup_union_with in E.
      by destruct (a !! tok), (b !! tok); simplify_eq/=.
    + rewrite lookup_union_with in E.
      destruct (a !! tok) as [x|] eqn:Ea, (b !! tok) as [y|] eqn:Eb; simpl in *;
        try done; [specialize (E (x + y)%nat eq_refl)
                  |specialize (E x eq_refl)|specialize (E y eq_refl)];
        simpl in E; lia.
Qed.

Lemma count_empty tok : count ∅ tok = 0%nat.
Proof. unfold count. by rewrite lookup_empty. Qed.

Lemma count_counter_sum_two (a b : Counter) tok :
  count (counter_sum [a; b]) tok = (count a tok + count b tok)%nat.
Proof.
  unfold counter_sum. simpl. by rewrite !count_counter_add, count_empty.
Qed.

(** ** The dictionary of fields *)

Lemma dict_get_set_vocab fields k l k' :
  dict_get (set_vocab k l fields) k'
  = if decide (k = k')
    then (λ f : option Field, with_vocab l <$> f) <$> dict_get fields k'
    else dict_get fields k'.
Proof.
  induction fields as [|[k0 f] fields IH]; simpl.
  - by case_decide.
  - repeat (case_bool_decide || case_decide); simplify_eq/=;
      rewrite ?bool_decide_eq_true_2, ?bool_decide_eq_false_2 by done;
      try done; rewrite IH; by rewrite ?decide_True, ?decide_False by done.
Qed.

Lemma build_field_vocab_run fields k f c max_size min_freq st :
  dict_get fields k = Some (Some f) →
  build_field_vocab fields k c max_size min_freq st
  = (Ok (set_vocab k (length (heap st)) fields),
     mkState (files st)
       (heap st ++ [Vocab_init c (field_specials f) (Some max_size) min_freq])).
Proof.
  intros Hk. unfold build_field_vocab, get_field. by rewrite Hk.
Qed.

Lemma get_field_run fields k f st :
  dict_get fields k = Some (Some f) → get_field fields k st = (Ok f, st).
Proof. intros Hk. unfold get_field. by rewrite Hk. Qed.

(** ** Counting the tokens of the training shards *)

Lemma read_only_ret {A} (a : A) : read_only (mret a).
Proof. by intros st. Qed.

Lemma read_only_bind {A B} (m : M A) (k : A → M B) :
  read_only m → (∀ a, read_only (k a)) → read_only (m ≫= k).
Proof.
  intros Hm Hk st. unfold mbind, M_bind.
  specialize (Hm st). destruct (m st) as [[a|e] st1]; simpl in *; subst.
  - apply Hk.
  - done.
Qed.

Lemma read_only_run {A} (m : M A) st o st' :
  read_only m → m st = (o, st') → st' = st.
Proof. intros Hm H. specialize (Hm st). by rewrite H in Hm. Qed.

Lemma read_only_torch_load path : read_only (torch_load path).
Proof. intros st. unfold torch_load. by destruct (files st !! path) as [[]|]. Qed.

Lemma read_only_get_field fields k : read_only (get_field fields k).
Proof. intros st. unfold get_field. by destruct (dict_get fields k) as [[]|]. Qed.

Lemma read_only_count_value k val c : read_only (count_value k val c).
Proof.
  intros st. unfold count_value.
  case_bool_decide; destruct val as [| |[]]; done.
Qed.

Lemma read_only_count_example keys fields ex counter :
  read_only (count_example keys fields ex counter).
Proof.
  revert counter. induction keys as [|k keys IH]; intros counter; simpl.
  - apply read_only_ret.
  - apply read_only_bind; [apply read_only_get_field|intros f].
    destruct (sequential f); simpl; [|apply IH].
    apply read_only_bind; [apply read_only_count_value|intros c; apply IH].
Qed.

Lemma read_only_count_examples exs fields counter :
  read_only (count_examples exs fields counter).
Proof.
  revert counter. induction exs as [|ex exs IH]; intros counter; simpl.
  - apply read_only_ret.
  - apply read_only_bind; [apply read_only_count_example|intros c; apply IH].
Qed.

Lemma read_only_count_files paths fields counter :
  read_only (count_files paths fields counter).
Proof.
  revert counter. induction paths as [|path paths IH]; intros counter; simpl.
  - apply read_only_ret.
  - apply read_only_bind; [apply read_only_torch_load|intros d].
    apply read_only_bind; [apply read_only_count_examples|intros c; apply IH].
Qed.

(** The counters keep their keys. *)
Lemma count_example_keys keys fields ex counter st counter' st' k :
  count_example keys fields ex counter st = (Ok counter', st') →
  is_Some (counter !! k) → is_Some (counter' !! k).
Proof.
  revert counter st. induction keys as [|k0 keys IH]; intros counter st; simpl.
  - by intros [-> ->]%ret_inv_ok.
  - intros (f & st1 & _ & H)%bind_inv_ok.
    destruct (sequential f); simpl in H; [|by eapply IH].
    apply bind_inv_ok in H as (c & st2 & _ & H).
    intros Hk. eapply IH; [done|].
    rewrite lookup_insert. case_decide; eauto.
Qed.

Lemma count_examples_keys exs fields counter st counter' st' k :
  count_examples exs fields counter st = (Ok counter', st') →
  is_Some (counter !! k) → is_Some (counter' !! k).
Proof.
  revert counter st. induction exs as [|ex exs IH]; intros counter st; simpl.
  - by intros [-> ->]%ret_inv_ok.
  - intros (c & st1 & Hc & H)%bind_inv_ok Hk.
    eapply IH; [done|]. by eapply count_example_keys.
Qed.

Lemma count_files_keys paths fields counter st counter' st' k :
  count_files paths fields counter st = (Ok counter', st') →
  is_Some (counter !! k) → is_Some (counter' !! k).
Proof.
  revert counter st. induction paths as [|path paths IH]; intros counter st; simpl.
  - by intros [-> ->]%ret_inv_ok.
  - intros (d & st1 & _ & H)%bind_inv_ok Hk.
    apply bind_inv_ok in H as (c & st2 & Hc & H).
    eapply IH; [done|]. by eapply count_examples_keys.
Qed.

Lemma empty_counters_keys fields k f :
  dict_get fields k = Some f → is_Some (empty_counters fields !! k).
Proof.
  unfold empty_counters. generalize (∅ : gmap string Counter).
  induction fields as [|[k0 f0] fields IH]; intros m; simpl; [done|].
  case_bool_decide as Hk; [|by apply IH].
  intros _. subst k0. clear IH.
  assert (Hm : is_Some (<[k:=∅]> m !! k)) by (rewrite lookup_insert_eq; eauto).
  revert Hm. generalize (<[k:=∅]> m). 
  induction fields as [|[k1 f1] fields IH]; intros m' Hm'; simpl; [done|].
  apply IH. rewrite lookup_insert. case_decide; eauto.
Qed.

(** ** Running [build_vocab] *)

Lemma lookup_app_plus {A} (h l : list A) i : (h ++ l) !! (length h + i)%nat = l !! i.
Proof. rewrite lookup_app_r by lia. f_equal. lia. Qed.

Lemma get_counter_run (counter : gmap string Counter) k st :
  is_Some (counter !! k) →
  get_counter counter k st = (Ok (default ∅ (counter !! k)), st).
Proof. intros [c Hc]. unfold get_counter. by rewrite Hc. Qed.

Lemma get_vocab_run fields k f l st :
  dict_get fields k = Some (Some f) → vocab f = Some l →
  get_vocab fields k st = (Ok l, st).
Proof.
  intros Hk Hl. unfold get_vocab.
  erewrite bind_ok by (by apply get_field_run). by rewrite Hl.
Qed.

Lemma load_run l v st : heap st !! l = Some v → load l st = (Ok v, st).
Proof. intros Hl. unfold load. by rewrite Hl. Qed.

Section BuildVocab.

Variables UNK_WORD PAD_WORD BOS_WORD EOS_WORD : string.
Variables (train_dataset_files : list string) (fields : fields_t).
Variables src_vocab_size src_words_min_frequency : Z.
Variables tgt_vocab_size tgt_words_min_frequency : Z.
Variables structure_vocab_size structure_words_min_frequency : Z.
Variables (st : state) (counter : gmap string Counter).
Variables f_src f_tgt f_structure f_mask : Field.

Hypothesis counted :
  count_files train_dataset_files fields (empty_counters fields) st = (Ok counter, st).
Hypothesis has_src : dict_get fields "src" = Some (Some f_src).
Hypothesis has_tgt : dict_get fields "tgt" = Some (Some f_tgt).
Hypothesis has_structure : dict_get fields "structure" = Some (Some f_structure).
Hypothesis has_mask : dict_get fields "mask" = Some (Some f_mask).

Let c (k : string) : Counter := default ∅ (counter !! k).
Let n : nat := length (heap st).
Let v_tgt : Vocab :=
  Vocab_init (c "tgt") (field_specials f_tgt) (Some tgt_vocab_size)
    tgt_words_min_frequency.
Let v_src : Vocab :=
  Vocab_init (c "src") (field_specials f_src) (Some src_vocab_size)
    src_words_min_frequency.
Let v_structure : Vocab :=
  Vocab_init (c "structure") (field_specials f_structure) (Some structure_vocab_size)
    structure_words_min_frequency.
Let v_mask : Vocab :=
  Vocab_init (c "mask") (field_specials f_mask) (Some 2) 0.
Let fields4 : fields_t :=
  set_vocab "mask" (n + 3)
    (set_vocab "structure" (n + 2)
       (set_vocab "src" (n + 1) (set_vocab "tgt" n fields))).
Let v_merged : Vocab :=
  merge_vocabs UNK_WORD PAD_WORD BOS_WORD EOS_WORD [v_src; v_tgt]
    (Some src_vocab_size) src_words_min_frequency.

Lemma counter_has k f : dict_get fields k = Some f → is_Some (counter !! k).
Proof.
  intros Hk. eapply count_files_keys; [exact counted|].
  by eapply empty_counters_keys.
Qed.

Lemma build_vocab_run (share_vocab : bool) :
  build_vocab UNK_WORD PAD_WORD BOS_WORD EOS_WORD train_dataset_files fields share_vocab
    src_vocab_size src_words_min_frequency tgt_vocab_size tgt_words_min_frequency
    structure_vocab_size structure_words_min_frequency st
  = if share_vocab
    then (Ok (set_vocab "tgt" (n + 4) (set_vocab "src" (n + 4) fields4)),
          mkState (files st)
            (heap st ++ [v_tgt; v_src; v_structure; v_mask; v_merged]))
    else (Ok fields4,
          mkState (files st) (heap st ++ [v_tgt; v_src; v_structure; v_mask])).
Proof.
  unfold build_vocab.
  erewrite bind_ok by exact counted.
  (* tgt *)
  erewrite bind_ok; cycle 1.
  { erewrite bind_ok by (by apply get_field_run).
    apply get_counter_run. by eapply counter_has. }
  erewrite bind_ok by (by apply build_field_vocab_run). fold n (c "tgt") v_tgt.
  (* src *)
  erewrite bind_ok; cycle 1.
  { erewrite bind_ok; [apply get_counter_run; by eapply counter_has|].
    apply get_field_run. by rewrite dict_get_set_vocab. }
  erewrite bind_ok; cycle 1.
  { apply build_field_vocab_run. by rewrite dict_get_set_vocab. }
  cbn [heap files]. rewrite length_app. cbn [length]. fold n (c "src") v_src.
  (* structure *)
  erewrite bind_ok; cycle 1.
  { erewrite bind_ok; [apply get_counter_run; by eapply counter_has|].
    apply get_field_run. by rewrite !dict_get_set_vocab. }
  erewrite bind_ok; cycle 1.
  { apply build_field_vocab_run. by rewrite !dict_get_set_vocab. }
  cbn [heap files]. rewrite !length_app. cbn [length].
  fold n (c "structure") v_structure.
  (* mask *)
  erewrite bind_ok; cycle 1.
  { erewrite bind_ok; [apply get_counter_run; by eapply counter_has|].
    apply get_field_run. by rewrite !dict_get_set_vocab. }
  erewrite bind_ok; cycle 1.
  { apply build_field_vocab_run. by rewrite !dict_get_set_vocab. }
  cbn [heap files]. rewrite !length_app. cbn [length].
  fold n (c "mask") v_mask.
  replace (n + 1 + 1)%nat with (n + 2)%nat by lia.
  replace (n + 2 + 1)%nat with (n + 3)%nat by lia.
  rewrite <-!app_assoc. cbn [app]. fold fields4.
  destruct share_vocab; [|done].
  erewrite bind_ok; cycle 1.
  { eapply get_vocab_run.
    - unfold fields4. rewrite !dict_get_set_vocab. simpl. by rewrite has_src.
    - done. }
  erewrite bind_ok by (apply load_run; cbn [heap]; unfold n;
                       by rewrite lookup_app_plus).
  erewrite bind_ok; cycle 1.
  { eapply get_vocab_run.
    - unfold fields4. rewrite !dict_get_set_vocab. simpl. by rewrite has_tgt.
    - done. }
  erewrite bind_ok by (apply load_run; cbn [heap]; by apply list_lookup_middle).
  unfold alloc, mbind, M_bind. cbn [heap files].
  rewrite length_app. cbn [length]. fold n.
  rewrite <-app_assoc. done.
Qed.

Lemma freqs_Vocab_init counter0 specials max_size min_freq :
  freqs (Vocab_init counter0 specials max_size min_freq) = counter0.
Proof. done. Qed.

(** C2. With [share_vocab] set, after [build_vocab] the fields [src] and
    [tgt] refer to one and the same vocabulary object.  Its frequency table
    is the sum of the frequency tables of the vocabularies built separately
    for [src] and for [tgt]; it is constructed with the special tokens UNK,
    PAD, BOS, EOS, with [src_vocab_size] as size limit and
    [src_words_min_frequency] as minimum frequency, and the limits of the
    [tgt] side do not enter it. *)
Theorem shared_vocabulary_is_merged :
  ∃ fields' st' l merged,
    build_vocab UNK_WORD PAD_WORD BOS_WORD EOS_WORD train_dataset_files fields true
      src_vocab_size src_words_min_frequency tgt_vocab_size tgt_words_min_frequency
      structure_vocab_size structure_words_min_frequency st
    = (Ok fields', st')
    ∧ field_loc fields' "src" = Some l
    ∧ field_loc fields' "tgt" = Some l
    ∧ heap st' !! l = Some merged
    ∧ heap st' !! (length (heap st) + 1)%nat = Some v_src
    ∧ heap st' !! length (heap st) = Some v_tgt
    ∧ freqs merged = counter_sum [freqs v_src; freqs v_tgt]
    ∧ (∀ tok, count (freqs merged) tok
              = (count (freqs v_src) tok + count (freqs v_tgt) tok)%nat)
    ∧ merged = Vocab_init (counter_sum [c "src"; c "tgt"])
                 [UNK_WORD; PAD_WORD; BOS_WORD; EOS_WORD]
                 (Some src_vocab_size) src_words_min_frequency.
Proof.
  eexists _, _, (n + 4)%nat, v_merged.
  split; [apply (build_vocab_run true)|].
  split; [|split].
  - unfold field_loc, fields4. rewrite !dict_get_set_vocab. simpl.
    by rewrite has_src.
  - unfold field_loc, fields4. rewrite !dict_get_set_vocab. simpl.
    by rewrite has_tgt.
  - cbn [heap]. fold n.
    split; [unfold n; by rewrite lookup_app_plus|].
    split; [unfold n; by rewrite lookup_app_plus|].
    split; [by apply list_lookup_middle|].
    split; [done|]. split; [|done].
    intros tok. unfold v_merged, merge_vocabs.
    rewrite freqs_Vocab_init. apply count_counter_sum_two.
Qed.

(** C3, as amended. [build_vocab] builds the vocabulary of every field from
    the token frequencies counted over the training shards.  The vocabulary
    of [structure] is filtered with [structure_vocab_size] and
    [structure_words_min_frequency]; the vocabulary of [mask] is always
    filtered with the fixed size limit 2 and minimum frequency 0; the
    vocabularies of [src] and [tgt] are filtered with their own size limit
    and minimum frequency when [share_vocab] is not set. *)
Theorem field_vocabularies_own_limits (share_vocab : bool) :
  ∃ fields' st',
    build_vocab UNK_WORD PAD_WORD BOS_WORD EOS_WORD train_dataset_files fields
      share_vocab
      src_vocab_size src_words_min_frequency tgt_vocab_size tgt_words_min_frequency
      structure_vocab_size structure_words_min_frequency st
    = (Ok fields', st')
    ∧ field_vocab fields' st' "structure"
      = Some (Vocab_init (c "structure") (field_specials f_structure)
                (Some structure_vocab_size) structure_words_min_frequency)
    ∧ field_vocab fields' st' "mask"
      = Some (Vocab_init (c "mask") (field_specials f_mask) (Some 2) 0)
    ∧ (share_vocab = false →
       field_vocab fields' st' "src"
       = Some (Vocab_init (c "src") (field_specials f_src)
                 (Some src_vocab_size) src_words_min_frequency)
       ∧ field_vocab fields' st' "tgt"
         = Some (Vocab_init (c "tgt") (field_specials f_tgt)
                   (Some tgt_vocab_size) tgt_words_min_frequency)).
Proof.
  assert (Hstructure : ∀ F h,
            dict_get F "structure" = Some (Some (with_vocab (n + 2) f_structure)) →
            field_vocab F (mkState (files st) (heap st ++ h)) "structure" = h !! 2%nat).
  { intros F h HF. unfold field_vocab, field_loc. rewrite HF. apply lookup_app_plus. }
  assert (Hmask : ∀ F h,
            dict_get F "mask" = Some (Some (with_vocab (n + 3) f_mask)) →
            field_vocab F (mkState (files st) (heap st ++ h)) "mask" = h !! 3%nat).
  { intros F h HF. unfold field_vocab, field_loc. rewrite HF. apply lookup_app_plus. }
  destruct share_vocab.
  - eexists _, _. split; [apply (build_vocab_run true)|].
    split; [|split; [|done]].
    + rewrite Hstructure; [done|]. unfold fields4.
      rewrite !dict_get_set_vocab. simpl. by rewrite has_structure.
    + rewrite Hmask; [done|]. unfold fields4.
      rewrite !dict_get_set_vocab. simpl. by rewrite has_mask.
  - eexists _, _. split; [apply (build_vocab_run false)|].
    split; [|split; [|intros _; split]].
    + rewrite Hstructure; [done|]. unfold fields4.
      rewrite !dict_get_set_vocab. simpl. by rewrite has_structure.
    + rewrite Hmask; [done|]. unfold fields4.
      rewrite !dict_get_set_vocab. simpl. by rewrite has_mask.
    + unfold field_vocab, field_loc, fields4.
      rewrite !dict_get_set_vocab. simpl. rewrite has_src. simpl.
      unfold n. by rewrite lookup_app_plus.
    + unfold field_vocab, field_loc, fields4.
      rewrite !dict_get_set_vocab. simpl. rewrite has_tgt. simpl.
      by apply list_lookup_middle.
Qed.

End BuildVocab.

Lemma get_field_inv fields k f st st' :
  get_field fields k st = (Ok f, st') → dict_get fields k = Some (Some f) ∧ st' = st.
Proof.
  unfold get_field. destruct (dict_get fields k) as [[f'|]|]; intros H;
    try (unfold raise in H; discriminate).
  apply ret_inv_ok in H as [-> ->]. done.
Qed.

(** When [build_vocab] returns, the counting phase has succeeded and the
    four fields are there. *)
Lemma build_vocab_inv UNK_WORD PAD_WORD BOS_WORD EOS_WORD
    train_dataset_files fields share_vocab
    src_vocab_size src_words_min_frequency tgt_vocab_size tgt_words_min_frequency
    structure_vocab_size structure_words_min_frequency st fields' st' :
  build_vocab UNK_WORD PAD_WORD BOS_WORD EOS_WORD train_dataset_files fields share_vocab
    src_vocab_size src_words_min_frequency tgt_vocab_size tgt_words_min_frequency
    structure_vocab_size structure_words_min_frequency st = (Ok fields', st') →
  ∃ counter f_src f_tgt f_structure f_mask,
    count_files train_dataset_files fields (empty_counters fields) st = (Ok counter, st)
    ∧ dict_get fields "src" = Some (Some f_src)
    ∧ dict_get fields "tgt" = Some (Some f_tgt)
    ∧ dict_get fields "structure" = Some (Some f_structure)
    ∧ dict_get fields "mask" = Some (Some f_mask).
Proof.
  unfold build_vocab. intros H.
  apply bind_inv_ok in H as (counter & st0 & Hcount & H).
  pose proof (read_only_run _ _ _ _ (read_only_count_files _ _ _) Hcount) as ->.
  (* tgt *)
  apply bind_inv_ok in H as (c1 & st1 & Hc & H).
  apply bind_inv_ok in Hc as (f_tgt & st1' & [Htgt ->]%get_field_inv & _).
  apply bind_inv_ok in H as (F1 & st2 & HF & H).
  rewrite (build_field_vocab_run _ _ _ _ _ _ _ Htgt) in HF.
  injection HF as <- <-.
  (* src *)
  apply bind_inv_ok in H as (c2 & st3 & Hc & H).
  apply bind_inv_ok in Hc as (f_src' & st3' & [Hsrc' ->]%get_field_inv & _).
  rewrite dict_get_set_vocab in Hsrc'. simpl in Hsrc'.
  destruct (dict_get fields "src") as [[f_src|]|] eqn:Hsrc; try done.
  apply bind_inv_ok in H as (F2 & st4 & HF & H).
  unfold build_field_vocab in HF.
  apply bind_inv_ok in HF as (? & ? & [_ ->]%get_field_inv & HF).
  apply bind_inv_ok in HF as (l2 & st5 & _ & [-> _]%ret_inv_ok).
  (* structure *)
  apply bind_inv_ok in H as (c3 & st6 & Hc & H).
  apply bind_inv_ok in Hc as (f_st' & st6' & [Hst' ->]%get_field_inv & _).
  rewrite !dict_get_set_vocab in Hst'. simpl in Hst'.
  destruct (dict_get fields "structure") as [[f_structure|]|] eqn:Hst; try done.
  apply bind_inv_ok in H as (F3 & st7 & HF & H).
  unfold build_field_vocab in HF.
  apply bind_inv_ok in HF as (? & ? & [_ ->]%get_field_inv & HF).
  apply bind_inv_ok in HF as (l3 & st8 & _ & [-> _]%ret_inv_ok).
  (* mask *)
  apply bind_inv_ok in H as (c4 & st9 & Hc & H).
  apply bind_inv_ok in Hc as (f_m' & st9' & [Hm' ->]%get_field_inv & _).
  rewrite !dict_get_set_vocab in Hm'. simpl in Hm'.
  destruct (dict_get fields "mask") as [[f_mask|]|] eqn:Hm; try done.
  eauto 10.
Qed.

(** ** Saving the vocabularies *)

Lemma pickle_vocab_run vs st :
  (∀ k l, (k, l) ∈ vs → is_Some (heap st !! l)) →
  pickle_vocab vs st = (Ok (deref_all (heap st) vs), st).
Proof.
  induction vs as [|[k l] vs IH]; intros Hvs; [done|].
  destruct (Hvs k l) as [v Hv]; [left|].
  simpl. erewrite bind_ok by (by apply load_run).
  erewrite bind_ok by (apply IH; intros k' l' ?; apply (Hvs k' l'); by right).
  unfold deref_all. simpl. by rewrite Hv.
Qed.

Lemma deref_all_keys h vs :
  (∀ k l, (k, l) ∈ vs → is_Some (h !! l)) → (deref_all h vs).*1 = vs.*1.
Proof.
  induction vs as [|[k l] vs IH]; intros Hvs; [done|].
  destruct (Hvs k l) as [v Hv]; [left|].
  unfold deref_all in *. simpl. rewrite Hv. simpl. f_equal.
  apply IH. intros k' l' ?. apply (Hvs k' l'). by right.
Qed.

Lemma named_vocabs_set_vocab k l fields k' l' :
  (k', l') ∈ named_vocabs (set_vocab k l fields) →
  l' = l ∨ (k', l') ∈ named_vocabs fields.
Proof.
  unfold named_vocabs, set_vocab. rewrite !list_elem_of_omap.
  intros ([k0 f0] & Hin & Heq).
  apply list_elem_of_fmap in Hin as ([k1 f1] & Heq1 & Hin).
  simpl in Heq1. case_bool_decide.
  - injection Heq1 as -> ->. destruct f1 as [f1|]; simplify_eq/=. by left.
  - injection Heq1 as -> ->. right. exists (k1, f1). by split.
Qed.

Lemma vocab_lines_lookup (l : list string) (i : nat) (token : string) :
  l !! i = Some token →
  vocab_lines l !! i
  = Some (pretty (Z.of_nat i) +:+ " " +:+ token +:+ String "010"%char "").
Proof.
  intros Hi. unfold vocab_lines, enumerate.
  rewrite list_lookup_fmap, list_lookup_imap, Hi. done.
Qed.

Lemma length_vocab_lines (l : list string) : length (vocab_lines l) = length l.
Proof. unfold vocab_lines, enumerate. by rewrite length_fmap, length_imap. Qed.

Lemma get_vocab_load fields k v st st2 :
  field_vocab fields st k = Some v → heap st2 = heap st →
  (get_vocab fields k ≫= load) st2 = (Ok v, st2).
Proof.
  unfold field_vocab, field_loc. intros Hv Hheap.
  destruct (dict_get fields k) as [[f|]|] eqn:Hk; simplify_eq/=.
  destruct (vocab f) as [l|] eqn:Hl; simplify_eq/=.
  erewrite bind_ok by (by eapply get_vocab_run).
  apply load_run. by rewrite Hheap.
Qed.

(** What [build_save_vocab] does once [build_vocab] has returned. *)
Lemma build_save_vocab_run UNK_WORD PAD_WORD BOS_WORD EOS_WORD
    train_dataset fields opt st fields' st1 v_src v_tgt v_structure v_mask :
  build_vocab UNK_WORD PAD_WORD BOS_WORD EOS_WORD train_dataset fields (share_vocab opt)
    (src_vocab_size opt) (src_words_min_frequency opt)
    (tgt_vocab_size opt) (tgt_words_min_frequency opt)
    (structure_vocab_size opt) (structure_words_min_frequency opt) st
  = (Ok fields', st1) →
  (∀ k l, (k, l) ∈ named_vocabs fields' → is_Some (heap st1 !! l)) →
  field_vocab fields' st1 "src" = Some v_src →
  field_vocab fields' st1 "tgt" = Some v_tgt →
  field_vocab fields' st1 "structure" = Some v_structure →
  field_vocab fields' st1 "mask" = Some v_mask →
  build_save_vocab UNK_WORD PAD_WORD BOS_WORD EOS_WORD train_dataset fields opt st
  = (Ok (),
     mkState
       (<[save_data opt +:+ "_mask_vocab" := TextFile (vocab_lines (itos v_mask))]>
        (<[save_data opt +:+ "_structure_vocab" := TextFile (vocab_lines (itos v_structure))]>
         (<[save_data opt +:+ "_tgt_vocab" := TextFile (vocab_lines (itos v_tgt))]>
          (<[save_data opt +:+ "_src_vocab" := TextFile (vocab_lines (itos v_src))]>
           (<[save_data opt +:+ "_vocab.pt" :=
                VocabFile (deref_all (heap st1) (named_vocabs fields'))]>
            (files st1))))))
       (heap st1)).
Proof.
  intros Hbuild Hwf Hsrc Htgt Hstructure Hmask. unfold build_save_vocab.
  erewrite bind_ok by exact Hbuild.
  erewrite bind_ok by (unfold save_fields_to_vocab; by apply save_fields_to_vocab_loop_run).
  erewrite bind_ok; cycle 1.
  { unfold torch_save_vocab. erewrite bind_ok by (by apply pickle_vocab_run). done. }
  erewrite bind_ok by (by eapply get_vocab_load).
  erewrite bind_ok by done.
  erewrite bind_ok by (by eapply get_vocab_load).
  erewrite bind_ok by done.
  erewrite bind_ok by (by eapply get_vocab_load).
  erewrite bind_ok by done.
  erewrite bind_ok by (by eapply get_vocab_load).
  done.
Qed.

Lemma build_vocab_post UNK_WORD PAD_WORD BOS_WORD EOS_WORD
    train_dataset_files fields share_vocab
    src_vocab_size src_words_min_frequency tgt_vocab_size tgt_words_min_frequency
    structure_vocab_size structure_words_min_frequency st fields' st1 :
  build_vocab UNK_WORD PAD_WORD BOS_WORD EOS_WORD train_dataset_files fields share_vocab
    src_vocab_size src_words_min_frequency tgt_vocab_size tgt_words_min_frequency
    structure_vocab_size structure_words_min_frequency st = (Ok fields', st1) →
  (∀ k l, (k, l) ∈ named_vocabs fields → is_Some (heap st !! l)) →
  files st1 = files st
  ∧ (∀ k l, (k, l) ∈ named_vocabs fields' → is_Some (heap st1 !! l))
  ∧ is_Some (field_vocab fields' st1 "src")
  ∧ is_Some (field_vocab fields' st1 "tgt")
  ∧ is_Some (field_vocab fields' st1 "structure")
  ∧ is_Some (field_vocab fields' st1 "mask").
Proof.
  intros Hbuild Hwf.
  destruct (build_vocab_inv _ _ _ _ _ _ _ _ _ _ _ _ _ _ _ _ Hbuild)
    as (counter & f_src & f_tgt & f_structure & f_mask & Hc & Hs & Ht & Hst & Hm).
  rewrite (build_vocab_run _ _ _ _ _ _ _ _ _ _ _ _ _ _ _ _ _ _ Hc Hs Ht Hst Hm)
    in Hbuild.
  assert (Hold : ∀ l h, is_Some (heap st !! l) → is_Some ((heap st ++ h) !! l)).
  { intros l h [v Hv]. exists v. by apply lookup_app_l_Some. }
  assert (Hnew : ∀ l (h : list Vocab),
            (l < length (heap st) + length h)%nat → is_Some ((heap st ++ h) !! l)).
  { intros l h Hl. apply lookup_lt_is_Some. by rewrite length_app. }
  destruct share_vocab; injection Hbuild as <- <-; cbn [files heap].
  - split; [done|]. split.
    { intros k l Hin.
      repeat (apply named_vocabs_set_vocab in Hin as [->|Hin];
              [apply Hnew; simpl; lia|]).
      by apply Hold, (Hwf k). }
    unfold field_vocab, field_loc. rewrite !dict_get_set_vocab. simpl.
    rewrite Hs, Ht, Hst, Hm. simpl.
    repeat split; apply Hnew; simpl; lia.
  - split; [done|]. split.
    { intros k l Hin.
      repeat (apply named_vocabs_set_vocab in Hin as [->|Hin];
              [apply Hnew; simpl; lia|]).
      by apply Hold, (Hwf k). }
    unfold field_vocab, field_loc. rewrite !dict_get_set_vocab. simpl.
    rewrite Hs, Ht, Hst, Hm. simpl.
    repeat split; apply Hnew; simpl; lia.
Qed.

(** C5. [build_save_vocab] writes every vocabulary it has built to disk:
    the file [save_data + '_vocab.pt'] holds the list of the pairs (field
    name, vocabulary) of exactly the fields that carry a vocabulary, in the
    order of the dictionary, and the four text files
    [save_data + '_src_vocab'], ['_tgt_vocab'], ['_structure_vocab'] and
    ['_mask_vocab'] hold, for the vocabulary of the field, the line
    ['i token'] for the token at index [i], for all indices in increasing
    order from 0. *)
Theorem vocabularies_persisted (UNK_WORD PAD_WORD BOS_WORD EOS_WORD : string)
    (train_dataset : list string) (fields : fields_t) (opt : options)
    (st : state) (fields' : fields_t) (st1 : state) :
  build_vocab UNK_WORD PAD_WORD BOS_WORD EOS_WORD train_dataset fields (share_vocab opt)
    (src_vocab_size opt) (src_words_min_frequency opt)
    (tgt_vocab_size opt) (tgt_words_min_frequency opt)
    (structure_vocab_size opt) (structure_words_min_frequency opt) st
  = (Ok fields', st1) →
  (∀ k l, (k, l) ∈ named_vocabs fields → is_Some (heap st !! l)) →
  ∃ st' v_src v_tgt v_structure v_mask pairs,
    build_save_vocab UNK_WORD PAD_WORD BOS_WORD EOS_WORD train_dataset fields opt st
    = (Ok (), st')
    ∧ field_vocab fields' st1 "src" = Some v_src
    ∧ field_vocab fields' st1 "tgt" = Some v_tgt
    ∧ field_vocab fields' st1 "structure" = Some v_structure
    ∧ field_vocab fields' st1 "mask" = Some v_mask
    ∧ files st' !! (save_data opt +:+ "_vocab.pt") = Some (VocabFile pairs)
    ∧ pairs = deref_all (heap st1) (named_vocabs fields')
    ∧ pairs.*1 = (named_vocabs fields').*1
    ∧ files st' !! (save_data opt +:+ "_src_vocab")
      = Some (TextFile (vocab_lines (itos v_src)))
    ∧ files st' !! (save_data opt +:+ "_tgt_vocab")
      = Some (TextFile (vocab_lines (itos v_tgt)))
    ∧ files st' !! (save_data opt +:+ "_structure_vocab")
      = Some (TextFile (vocab_lines (itos v_structure)))
    ∧ files st' !! (save_data opt +:+ "_mask_vocab")
      = Some (TextFile (vocab_lines (itos v_mask)))
    ∧ ∀ (v : Vocab),
        length (vocab_lines (itos v)) = length (itos v)
        ∧ ∀ (i : nat) (token : string),
            itos v !! i = Some token →
            vocab_lines (itos v) !! i
            = Some (pretty (Z.of_nat i) +:+ " " +:+ token +:+ String "010"%char "").
Proof.
  intros Hbuild Hwf.
  destruct (build_vocab_post _ _ _ _ _ _ _ _ _ _ _ _ _ _ _ _ Hbuild Hwf)
    as (Hfiles & Hwf' & [v_src Hsrc] & [v_tgt Htgt] & [v_st Hst] & [v_m Hm]).
  eexists _, v_src, v_tgt, v_st, v_m, _.
  split; [by eapply build_save_vocab_run|].
  assert (Hne : ∀ a b : string, a ≠ b → save_data opt +:+ a ≠ save_data opt +:+ b).
  { intros a b Hab Heq. by apply Hab, (inj (String.app (save_data opt))). }
  do 4 (split; [done|]). cbn [files].
  split; [by rewrite !lookup_insert_ne, lookup_insert_eq by (by apply Hne)|].
  split; [done|].
  split; [by apply deref_all_keys|].
  split; [by rewrite !lookup_insert_ne, lookup_insert_eq by (by apply Hne)|].
  split; [by rewrite !lookup_insert_ne, lookup_insert_eq by (by apply Hne)|].
  split; [by rewrite !lookup_insert_ne, lookup_insert_eq by (by apply Hne)|].
  split; [by rewrite lookup_insert_eq|].
  intros v. split; [apply length_vocab_lines|].
  intros i token. apply vocab_lines_lookup.
Qed.

(** ** Strings and file names *)

Lemma string_app_nil (b : string) : "" +:+ b = b.
Proof. done. Qed.

Lemma string_app_cons x (a b : string) : String x a +:+ b = String x (a +:+ b).
Proof. done. Qed.

Lemma string_app_assoc (a b c : string) : (a +:+ b) +:+ c = a +:+ (b +:+ c).
Proof.
  induction a as [|x a IH]; [done|]. by rewrite !string_app_cons, IH.
Qed.

Lemma string_length_app (a b : string) :
  String.length (a +:+ b) = (String.length a + String.length b)%nat.
Proof.
  induction a as [|x a IH]; [done|]. rewrite string_app_cons. simpl. by rewrite IH.
Qed.

Lemma strip_prefix_app p s : strip_prefix p (p +:+ s) = Some s.
Proof.
  induction p as [|x p IH]; [by destruct s|].
  rewrite string_app_cons. simpl. by rewrite bool_decide_eq_true_2.
Qed.

Lemma strip_prefix_Some p s r : strip_prefix p s = Some r → s = p +:+ r.
Proof.
  revert s. induction p as [|x p IH]; intros s; simpl.
  - destruct s; intros; by simplify_eq.
  - destruct s as [|y s]; [done|]. case_bool_decide; [|done].
    intros ->%IH. subst. by rewrite string_app_cons.
Qed.

Lemma strip_suffix_Some p s r : strip_suffix p s = Some r → s = r +:+ p.
Proof.
  revert r. induction s as [|x s IH]; intros r; simpl.
  - case_bool_decide; intros; by simplify_eq.
  - case_bool_decide as Hp; [intros; by simplify_eq|].
    destruct (strip_suffix p s) as [r'|] eqn:E; [|done].
    intros; simplify_eq/=. by rewrite string_app_cons, <-(IH r').
Qed.

Lemma strip_suffix_app p r : strip_suffix p (r +:+ p) = Some r.
Proof.
  induction r as [|x r IH].
  - rewrite string_app_nil. destruct p; simpl; by rewrite ?bool_decide_eq_true_2.
  - rewrite string_app_cons. simpl.
    rewrite bool_decide_eq_false_2, IH; [done|].
    intros Heq. apply (f_equal String.length) in Heq.
    simpl in Heq. rewrite string_length_app in Heq. lia.
Qed.

Lemma glob_match_spec corpus path :
  glob_match corpus path = true
  ↔ ∃ mid, path = corpus +:+ "." +:+ mid +:+ ".txt" ∧ has_sep mid = false.
Proof.
  unfold glob_match. split.
  - destruct (strip_prefix _ _) as [rest|] eqn:E1; [|done].
    destruct (strip_suffix _ _) as [mid|] eqn:E2; [|done].
    intros Hsep%negb_true_iff. exists mid. split; [|done].
    apply strip_prefix_Some in E1 as ->. apply strip_suffix_Some in E2 as ->.
    by rewrite string_app_assoc.
  - intros (mid & -> & Hsep).
    rewrite <-string_app_assoc, strip_prefix_app, strip_suffix_app.
    by rewrite Hsep.
Qed.

Lemma glob_match_ends_txt corpus path : glob_match corpus path = true → ends_txt path.
Proof.
  intros (mid & -> & _)%glob_match_spec.
  exists (corpus +:+ "." +:+ mid). by rewrite !string_app_assoc.
Qed.

Lemma has_sep_app a b : has_sep (a +:+ b) = has_sep a || has_sep b.
Proof.
  induction a as [|x a IH]; [done|].
  rewrite string_app_cons. simpl. by rewrite IH, orb_assoc.
Qed.

Lemma has_sep_pretty_N_go x s : has_sep (pretty_N_go x s) = has_sep s.
Proof.
  revert s. induction (N.lt_wf_0 x) as [x _ IH]; intros s.
  destruct (decide (x = 0)%N) as [->|Hx]; [by rewrite pretty_N_go_0|].
  rewrite pretty_N_go_step by lia.
  rewrite IH by (apply N.div_lt; lia). simpl.
  rewrite bool_decide_eq_false_2; [done|].
  unfold pretty_N_char. by repeat case_match.
Qed.

Lemma has_sep_pretty_N (x : N) : has_sep (pretty x) = false.
Proof.
  unfold pretty, pretty_N. case_decide; [done|]. apply has_sep_pretty_N_go.
Qed.

Lemma has_sep_pretty_Z (x : Z) : has_sep (pretty x) = false.
Proof.
  destruct x as [|p|p]; [done|apply has_sep_pretty_N|].
  unfold pretty, pretty_Z. rewrite has_sep_app. simpl.
  apply (has_sep_pretty_N (Npos p)).
Qed.

Lemma glob_match_shard_txt corpus x : glob_match corpus (shard_txt corpus x) = true.
Proof.
  apply glob_match_spec. exists (pretty x). split; [done|apply has_sep_pretty_Z].
Qed.

Lemma shard_txt_inj corpus : Inj (=) (=) (shard_txt corpus).
Proof.
  intros x y Heq. unfold shard_txt in Heq.
  apply (inj (String.app corpus)), (inj (String.app ".")) in Heq.
  apply (f_equal (strip_suffix ".txt")) in Heq.
  rewrite !strip_suffix_app in Heq. injection Heq as Heq.
  by apply (inj pretty).
Qed.

Lemma shard_txt_ends_txt corpus x : ends_txt (shard_txt corpus x).
Proof.
  exists (corpus +:+ "." +:+ pretty x). unfold shard_txt.
  by rewrite !string_app_assoc.
Qed.

Ltac peel_string r Heq :=
  destruct r as [|? r];
  [rewrite ?string_app_nil in Heq; discriminate
  |rewrite string_app_cons in Heq; injection Heq as ? Heq].

Lemma txt_not_pt (q r : string) : q +:+ ".txt" ≠ r +:+ ".pt".
Proof.
  revert r. induction q as [|x q IH]; intros r Heq.
  - rewrite string_app_nil in Heq.
    peel_string r Heq. peel_string r Heq. peel_string r Heq. peel_string r Heq.
    destruct r; discriminate.
  - rewrite string_app_cons in Heq. destruct r as [|y r].
    + rewrite string_app_nil in Heq. injection Heq as ? Heq. symmetry in Heq.
      peel_string q Heq. peel_string q Heq. destruct q; discriminate.
    + rewrite string_app_cons in Heq. injection Heq as ? Heq. by eapply IH.
Qed.

Lemma shard_pt_not_txt save_data corpus_type i : ¬ ends_txt (shard_pt save_data corpus_type i).
Proof.
  intros [q Hq]. unfold shard_pt in Hq.
  rewrite <-!string_app_assoc in Hq. symmetry in Hq. by apply txt_not_pt in Hq.
Qed.

Lemma mono_pt_not_txt save_data corpus_type : ¬ ends_txt (mono_pt save_data corpus_type).
Proof.
  intros [q Hq]. unfold mono_pt in Hq.
  rewrite <-!string_app_assoc in Hq. symmetry in Hq. by apply txt_not_pt in Hq.
Qed.

Lemma shard_pt_inj save_data corpus_type : Inj (=) (=) (shard_pt save_data corpus_type).
Proof.
  intros x y Heq. unfold shard_pt in Heq.
  apply (inj (String.app save_data)), (inj (String.app "_")),
    (inj (String.app corpus_type)), (inj (String.app ".")) in Heq.
  apply (f_equal (strip_suffix ".pt")) in Heq.
  rewrite !strip_suffix_app in Heq. injection Heq as Heq.
  by apply (inj pretty).
Qed.

(** ** Which files a computation changes *)

Lemma changes_only_refl Q st : changes_only Q st st.
Proof. by split. Qed.

Lemma changes_only_trans Q st1 st2 st3 :
  changes_only Q st1 st2 → changes_only Q st2 st3 → changes_only Q st1 st3.
Proof.
  intros [Hh1 Hf1] [Hh2 Hf2]. split; [congruence|].
  intros p Hp. by rewrite Hf2, Hf1.
Qed.

Lemma frames_ret {A} Q (a : A) : frames Q (mret a).
Proof. intros st o st' H. injection H as <- <-. apply changes_only_refl. Qed.

Lemma frames_raise {A} Q e : frames Q (raise (A:=A) e).
Proof. intros st o st' H. injection H as <- <-. apply changes_only_refl. Qed.

Lemma frames_read_only {A} Q (m : M A) : read_only m → frames Q m.
Proof.
  intros Hm st o st' H. rewrite (read_only_run _ _ _ _ Hm H).
  apply changes_only_refl.
Qed.

Lemma frames_bind_post {A B} Q (Φ : A → Prop) (m : M A) (k : A → M B) :
  (∀ st a st', m st = (Ok a, st') → Φ a) →
  frames Q m → (∀ a, Φ a → frames Q (k a)) → frames Q (m ≫= k).
Proof.
  intros HΦ Hm Hk st o st'. unfold mbind, M_bind.
  destruct (m st) as [[a|e] st1] eqn:E.
  - intros H. eapply changes_only_trans; [by eapply Hm|].
    eapply Hk; [by eapply HΦ|done].
  - intros H. injection H as <- <-. by eapply Hm.
Qed.

Lemma frames_bind {A B} Q (m : M A) (k : A → M B) :
  frames Q m → (∀ a, frames Q (k a)) → frames Q (m ≫= k).
Proof. intros Hm Hk. apply (frames_bind_post Q (λ _, True)); auto. Qed.

Lemma frames_for_each {A} Q (l : list A) body :
  (∀ x, frames Q (body x)) → frames Q (for_each l body).
Proof.
  intros Hbody. induction l as [|x l IH]; simpl.
  - apply frames_ret.
  - apply frames_bind; auto.
Qed.

Lemma frames_write_file (Q : string → Prop) path f : Q path → frames Q (write_file path f).
Proof.
  intros HQ st o st' H. injection H as <- <-. split; [done|].
  intros p Hp. simpl. apply lookup_insert_ne. by intros ->.
Qed.

Lemma frames_os_remove (Q : string → Prop) path : Q path → frames Q (os_remove path).
Proof.
  intros HQ st o st'. unfold os_remove.
  destruct (files st !! path); intros H; injection H as <- <-.
  - split; [done|]. intros p Hp. simpl. apply lookup_delete_ne. by intros ->.
  - apply changes_only_refl.
Qed.

Lemma read_only_read_lines path : read_only (read_lines path).
Proof. intros st. unfold read_lines. by destruct (files st !! path) as [[]|]. Qed.

Lemma read_only_list_index {A} (l : list A) i : read_only (list_index l i).
Proof. intros st. unfold list_index. by destruct (l !! i). Qed.

Lemma read_only_sorted_glob corpus : read_only (sorted_glob corpus).
Proof. by intros st. Qed.

Lemma read_only_read_corpora src_corpus tgt_corpus structure_corpus mask_corpus :
  read_only (read_corpora src_corpus tgt_corpus structure_corpus mask_corpus).
Proof.
  unfold read_corpora.
  repeat (apply read_only_bind; [apply read_only_read_lines|intros ?]).
  intros st. rewrite read_loop_run. by case_decide.
Qed.

Lemma read_only_check_lengths d : read_only (check_lengths d).
Proof. intros st. unfold check_lengths. by destruct (_ || _). Qed.

Lemma sorted_glob_ends_txt corpus st l st' :
  sorted_glob corpus st = (Ok l, st') → Forall ends_txt l.
Proof.
  unfold sorted_glob. intros H. injection H as <- <-.
  apply Forall_forall. intros p Hp.
  rewrite merge_sort_Permutation in Hp.
  apply list_elem_of_filter in Hp as [Hp _]. by eapply glob_match_ends_txt.
Qed.

Lemma frames_split_shards src_corpus tgt_corpus structure_corpus mask_corpus d sz :
  frames ends_txt (split_shards src_corpus tgt_corpus structure_corpus mask_corpus d sz).
Proof.
  assert (Hw : ∀ x slice, frames ends_txt
            (write_shard src_corpus tgt_corpus structure_corpus mask_corpus d x slice)).
  { intros x slice. unfold write_shard, writelines.
    repeat (apply frames_bind; [|intros ?]);
      apply frames_write_file, shard_txt_ends_txt. }
  unfold split_shards. apply frames_bind.
  - apply frames_read_only. intros st. unfold int_div. by destruct (_ =? _).
  - intros n. apply frames_bind; [by apply frames_for_each|].
    intros _. case_bool_decide; [apply Hw|apply frames_ret].
Qed.

Lemma frames_build_shards build_dataset src_list tgt_list structure_list mask_list
    fields corpus_type opt ret_list :
  Forall ends_txt src_list.*2 → Forall ends_txt tgt_list →
  Forall ends_txt structure_list → Forall ends_txt mask_list →
  frames (touched_by (save_data opt) corpus_type)
    (build_shards build_dataset src_list tgt_list structure_list mask_list
       fields corpus_type opt ret_list).
Proof.
  intros Hsrc Htgt Hstructure Hmask. revert ret_list.
  assert (Hidx : ∀ (l : list string) i st a st',
            Forall ends_txt l → list_index l i st = (Ok a, st') → ends_txt a).
  { intros l i st a st' Hl. unfold list_index.
    destruct (l !! i) as [x|] eqn:Hx; [|done].
    intros [-> _]%ret_inv_ok. eapply Forall_forall; [done|].
    by eapply list_elem_of_lookup_2. }
  induction src_list as [|[index src] src_list IH]; intros ret_list.
  - apply frames_ret.
  - apply Forall_cons in Hsrc as [Hsrc0 Hsrc]. simpl in Hsrc0. simpl.
    apply frames_bind; [apply frames_read_only, read_only_read_lines|intros ?].
    eapply (frames_bind_post _ ends_txt); [intros ???; by apply Hidx| |intros tgt ?].
    { apply frames_read_only, read_only_list_index. }
    apply frames_bind; [apply frames_read_only, read_only_read_lines|intros ?].
    eapply (frames_bind_post _ ends_txt); [intros ???; by apply Hidx| |intros structure ?].
    { apply frames_read_only, read_only_list_index. }
    apply frames_bind; [apply frames_read_only, read_only_read_lines|intros ?].
    eapply (frames_bind_post _ ends_txt); [intros ???; by apply Hidx| |intros mask ?].
    { apply frames_read_only, read_only_list_index. }
    apply frames_bind; [apply frames_read_only, read_only_read_lines|intros ?].
    apply frames_bind; [apply frames_write_file; right; left; eauto|intros ?].
    do 4 (apply frames_bind; [apply frames_os_remove; by left|intros ?]).
    by apply IH.
Qed.

Lemma frames_weaken {A} (Q Q' : string → Prop) (m : M A) :
  (∀ p, Q p → Q' p) → frames Q m → frames Q' m.
Proof.
  intros HQ Hm st o st' H. destruct (Hm _ _ _ H) as [Hh Hf].
  split; [done|]. intros p Hp. apply Hf. intros ?. by apply Hp, HQ.
Qed.

Lemma enumerate_snd {A} (l : list A) : (enumerate l).*2 = l.
Proof.
  unfold enumerate. apply list_eq. intros i.
  rewrite list_lookup_fmap, list_lookup_imap. by destruct (l !! i).
Qed.

Lemma frames_build_save_dataset build_dataset corpus_type fields opt :
  frames (touched_by (save_data opt) corpus_type)
    (build_save_dataset build_dataset corpus_type fields opt).
Proof.
  unfold build_save_dataset.
  apply frames_bind.
  { unfold assert. destruct (bool_decide _); [apply frames_ret|apply frames_raise]. }
  intros _.
  destruct (if bool_decide (corpus_type = "train") then _ else _)
    as [[[src_corpus tgt_corpus] structure_corpus] mask_corpus].
  case_bool_decide.
  - unfold build_save_in_shards_using_shards_size.
    apply frames_bind; [apply frames_read_only, read_only_read_corpora|intros d].
    apply frames_bind; [apply frames_read_only, read_only_check_lengths|intros _].
    apply frames_bind.
    { eapply frames_weaken, frames_split_shards. intros p ?. by left. }
    intros _.
    eapply (frames_bind_post _ (Forall ends_txt));
      [apply sorted_glob_ends_txt|apply frames_read_only, read_only_sorted_glob|].
    intros src_list ?.
    eapply (frames_bind_post _ (Forall ends_txt));
      [apply sorted_glob_ends_txt|apply frames_read_only, read_only_sorted_glob|].
    intros tgt_list ?.
    eapply (frames_bind_post _ (Forall ends_txt));
      [apply sorted_glob_ends_txt|apply frames_read_only, read_only_sorted_glob|].
    intros structure_list ?.
    eapply (frames_bind_post _ (Forall ends_txt));
      [apply sorted_glob_ends_txt|apply frames_read_only, read_only_sorted_glob|].
    intros mask_list ?.
    apply frames_build_shards; [by rewrite enumerate_snd|done..].
  - do 4 (apply frames_bind; [apply frames_read_only, read_only_read_lines|intros ?]).
    apply frames_bind; [|intros ?; apply frames_ret].
    apply frames_write_file. by right; right.
Qed.

(** ** The dataset files returned *)

Lemma build_shards_ret build_dataset src_list tgt_list structure_list mask_list
    fields corpus_type opt ret_list st ret st' :
  build_shards build_dataset src_list tgt_list structure_list mask_list
    fields corpus_type opt ret_list st = (Ok ret, st') →
  ret = ret_list
        ++ ((λ x : nat * string, shard_pt (save_data opt) corpus_type (Z.of_nat x.1))
              <$> src_list).
Proof.
  revert ret_list st. induction src_list as [|[index src] src_list IH];
    intros ret_list st; simpl.
  - intros [-> _]%ret_inv_ok. by rewrite app_nil_r.
  - intros H.
    repeat (apply bind_inv_ok in H as (? & ? & _ & H)).
    apply IH in H as ->. by rewrite <-app_assoc.
Qed.

Lemma build_save_dataset_ret build_dataset corpus_type fields opt st ret st' :
  build_save_dataset build_dataset corpus_type fields opt st = (Ok ret, st') →
  ∀ p, p ∈ ret →
    (∃ i, p = shard_pt (save_data opt) corpus_type i)
    ∨ p = mono_pt (save_data opt) corpus_type.
Proof.
  unfold build_save_dataset. intros H.
  apply bind_inv_ok in H as (_ & ? & _ & H).
  destruct (if bool_decide (corpus_type = "train") then _ else _)
    as [[[src_corpus tgt_corpus] structure_corpus] mask_corpus].
  case_bool_decide.
  - unfold build_save_in_shards_using_shards_size in H.
    repeat (apply bind_inv_ok in H as (? & ? & _ & H)).
    apply build_shards_ret in H as ->. simpl.
    intros p ([i src] & -> & _)%list_elem_of_fmap. left. eauto.
  - repeat (apply bind_inv_ok in H as (? & ? & _ & H)).
    apply ret_inv_ok in H as [-> _].
    intros p ->%list_elem_of_singleton. by right.
Qed.

(** A dataset file of the training step is none of the files the validation
    step touches. *)
Lemma train_file_not_touched_by_valid save_data p :
  (∃ i, p = shard_pt save_data "train" i) ∨ p = mono_pt save_data "train" →
  ¬ touched_by save_data "valid" p.
Proof.
  assert (Hne : ∀ a b : string,
            save_data +:+ "_" +:+ "train" +:+ a ≠ save_data +:+ "_" +:+ "valid" +:+ b).
  { intros a b Heq. by apply (inj (String.app save_data)) in Heq. }
  intros [[i ->]| ->] [Htxt|[[j Heq]|Heq]].
  - by eapply shard_pt_not_txt.
  - by eapply Hne.
  - by eapply Hne.
  - by eapply mono_pt_not_txt.
  - by eapply Hne.
  - by eapply Hne.
Qed.

(** ** What [build_vocab] depends on *)

Lemma depends_only_on_ret {A} paths (a : A) : depends_only_on paths (mret a).
Proof. by intros st1 st2 H. Qed.

Lemma depends_only_on_raise {A} paths e : depends_only_on paths (raise (A:=A) e).
Proof. by intros st1 st2 H. Qed.

Lemma depends_only_on_bind {A B} paths (m : M A) (k : A → M B) :
  depends_only_on paths m → (∀ a, depends_only_on paths (k a)) →
  depends_only_on paths (m ≫= k).
Proof.
  intros Hm Hk st1 st2 H. unfold mbind, M_bind.
  destruct (Hm st1 st2 H) as [Ho Hagree].
  destruct (m st1) as [[a1|e1] st1'], (m st2) as [[a2|e2] st2'];
    simpl in *; simplify_eq; [by apply Hk|done].
Qed.

Lemma depends_only_on_torch_load paths path :
  path ∈ paths → depends_only_on paths (torch_load path).
Proof.
  intros Hin st1 st2 [Hh Hf]. unfold torch_load. rewrite (Hf path Hin).
  by destruct (files st2 !! path) as [[]|].
Qed.

Lemma depends_only_on_pure {A} paths (m : M A) :
  (∀ st st0, m st = ((m st0).1, st)) → depends_only_on paths m.
Proof.
  intros Hm st1 st2 H. rewrite (Hm st1 st2), (Hm st2 st2). done.
Qed.

Lemma depends_only_on_get_field paths fields k :
  depends_only_on paths (get_field fields k).
Proof.
  apply depends_only_on_pure. intros st st0. unfold get_field.
  by destruct (dict_get fields k) as [[]|].
Qed.

Lemma depends_only_on_alloc paths v : depends_only_on paths (alloc v).
Proof.
  intros st1 st2 [Hh Hf]. unfold alloc. simpl. rewrite Hh. done.
Qed.

Lemma depends_only_on_load paths l : depends_only_on paths (load l).
Proof.
  intros st1 st2 [Hh Hf]. unfold load. rewrite Hh.
  by destruct (heap st2 !! l).
Qed.

Lemma depends_only_on_get_vocab paths fields k :
  depends_only_on paths (get_vocab fields k).
Proof.
  unfold get_vocab.
  apply depends_only_on_bind; [apply depends_only_on_get_field|intros f].
  destruct (vocab f); [apply depends_only_on_ret|apply depends_only_on_raise].
Qed.

Lemma depends_only_on_count_examples paths exs fields counter :
  depends_only_on paths (count_examples exs fields counter).
Proof.
  assert (Hval : ∀ k val c, depends_only_on paths (count_value k val c)).
  { intros k val c. apply depends_only_on_pure. intros st st0.
    unfold count_value. case_bool_decide; by destruct val as [| |[]]. }
  assert (Hex : ∀ keys ex counter,
            depends_only_on paths (count_example keys fields ex counter)).
  { intros keys ex. induction keys as [|k keys IH]; intros c; simpl.
    - apply depends_only_on_ret.
    - apply depends_only_on_bind; [apply depends_only_on_get_field|intros f].
      destruct (sequential f); simpl; [|apply IH].
      apply depends_only_on_bind; [apply Hval|intros ?; apply IH]. }
  revert counter. induction exs as [|ex exs IH]; intros counter; simpl.
  - apply depends_only_on_ret.
  - apply depends_only_on_bind; [apply Hex|intros ?; apply IH].
Qed.

Lemma depends_only_on_count_files paths files0 fields counter :
  files0 ⊆ paths → depends_only_on paths (count_files files0 fields counter).
Proof.
  revert counter. induction files0 as [|path files0 IH]; intros counter Hsub; simpl.
  - apply depends_only_on_ret.
  - apply depends_only_on_bind.
    { apply depends_only_on_torch_load, Hsub. by left. }
    intros d. apply depends_only_on_bind.
    { apply depends_only_on_count_examples. }
    intros c. apply IH. intros p Hp. apply Hsub. by right.
Qed.

Lemma depends_only_on_build_vocab UNK_WORD PAD_WORD BOS_WORD EOS_WORD
    train_dataset_files fields share_vocab
    src_vocab_size src_words_min_frequency tgt_vocab_size tgt_words_min_frequency
    structure_vocab_size structure_words_min_frequency :
  depends_only_on train_dataset_files
    (build_vocab UNK_WORD PAD_WORD BOS_WORD EOS_WORD train_dataset_files fields
       share_vocab src_vocab_size src_words_min_frequency
       tgt_vocab_size tgt_words_min_frequency
       structure_vocab_size structure_words_min_frequency).
Proof.
  assert (Hcounter : ∀ (counter : gmap string Counter) k,
            depends_only_on train_dataset_files (get_counter counter k)).
  { intros counter k. apply depends_only_on_pure. intros st st0.
    unfold get_counter. by destruct (counter !! k). }
  assert (Hfield : ∀ F k c m q,
            depends_only_on train_dataset_files (build_field_vocab F k c m q)).
  { intros F k c m q. unfold build_field_vocab.
    apply depends_only_on_bind; [apply depends_only_on_get_field|intros ?].
    apply depends_only_on_bind; [apply depends_only_on_alloc|intros ?].
    apply depends_only_on_ret. }
  unfold build_vocab.
  apply depends_only_on_bind; [by apply depends_only_on_count_files|intros counter].
  repeat first
    [ apply Hfield
    | apply Hcounter
    | apply depends_only_on_get_field
    | apply depends_only_on_get_vocab
    | apply depends_only_on_load
    | apply depends_only_on_alloc
    | apply depends_only_on_ret
    | apply depends_only_on_bind; [|intros ?]
    | destruct share_vocab ].
Qed.

(** ** The text files of the shards *)

Lemma elem_of_shard_names paths n p :
  p ∈ shard_names paths n
  ↔ ∃ c x, c ∈ paths ∧ (x < n)%nat ∧ p = shard_txt c (Z.of_nat x).
Proof.
  unfold shard_names. rewrite list_elem_of_bind. split.
  - intros (c & Hp & Hc).
    apply list_elem_of_fmap in Hp as (z & -> & Hz).
    apply list_elem_of_fmap in Hz as (x & -> & Hx).
    apply elem_of_seq in Hx. exists c, x. repeat split; [done|lia].
  - intros (c & x & Hc & Hx & ->). exists c. split; [|done].
    apply list_elem_of_fmap. exists (Z.of_nat x). split; [done|].
    apply list_elem_of_fmap. exists x. split; [done|].
    apply elem_of_seq. lia.
Qed.

Lemma store_shard_lookup src_corpus tgt_corpus structure_corpus mask_corpus x c fs p :
  let fs' := store_shard src_corpus tgt_corpus structure_corpus mask_corpus x c fs in
  (p ∈ (λ corpus, shard_txt corpus (Z.of_nat x))
         <$> [src_corpus; tgt_corpus; structure_corpus; mask_corpus]
   → ∃ ls, fs' !! p = Some (TextFile ls))
  ∧ (p ∉ (λ corpus, shard_txt corpus (Z.of_nat x))
           <$> [src_corpus; tgt_corpus; structure_corpus; mask_corpus]
     → fs' !! p = fs !! p).
Proof.
  unfold store_shard. simpl. split.
  - intros Hp. rewrite !lookup_insert.
    repeat (case_decide; [eauto|]).
    exfalso. repeat (apply elem_of_cons in Hp as [->|Hp]; [done|]).
    by apply elem_of_nil in Hp.
  - intros Hp.
    rewrite !lookup_insert_ne; [done|intros <-; apply Hp..].
    + left.
    + right. left.
    + do 2 right. left.
    + do 3 right. left.
Qed.

Lemma split_files_lookup src_corpus tgt_corpus structure_corpus mask_corpus
    (chunks : nat → corpora) fs n p :
  let paths := [src_corpus; tgt_corpus; structure_corpus; mask_corpus] in
  let fs' := foldl (λ fs x, store_shard src_corpus tgt_corpus structure_corpus
                              mask_corpus x (chunks x) fs) fs (seq 0 n) in
  (p ∈ shard_names paths n → ∃ ls, fs' !! p = Some (TextFile ls))
  ∧ (p ∉ shard_names paths n → fs' !! p = fs !! p).
Proof.
  intros paths. induction n as [|n [IH1 IH2]].
  { split; [|done]. intros (c & x & _ & Hx & _)%elem_of_shard_names. lia. }
  rewrite seq_S, foldl_app. cbn [foldl]. change (0 + n)%nat with n.
  set (fs_n := foldl _ fs (seq 0 n)) in *.
  destruct (store_shard_lookup src_corpus tgt_corpus structure_corpus mask_corpus
              n (chunks n) fs_n p) as [Hin Hout].
  destruct (decide (p ∈ (λ corpus, shard_txt corpus (Z.of_nat n)) <$> paths))
    as [Hp|Hp].
  - split; [intros _; by apply Hin|].
    intros Hnot. destruct Hnot. apply elem_of_shard_names.
    apply list_elem_of_fmap in Hp as (c & -> & Hc). exists c, n. split; [done|].
    split; [lia|done].
  - rewrite (Hout Hp). split.
    + intros (c & x & Hc & Hx & ->)%elem_of_shard_names. apply IH1.
      apply elem_of_shard_names. exists c, x. split; [done|]. split; [|done].
      destruct (decide (x = n)) as [->|]; [|lia].
      destruct Hp. apply list_elem_of_fmap. eauto.
    + intros Hnot. apply IH2. intros (c & x & Hc & Hx & ->)%elem_of_shard_names.
      apply Hnot, elem_of_shard_names. exists c, x. split; [done|]. split; [lia|done].
Qed.

(** ** The build loop on a clean set of text shards *)

Lemma read_lines_run path ls st :
  files st !! path = Some (TextFile ls) → read_lines path st = (Ok ls, st).
Proof. intros H. unfold read_lines. by rewrite H. Qed.

Lemma os_remove_run path f st :
  files st !! path = Some f → os_remove path st = (Ok (), set_files (delete path) st).
Proof. intros H. unfold os_remove. by rewrite H. Qed.

Lemma list_index_run {A} (l : list A) i x st :
  l !! i = Some x → list_index l i st = (Ok x, st).
Proof. intros H. unfold list_index. by rewrite H. Qed.

Lemma build_shards_quads build_dataset fields corpus_type opt
    (Q : list (string * string * string * string)) (k : nat)
    (tgt_list structure_list mask_list ret : list string) (st : state) :
  (∀ i q, Q !! i = Some q →
     tgt_list !! (k + i)%nat = Some q.1.1.2
     ∧ structure_list !! (k + i)%nat = Some q.1.2
     ∧ mask_list !! (k + i)%nat = Some q.2) →
  NoDup (Q ≫= quad_files) →
  Forall ends_txt (Q ≫= quad_files) →
  (∀ p, p ∈ Q ≫= quad_files → ∃ ls, files st !! p = Some (TextFile ls)) →
  let pt (i : nat) := shard_pt (save_data opt) corpus_type (Z.of_nat i) in
  ∃ st',
    build_shards build_dataset (imap (λ i q, ((k + i)%nat, q.1.1.1)) Q)
      tgt_list structure_list mask_list fields corpus_type opt ret st
    = (Ok (ret ++ (pt <$> seq k (length Q))), st')
    ∧ heap st' = heap st
    ∧ (∀ p, p ∈ Q ≫= quad_files → files st' !! p = None)
    ∧ (∀ i, (k ≤ i < k + length Q)%nat →
         ∃ d, files st' !! pt i = Some (DatasetFile d))
    ∧ (∀ p, p ∉ Q ≫= quad_files →
         (∀ i, (k ≤ i < k + length Q)%nat → p ≠ pt i) →
         files st' !! p = files st !! p).
Proof.
  intros Hlists Hnodup Htxt Hfiles pt.
  revert k ret st Hlists Hnodup Htxt Hfiles.
  induction Q as [|[[[s t] u] m] Q IH]; intros k ret st Hlists Hnodup Htxt Hfiles.
  { exists st. simpl. rewrite app_nil_r. repeat split; try done.
    - intros p []%elem_of_nil.
    - intros i ?. lia. }
  rewrite bind_cons in Hnodup, Htxt, Hfiles.
  apply NoDup_app in Hnodup as (Hq & Hdisj & Hnodup).
  apply Forall_app in Htxt as [Htxt_q Htxt].
  destruct (Hlists 0%nat _ eq_refl) as (Ht & Hu & Hm). simpl in Ht, Hu, Hm.
  rewrite Nat.add_0_r in Ht, Hu, Hm.
  assert (Hne_pt : ∀ p i, ends_txt p → p ≠ pt i).
  { intros p i Hp ->. by eapply shard_pt_not_txt. }
  change (quad_files (s, t, u, m)) with [s; t; u; m] in *.
  apply NoDup_cons in Hq as [Hs Hq]. apply NoDup_cons in Hq as [Ht' Hq].
  apply NoDup_cons in Hq as [Hu' _].
  assert (s ≠ t ∧ s ≠ u ∧ s ≠ m ∧ t ≠ u ∧ t ≠ m ∧ u ≠ m) as (?&?&?&?&?&?).
  { repeat split; intros ->.
    - apply Hs. by left.
    - apply Hs. right. by left.
    - apply Hs. do 2 right. by left.
    - apply Ht'. by left.
    - apply Ht'. right. by left.
    - apply Hu'. by left. }
  apply Forall_cons in Htxt_q as [Hs_txt Htxt_q].
  apply Forall_cons in Htxt_q as [Ht_txt Htxt_q].
  apply Forall_cons in Htxt_q as [Hu_txt Htxt_q].
  apply Forall_cons in Htxt_q as [Hm_txt _].
  assert (Hin_q : ∀ p, p ∈ [s; t; u; m] → p ∈ [s; t; u; m] ++ Q ≫= quad_files).
  { intros p Hp. apply elem_of_app. by left. }
  assert (Hs_in : s ∈ [s; t; u; m]) by (by left).
  assert (Ht_in : t ∈ [s; t; u; m]) by (right; by left).
  assert (Hu_in : u ∈ [s; t; u; m]) by (do 2 right; by left).
  assert (Hm_in : m ∈ [s; t; u; m]) by (do 3 right; by left).
  destruct (Hfiles s) as [ls_s Hfs]; [by apply Hin_q|].
  destruct (Hfiles t) as [ls_t Hft]; [by apply Hin_q|].
  destruct (Hfiles u) as [ls_u Hfu]; [by apply Hin_q|].
  destruct (Hfiles m) as [ls_m Hfm]; [by apply Hin_q|].
  rewrite imap_cons. cbn [build_shards]. rewrite Nat.add_0_r.
  erewrite bind_ok by (by apply read_lines_run).
  erewrite bind_ok by (by apply list_index_run).
  erewrite bind_ok by (by apply read_lines_run).
  erewrite bind_ok by (by apply list_index_run).
  erewrite bind_ok by (by apply read_lines_run).
  erewrite bind_ok by (by apply list_index_run).
  erewrite bind_ok by (by apply read_lines_run).
  erewrite bind_ok by done.
  erewrite bind_ok; cycle 1.
  { eapply os_remove_run. simpl. rewrite lookup_insert_ne by (by apply not_eq_sym, Hne_pt).
    done. }
  erewrite bind_ok; cycle 1.
  { eapply os_remove_run. simpl.
    rewrite lookup_delete_ne, lookup_insert_ne by (done || by apply not_eq_sym, Hne_pt).
    done. }
  erewrite bind_ok; cycle 1.
  { eapply os_remove_run. simpl.
    rewrite !lookup_delete_ne, lookup_insert_ne by (done || by apply not_eq_sym, Hne_pt).
    done. }
  erewrite bind_ok; cycle 1.
  { eapply os_remove_run. simpl.
    rewrite !lookup_delete_ne, lookup_insert_ne by (done || by apply not_eq_sym, Hne_pt).
    done. }
  unfold set_files. cbn [files heap fst].
  set (D := mkDataset _ []).
  set (st_b := mkState _ (heap st)).
  assert (Hb : ∀ p, p ≠ s → p ≠ t → p ≠ u → p ≠ m → p ≠ pt k →
            files st_b !! p = files st !! p).
  { intros p ?????. unfold st_b. cbn [files].
    by rewrite !lookup_delete_ne, lookup_insert_ne by done. }
  assert (Hrest : ∀ p, p ∈ Q ≫= quad_files →
            p ≠ s ∧ p ≠ t ∧ p ≠ u ∧ p ≠ m ∧ p ≠ pt k).
  { intros p Hp.
    split; [intros ->; by apply (Hdisj s)|].
    split; [intros ->; by apply (Hdisj t)|].
    split; [intros ->; by apply (Hdisj u)|].
    split; [intros ->; by apply (Hdisj m)|].
    apply Hne_pt. by eapply Forall_forall. }
  destruct (IH (S k) (ret ++ [pt k]) st_b) as (st' & Hrun & Hheap & Hgone & Hpt & Hframe).
  { intros i q Hi. specialize (Hlists (S i) q Hi).
    by rewrite <-!Nat.add_succ_comm in Hlists. }
  { done. }
  { done. }
  { intros p Hp. destruct (Hrest p Hp) as (?&?&?&?&?).
    rewrite Hb by done. apply Hfiles. apply elem_of_app. by right. }
  assert (Hquad : ∀ p, p ∈ [s; t; u; m] →
            ends_txt p ∧ files st_b !! p = None ∧ p ∉ Q ≫= quad_files).
  { intros p Hp. split; [|split].
    - repeat (apply elem_of_cons in Hp as [->|Hp]; [done|]).
      by apply elem_of_nil in Hp.
    - unfold st_b. cbn [files].
      repeat (apply elem_of_cons in Hp as [->|Hp];
        [by rewrite ?lookup_delete_eq, ?lookup_delete_ne, ?lookup_delete_eq by done|]).
      by apply elem_of_nil in Hp.
    - by apply Hdisj. }
  exists st'. split; [|split; [|split; [|split]]].
  - replace (imap (_ ∘ S) Q)
      with (imap (λ i (q : string * string * string * string),
                    ((S k + i)%nat, q.1.1.1)) Q).
    2: { apply imap_ext. intros i q _. simpl. f_equal. lia. }
    fold (pt k). fold D. fold st_b. rewrite Hrun.
    cbn [length seq]. rewrite fmap_cons. by rewrite <-app_assoc.
  - done.
  - intros p Hp.
    apply elem_of_app in Hp as [Hp|Hp]; [|by apply Hgone].
    destruct (Hquad p Hp) as (Hp_txt & Hp_none & Hp_notin).
    rewrite Hframe; [done|done|]. intros i _. by apply Hne_pt.
  - intros i Hi. destruct (decide (i = k)) as [->|Hik].
    + exists D. rewrite Hframe.
      * unfold st_b. cbn [files].
        rewrite !lookup_delete_ne by (by apply Hne_pt).
        by rewrite lookup_insert_eq.
      * intros Hin. eapply Hne_pt; [|done]. by eapply Forall_forall.
      * intros i Hi' Heq. apply shard_pt_inj in Heq. lia.
    + apply Hpt. simpl in Hi. lia.
  - intros p Hp Hpt'.
    assert (Hp_q : ∀ x, x ∈ [s; t; u; m] → p ≠ x).
    { intros x Hx ->. by apply Hp, Hin_q. }
    rewrite Hframe.
    + apply Hb; [by apply Hp_q..|]. apply Hpt'. simpl. lia.
    + intros Hin. apply Hp. apply elem_of_app. by right.
    + intros i Hi. apply Hpt'. simpl. lia.
Qed.

Lemma zip4_lookup {A} (a b c d : list A) i q :
  zip4 a b c d !! i = Some q →
  a !! i = Some q.1.1.1 ∧ b !! i = Some q.1.1.2
  ∧ c !! i = Some q.1.2 ∧ d !! i = Some q.2.
Proof.
  unfold zip4. intros H.
  apply lookup_zip_with_Some in H as (x3 & w & -> & H & Hd).
  apply lookup_zip_with_Some in H as (x2 & z & -> & H & Hc).
  apply lookup_zip_with_Some in H as (x & y & -> & Ha & Hb).
  done.
Qed.

Lemma zip4_same_length {A} (a b c d : list A) n :
  length a = n → length b = n → length c = n → length d = n →
  (zip4 a b c d).*1.*1.*1 = a ∧ (zip4 a b c d).*1.*1.*2 = b
  ∧ (zip4 a b c d).*1.*2 = c ∧ (zip4 a b c d).*2 = d
  ∧ length (zip4 a b c d) = n.
Proof.
  intros Ha Hb Hc Hd.
  destruct (zip4_columns a b c d) as (H1 & H2 & H3 & H4).
  rewrite Ha, Hb, Hc, Hd, !Nat.min_id in H1, H2, H3, H4.
  rewrite take_ge in H1, H2, H3, H4 by lia.
  repeat split; try done.
  apply (f_equal length) in H4. rewrite length_fmap in H4. congruence.
Qed.

Lemma quad_files_columns (Q : list (string * string * string * string)) :
  Q ≫= quad_files ≡ₚ Q.*1.*1.*1 ++ Q.*1.*1.*2 ++ Q.*1.*2 ++ Q.*2.
Proof.
  induction Q as [|[[[s t] u] m] Q IH]; [done|].
  rewrite bind_cons, IH. rewrite !fmap_cons. simpl.
  constructor.
  rewrite <-!Permutation_middle. by do 3 constructor.
Qed.

Lemma shard_names_NoDup paths n :
  NoDup paths →
  (∀ c c' (x : nat), c ∈ paths → c' ∈ paths → c ≠ c' →
     glob_match c' (shard_txt c (Z.of_nat x)) = false) →
  NoDup (shard_names paths n).
Proof.
  intros Hpaths Hindep. unfold shard_names.
  induction Hpaths as [|c paths Hc Hpaths IH]; [constructor|].
  rewrite bind_cons. apply NoDup_app. split; [|split].
  - apply NoDup_fmap; [apply shard_txt_inj|].
    apply NoDup_fmap; [intros ???; lia|]. apply NoDup_seq.
  - intros p Hp Hp'.
    apply list_elem_of_fmap in Hp as (z & -> & Hz).
    apply list_elem_of_fmap in Hz as (x & -> & _).
    apply (elem_of_shard_names paths n) in Hp' as (c' & x' & Hc' & _ & Heq).
    assert (c ≠ c') by (by intros ->).
    pose proof (glob_match_shard_txt c' (Z.of_nat x')) as Htrue.
    rewrite <-Heq in Htrue.
    rewrite (Hindep c c' x) in Htrue; [done|by left|by right|done].
  - apply IH. intros c1 c2 x H1 H2. apply Hindep; by right.
Qed.

(** What [glob] finds after the text shards have been written into a file
    system that had no file matching the pattern. *)
Lemma sorted_glob_after_split (paths : list string) (n : nat) (c : string)
    (st st1 : state) :
  c ∈ paths →
  sorted_glob c st = (Ok [], st) →
  (∀ c' (x : nat), c' ∈ paths → c' ≠ c →
     glob_match c (shard_txt c' (Z.of_nat x)) = false) →
  (∀ p, p ∈ shard_names paths n → is_Some (files st1 !! p)) →
  (∀ p, p ∉ shard_names paths n → files st1 !! p = files st !! p) →
  ∃ l, sorted_glob c st1 = (Ok l, st1)
       ∧ l ≡ₚ shard_txt c <$> (Z.of_nat <$> seq 0 n).
Proof.
  intros Hc Hclean Hindep Hnew Hold.
  eexists. split; [done|].
  rewrite merge_sort_Permutation.
  apply NoDup_Permutation.
  - apply NoDup_filter, NoDup_elements.
  - apply NoDup_fmap; [apply shard_txt_inj|].
    apply NoDup_fmap; [intros ???; lia|]. apply NoDup_seq.
  - intros p. rewrite list_elem_of_filter, elem_of_elements, elem_of_dom.
    split.
    + intros [Hmatch Hp].
      destruct (decide (p ∈ shard_names paths n)) as [Hin|Hout].
      * apply elem_of_shard_names in Hin as (c' & x & Hc' & Hx & ->).
        destruct (decide (c' = c)) as [->|Hne].
        { apply list_elem_of_fmap. exists (Z.of_nat x). split; [done|].
          apply list_elem_of_fmap. exists x. split; [done|].
          apply elem_of_seq. lia. }
        by rewrite (Hindep c' x) in Hmatch.
      * rewrite (Hold p Hout) in Hp.
        unfold sorted_glob in Hclean. injection Hclean as Hclean.
        apply (f_equal length) in Hclean.
        rewrite merge_sort_Permutation in Hclean.
        apply nil_length_inv in Hclean.
        exfalso. eapply (filter_nil_not_elem_of _ _ p); [exact Hclean|done|].
        by apply elem_of_elements, elem_of_dom.
    + intros (z & -> & Hz)%list_elem_of_fmap.
      apply list_elem_of_fmap in Hz as (x & -> & Hx). apply elem_of_seq in Hx.
      split; [apply glob_match_shard_txt|].
      apply Hnew, elem_of_shard_names. exists c, x. split; [done|]. split; [lia|done].
Qed.

Lemma sorted_glob_nil c st p :
  sorted_glob c st = (Ok [], st) → glob_match c p = true → files st !! p = None.
Proof.
  intros Hclean Hmatch.
  unfold sorted_glob in Hclean. injection Hclean as Hclean.
  apply (f_equal length) in Hclean.
  rewrite merge_sort_Permutation in Hclean.
  apply nil_length_inv in Hclean.
  destruct (files st !! p) as [f|] eqn:Hp; [|done].
  exfalso. eapply (filter_nil_not_elem_of _ _ p); [exact Hclean|done|].
  apply elem_of_elements, elem_of_dom. eauto.
Qed.

Lemma enumerate_zip4 (Q : list (string * string * string * string)) :
  imap (λ i (q : string * string * string * string), ((0 + i)%nat, q.1.1.1)) Q
  = enumerate Q.*1.*1.*1.
Proof.
  unfold enumerate. rewrite !imap_fmap. by apply imap_ext.
Qed.

(** The sharded run on a clean file system. *)
Lemma build_save_in_shards_clean build_dataset
    (src_corpus tgt_corpus structure_corpus mask_corpus : string)
    (fields : fields_t) (corpus_type : string) (opt : options) (st : state)
    (src_file tgt_file structure_file mask_file : list string) :
  let paths := [src_corpus; tgt_corpus; structure_corpus; mask_corpus] in
  let rows := zip4 src_file tgt_file structure_file mask_file in
  let n := shard_count (length rows) (Z.to_nat (shard_size opt)) in
  let pt (i : nat) := shard_pt (save_data opt) corpus_type (Z.of_nat i) in
  0 < shard_size opt →
  files st !! src_corpus = Some (TextFile src_file) →
  files st !! tgt_corpus = Some (TextFile tgt_file) →
  files st !! structure_corpus = Some (TextFile structure_file) →
  files st !! mask_corpus = Some (TextFile mask_file) →
  Forall well_sized rows →
  (∀ c, c ∈ paths → sorted_glob c st = (Ok [], st)) →
  NoDup paths →
  (∀ c c' (x : nat), c ∈ paths → c' ∈ paths → c ≠ c' →
     glob_match c' (shard_txt c (Z.of_nat x)) = false) →
  ∃ st',
    build_save_in_shards_using_shards_size build_dataset
      src_corpus tgt_corpus structure_corpus mask_corpus fields corpus_type opt st
    = (Ok (pt <$> seq 0 n), st')
    ∧ heap st' = heap st
    ∧ (∀ i, (i < n)%nat → ∃ d, files st' !! pt i = Some (DatasetFile d))
    ∧ (∀ p, p ∈ shard_names paths n → files st' !! p = None)
    ∧ (∀ p, (∀ i, (i < n)%nat → p ≠ pt i) → files st' !! p = files st !! p).
Proof.
  intros paths rows n pt Hpos H1 H2 H3 H4 Hrows Hclean Hnodup Hindep.
  unfold build_save_in_shards_using_shards_size.
  erewrite bind_ok; cycle 1.
  { rewrite (read_corpora_run _ _ _ _ _ _ _ _ _ H1 H2 H3 H4).
    by rewrite decide_True. }
  fold rows. erewrite bind_ok by apply check_lengths_rows.
  erewrite bind_ok; cycle 1.
  { apply split_shards_run; [done|].
    apply columns_cases; unfold corpora_of_rows; simpl; by rewrite !length_fmap. }
  replace (length (src_data (corpora_of_rows rows))) with (length rows)
    by (unfold corpora_of_rows; simpl; by rewrite !length_fmap).
  fold n.
  set (st1 := mkState _ (heap st)).
  assert (Hnew : ∀ p, p ∈ shard_names paths n →
            ∃ ls, files st1 !! p = Some (TextFile ls)).
  { intros p. apply split_files_lookup. }
  assert (Hold : ∀ p, p ∉ shard_names paths n → files st1 !! p = files st !! p).
  { intros p. apply split_files_lookup. }
  assert (Hglob : ∀ c, c ∈ paths →
            ∃ l, sorted_glob c st1 = (Ok l, st1)
                 ∧ l ≡ₚ shard_txt c <$> (Z.of_nat <$> seq 0 n)).
  { intros c Hc. apply (sorted_glob_after_split paths n c st st1); try done.
    - by apply Hclean.
    - intros c' x Hc' Hne. by apply Hindep.
    - intros p Hp. destruct (Hnew p Hp) as [ls ->]. eauto. }
  destruct (Hglob src_corpus) as (L1 & Hg1 & HL1); [by left|].
  destruct (Hglob tgt_corpus) as (L2 & Hg2 & HL2); [right; by left|].
  destruct (Hglob structure_corpus) as (L3 & Hg3 & HL3); [do 2 right; by left|].
  destruct (Hglob mask_corpus) as (L4 & Hg4 & HL4); [do 3 right; by left|].
  erewrite bind_ok by exact Hg1. erewrite bind_ok by exact Hg2.
  erewrite bind_ok by exact Hg3. erewrite bind_ok by exact Hg4.
  assert (Hlen : ∀ L c, L ≡ₚ shard_txt c <$> (Z.of_nat <$> seq 0 n) → length L = n).
  { intros L c ->. by rewrite !length_fmap, length_seq. }
  destruct (zip4_same_length L1 L2 L3 L4 n) as (Hc1 & Hc2 & Hc3 & Hc4 & HlenQ);
    [by eapply Hlen..|].
  set (Q := zip4 L1 L2 L3 L4) in *.
  assert (HQ : Q ≫= quad_files ≡ₚ shard_names paths n).
  { rewrite quad_files_columns, Hc1, Hc2, Hc3, Hc4, HL1, HL2, HL3, HL4.
    unfold shard_names, paths. rewrite !bind_cons. simpl. by rewrite app_nil_r. }
  destruct (build_shards_quads build_dataset fields corpus_type opt Q 0
              L2 L3 L4 [] st1) as (st' & Hrun & Hheap & Hgone & Hpt & Hframe).
  { intros i q Hq. apply zip4_lookup in Hq as (_ & ? & ? & ?). done. }
  { rewrite HQ. by apply shard_names_NoDup. }
  { rewrite HQ. apply Forall_forall.
    intros p (c & x & _ & _ & ->)%elem_of_shard_names. apply shard_txt_ends_txt. }
  { intros p Hp. rewrite HQ in Hp. by apply Hnew. }
  rewrite enumerate_zip4, Hc1 in Hrun.
  exists st'. rewrite Hrun, HlenQ. split; [done|].
  split; [done|]. split; [|split].
  - intros i Hi. apply Hpt. lia.
  - intros p Hp. apply Hgone. by rewrite HQ.
  - intros p Hp.
    destruct (decide (p ∈ shard_names paths n)) as [Hin|Hout].
    + rewrite Hgone by (by rewrite HQ).
      apply elem_of_shard_names in Hin as (c & x & Hc & _ & ->).
      symmetry. eapply sorted_glob_nil; [by apply Hclean|].
      apply glob_match_shard_txt.
    + rewrite Hframe; [by apply Hold|by rewrite HQ|].
      intros i Hi. apply Hp. lia.
Qed.

Lemma build_save_dataset_monolithic build_dataset corpus_type fields opt st
    src_corpus tgt_corpus structure_corpus mask_corpus
    src_file tgt_file structure_file mask_file :
  shard_size opt ≤ 0 →
  corpus_type = "train" ∨ corpus_type = "valid" →
  (src_corpus, tgt_corpus, structure_corpus, mask_corpus)
  = (if bool_decide (corpus_type = "train")
     then (train_src opt, train_tgt opt, train_structure opt, train_mask opt)
     else (valid_src opt, valid_tgt opt, valid_structure opt, valid_mask opt)) →
  files st !! src_corpus = Some (TextFile src_file) →
  files st !! tgt_corpus = Some (TextFile tgt_file) →
  files st !! structure_corpus = Some (TextFile structure_file) →
  files st !! mask_corpus = Some (TextFile mask_file) →
  build_save_dataset build_dataset corpus_type fields opt st
  = (Ok [mono_pt (save_data opt) corpus_type],
     mkState
       (<[mono_pt (save_data opt) corpus_type :=
            DatasetFile
              (mkDataset
                 (examples
                    (build_dataset fields src_file tgt_file structure_file mask_file
                       (src_seq_length opt) (tgt_seq_length opt)
                       (src_seq_length_trunc opt) (tgt_seq_length_trunc opt)))
                 [])]> (files st))
       (heap st)).
Proof.
  intros Hsize Htype Hpaths H1 H2 H3 H4. unfold build_save_dataset.
  erewrite bind_ok; cycle 1.
  { unfold assert. rewrite bool_decide_eq_true_2; [done|].
    destruct Htype as [-> | ->]; [by left|right; by left]. }
  rewrite <-Hpaths. rewrite bool_decide_eq_false_2 by lia.
  unfold make_text_iterator_from_file.
  erewrite bind_ok by (by apply read_lines_run).
  erewrite bind_ok by (by apply read_lines_run).
  erewrite bind_ok by (by apply read_lines_run).
  erewrite bind_ok by (by apply read_lines_run).
  by erewrite bind_ok by done.
Qed.

(** C6, as amended.  Provided that beforehand no file matches the pattern
    [corpus + '.*.txt'] of any of the four corpora (given without pattern
    characters), that the four corpus paths are different and that no shard
    file of one corpus matches the pattern of another,
    [build_save_in_shards_using_shards_size], when sharding is enabled,
    returns the list of the dataset files written, one entry
    [save_data_corpus_type.index.pt] per shard in the order they are built,
    and deletes every text file [.x.txt] it created: afterwards the file
    system differs from the initial one in the [.pt] files only.  When
    [shard_size] is not positive, [build_save_dataset] returns the
    one-element list with the path [save_data_corpus_type.pt]. *)
Theorem shards_listed_and_text_files_removed build_dataset
    (src_corpus tgt_corpus structure_corpus mask_corpus : string)
    (fields : fields_t) (corpus_type : string) (opt : options) (st : state)
    (src_file tgt_file structure_file mask_file : list string) :
  let paths := [src_corpus; tgt_corpus; structure_corpus; mask_corpus] in
  let rows := zip4 src_file tgt_file structure_file mask_file in
  let n := shard_count (length rows) (Z.to_nat (shard_size opt)) in
  let pt (i : nat) := shard_pt (save_data opt) corpus_type (Z.of_nat i) in
  files st !! src_corpus = Some (TextFile src_file) →
  files st !! tgt_corpus = Some (TextFile tgt_file) →
  files st !! structure_corpus = Some (TextFile structure_file) →
  files st !! mask_corpus = Some (TextFile mask_file) →
  (0 < shard_size opt →
   Forall well_sized rows →
   (∀ c, c ∈ paths → sorted_glob c st = (Ok [], st)) →
   NoDup paths →
   (∀ c c' (x : nat), c ∈ paths → c' ∈ paths → c ≠ c' →
      glob_match c' (shard_txt c (Z.of_nat x)) = false) →
   ∃ st',
     build_save_in_shards_using_shards_size build_dataset
       src_corpus tgt_corpus structure_corpus mask_corpus fields corpus_type opt st
     = (Ok (pt <$> seq 0 n), st')
     ∧ heap st' = heap st
     ∧ (∀ i, (i < n)%nat → ∃ d, files st' !! pt i = Some (DatasetFile d))
     ∧ (∀ c (x : nat), c ∈ paths → (x < n)%nat →
          files st' !! shard_txt c (Z.of_nat x) = None)
     ∧ (∀ p, (∀ i, (i < n)%nat → p ≠ pt i) → files st' !! p = files st !! p))
  ∧ (shard_size opt ≤ 0 →
     corpus_type = "train" ∨ corpus_type = "valid" →
     (src_corpus, tgt_corpus, structure_corpus, mask_corpus)
     = (if bool_decide (corpus_type = "train")
        then (train_src opt, train_tgt opt, train_structure opt, train_mask opt)
        else (valid_src opt, valid_tgt opt, valid_structure opt, valid_mask opt)) →
     ∃ st',
       build_save_dataset build_dataset corpus_type fields opt st
       = (Ok [mono_pt (save_data opt) corpus_type], st')
       ∧ heap st' = heap st
       ∧ (∃ d, files st' !! mono_pt (save_data opt) corpus_type = Some (DatasetFile d))
       ∧ (∀ p, p ≠ mono_pt (save_data opt) corpus_type →
            files st' !! p = files st !! p)).
Proof.
  intros paths rows n pt H1 H2 H3 H4. split.
  - intros Hpos Hrows Hclean Hnodup Hindep.
    destruct (build_save_in_shards_clean build_dataset src_corpus tgt_corpus
                structure_corpus mask_corpus fields corpus_type opt st
                src_file tgt_file structure_file mask_file)
      as (st' & Hrun & Hheap & Hpt & Hgone & Hframe); try done.
    exists st'. repeat split; try done.
    intros c x Hc Hx. apply Hgone, elem_of_shard_names. eauto.
  - intros Hsize Htype Hpaths. eexists. split.
    { by eapply build_save_dataset_monolithic. }
    split; [done|]. cbn [files]. split.
    + eexists. apply lookup_insert_eq.
    + intros p Hp. by apply lookup_insert_ne.
Qed.

(** C10. [main] hands to [build_save_vocab] the list of files returned for
    the corpus type ['train'], and nothing else.  The validation step
    leaves these files and the vocabulary objects as the training step left
    them, and [build_vocab] reads the file system at these files only: its
    outcome and the vocabularies it creates are the same in any two states
    that agree on them.  So what [build_vocab] computes in [main] is what
    it computes from the state reached right after the training step,
    before any validation corpus was opened. *)
Theorem vocabulary_from_training_shards_only build_dataset get_fields
    (UNK_WORD PAD_WORD BOS_WORD EOS_WORD : string)
    (opt : options) (st : state)
    (train_dataset_files valid_dataset_files : list string) (st1 st2 : state) :
  shuffle opt ≤ 0 →
  build_save_dataset build_dataset "train" get_fields opt st
  = (Ok train_dataset_files, st1) →
  build_save_dataset build_dataset "valid" get_fields opt st1
  = (Ok valid_dataset_files, st2) →
  let build :=
    build_vocab UNK_WORD PAD_WORD BOS_WORD EOS_WORD train_dataset_files get_fields
      (share_vocab opt)
      (src_vocab_size opt) (src_words_min_frequency opt)
      (tgt_vocab_size opt) (tgt_words_min_frequency opt)
      (structure_vocab_size opt) (structure_words_min_frequency opt) in
  main build_dataset get_fields UNK_WORD PAD_WORD BOS_WORD EOS_WORD opt st
  = build_save_vocab UNK_WORD PAD_WORD BOS_WORD EOS_WORD
      train_dataset_files get_fields opt st2
  ∧ agree_on train_dataset_files st1 st2
  ∧ depends_only_on train_dataset_files build
  ∧ (build st2).1 = (build st1).1
  ∧ heap (build st2).2 = heap (build st1).2.
Proof.
  intros Hshuffle Htrain Hvalid build.
  assert (Hagree : agree_on train_dataset_files st1 st2).
  { destruct (frames_build_save_dataset _ _ _ _ _ _ _ Hvalid) as [Hheap Hframe].
    split; [done|]. intros p Hp. symmetry. apply Hframe.
    apply train_file_not_touched_by_valid.
    by eapply build_save_dataset_ret. }
  pose proof (depends_only_on_build_vocab UNK_WORD PAD_WORD BOS_WORD EOS_WORD
                train_dataset_files get_fields (share_vocab opt)
                (src_vocab_size opt) (src_words_min_frequency opt)
                (tgt_vocab_size opt) (tgt_words_min_frequency opt)
                (structure_vocab_size opt) (structure_words_min_frequency opt))
    as Hdep.
  split; [|split; [done|split; [done|]]].
  - unfold main. rewrite bool_decide_eq_false_2 by lia.
    erewrite bind_ok by exact Htrain. by erewrite bind_ok by exact Hvalid.
  - destruct (Hdep st1 st2 Hagree) as (Ho & Hh & _). by split.
Qed.

(** * The properties at the small instance *)

Lemma demo_row_well_sized :
  well_sized (Demo.src_line, Demo.tgt_line, Demo.structure_line, Demo.mask_line).
Proof. split; vm_compute; reflexivity. Qed.

Lemma demo_counted :
  count_files (Demo.train_files 2 3) Demo.fields (empty_counters Demo.fields)
    (Demo.after_datasets 2 3)
  = (Ok (Demo.counters 2 3), Demo.after_datasets 2 3).
Proof. vm_compute. reflexivity. Qed.

Lemma split_shards_partition_witness :
  let d := mkCorpora (replicate 3 Demo.src_line) (replicate 3 Demo.tgt_line)
             (replicate 3 Demo.structure_line) (replicate 3 Demo.mask_line) in
  (split_shards "train.src" "train.tgt" "train.structure" "train.mask" d 2
     (Demo.initial 3)).1 = Ok ()
  ∧ shard_count 3 2 = 2%nat
  ∧ length (src_data (chunk d 2 0)) = 2%nat
  ∧ length (src_data (chunk d 2 1)) = 1%nat
  ∧ concat ((λ x, src_data (chunk d 2 x)) <$> seq 0 2) = src_data d.
Proof.
  intros d.
  destruct (split_shards_partition "train.src" "train.tgt" "train.structure"
              "train.mask" d 2 (Demo.initial 3))
    as (Hrun & Hcount & Hcols).
  - reflexivity.
  - apply columns_cases; reflexivity.
  - destruct (Hcols src_data) as (_ & Hfull & Hlast & Hconcat); [by left|].
    split; [by rewrite Hrun|]. split; [reflexivity|].
    split; [apply (Hfull 0%nat); vm_compute; lia|].
    split; [apply Hlast; vm_compute; lia|].
    exact Hconcat.
Defined.

Lemma ill_sized_example_aborts_witness :
  build_save_in_shards_using_shards_size Demo.build_dataset
    "train.src" "train.tgt" "train.structure" "train.mask"
    Demo.fields "train" (Demo.opt 2 false) Demo.ill_sized
  = (Raise (AssertionError None), Demo.ill_sized).
Proof.
  apply (ill_sized_example_aborts Demo.build_dataset
           "train.src" "train.tgt" "train.structure" "train.mask"
           Demo.fields "train" (Demo.opt 2 false) Demo.ill_sized
           (replicate 3 Demo.src_line) (replicate 3 Demo.tgt_line)
           [Demo.structure_line; "p q r" +:+ Demo.nl; Demo.structure_line]
           (replicate 3 Demo.mask_line));
    [reflexivity..|].
  exists (Demo.src_line, Demo.tgt_line, "p q r" +:+ Demo.nl, Demo.mask_line).
  split.
  - right. left.
  - intros [H _]. vm_compute in H. discriminate.
Defined.

Lemma assertions_before_any_output_witness :
  build_save_dataset Demo.build_dataset "test" Demo.fields (Demo.opt 2 false)
    (Demo.initial 3)
  = (Raise (AssertionError None), Demo.initial 3).
Proof.
  by apply (assertions_before_any_output Demo.build_dataset Demo.fields
              "<unk>" "<blank>" "<s>" "</s>" "test" Demo.fields (Demo.opt 2 false)
              (Demo.initial 3)).
Defined.

Lemma length_check_unreachable_witness :
  read_corpora "train.src" "train.tgt" "train.structure" "train.mask" Demo.uneven
  = (Ok (mkCorpora (replicate 2 Demo.src_line) (replicate 2 Demo.tgt_line)
           (replicate 2 Demo.structure_line) (replicate 2 Demo.mask_line)),
     Demo.uneven).
Proof.
  destruct (length_check_unreachable Demo.build_dataset
              "train.src" "train.tgt" "train.structure" "train.mask"
              Demo.fields "train" (Demo.opt 2 false) Demo.uneven)
    as (_ & _ & Hcut).
  apply (Hcut (replicate 3 Demo.src_line) (replicate 2 Demo.tgt_line)
           (replicate 2 Demo.structure_line) (replicate 2 Demo.mask_line));
    [reflexivity..|].
  change (Forall well_sized
            (replicate 2 (Demo.src_line, Demo.tgt_line,
                          Demo.structure_line, Demo.mask_line))).
  apply Forall_replicate, demo_row_well_sized.
Defined.

Lemma shared_vocabulary_is_merged_witness :
  ∃ fields' st' l merged,
    build_vocab "<unk>" "<blank>" "<s>" "</s>" (Demo.train_files 2 3) Demo.fields
      true 50000 0 50000 0 50000 0 (Demo.after_datasets 2 3)
    = (Ok fields', st')
    ∧ field_loc fields' "src" = Some l
    ∧ field_loc fields' "tgt" = Some l
    ∧ heap st' !! l = Some merged
    ∧ merged = Vocab_init
                 (counter_sum [default ∅ (Demo.counters 2 3 !! "src");
                               default ∅ (Demo.counters 2 3 !! "tgt")])
                 ["<unk>"; "<blank>"; "<s>"; "</s>"] (Some 50000) 0.
Proof.
  destruct (shared_vocabulary_is_merged "<unk>" "<blank>" "<s>" "</s>"
              (Demo.train_files 2 3) Demo.fields 50000 0 50000 0 50000 0
              (Demo.after_datasets 2 3) (Demo.counters 2 3)
              Demo.f_plain Demo.f_tgt Demo.f_plain Demo.f_plain)
    as (fields' & st' & l & merged & Hrun & Hsrc & Htgt & Hl & _ & _ & _ & _ & Hm).
  - exact demo_counted.
  - reflexivity.
  - reflexivity.
  - reflexivity.
  - reflexivity.
  - exists fields', st', l, merged.
    exact (conj Hrun (conj Hsrc (conj Htgt (conj Hl Hm)))).
Defined.

Lemma field_vocabularies_own_limits_witness :
  ∃ fields' st',
    build_vocab "<unk>" "<blank>" "<s>" "</s>" (Demo.train_files 2 3) Demo.fields
      false 50000 0 50000 0 50000 0 (Demo.after_datasets 2 3)
    = (Ok fields', st')
    ∧ field_vocab fields' st' "mask"
      = Some (Vocab_init (default ∅ (Demo.counters 2 3 !! "mask"))
                (field_specials Demo.f_plain) (Some 2) 0)
    ∧ field_vocab fields' st' "tgt"
      = Some (Vocab_init (default ∅ (Demo.counters 2 3 !! "tgt"))
                (field_specials Demo.f_tgt) (Some 50000) 0).
Proof.
  destruct (field_vocabularies_own_limits "<unk>" "<blank>" "<s>" "</s>"
              (Demo.train_files 2 3) Demo.fields 50000 0 50000 0 50000 0
              (Demo.after_datasets 2 3) (Demo.counters 2 3)
              Demo.f_plain Demo.f_tgt Demo.f_plain Demo.f_plain)
    with false
    as (fields' & st' & Hrun & _ & Hmask & Hown).
  - exact demo_counted.
  - reflexivity.
  - reflexivity.
  - reflexivity.
  - reflexivity.
  - exists fields', st'. destruct (Hown eq_refl) as [_ Htgt].
    exact (conj Hrun (conj Hmask Htgt)).
Defined.

(** With a shared vocabulary the vocabulary of [tgt] is not the one built
    from the [tgt] counts with the [tgt] limits, and the vocabulary of
    [mask] leaves out a token that occurs although every configured size
    limit is 50000. *)
Lemma shared_and_mask_vocabularies_differ :
  Demo.shared_run = (Ok Demo.shared_fields, Demo.shared_state)
  ∧ itos <$> field_vocab Demo.shared_fields Demo.shared_state "tgt"
    = Some ["<unk>"; "<blank>"; "<s>"; "</s>"; "a"; "b"; "c"]
  ∧ itos (Vocab_init (default ∅ (Demo.counters 2 3 !! "tgt"))
            (field_specials Demo.f_tgt) (Some 50000) 0)
    = ["<unk>"; "<blank>"; "<s>"; "</s>"; "b"; "c"]
  ∧ field_vocab Demo.shared_fields Demo.shared_state "tgt"
    ≠ Some (Vocab_init (default ∅ (Demo.counters 2 3 !! "tgt"))
              (field_specials Demo.f_tgt) (Some 50000) 0)
  ∧ itos <$> field_vocab Demo.shared_fields Demo.shared_state "mask"
    = Some ["<unk>"; "<blank>"; "1"; "0"]
  ∧ count (default ∅ (Demo.counters 2 3 !! "mask")) "2" = 3%nat.
Proof.
  split; [vm_compute; reflexivity|].
  split; [vm_compute; reflexivity|].
  split; [vm_compute; reflexivity|].
  split; [|split; vm_compute; reflexivity].
  intros H. apply (f_equal (fmap itos)) in H. vm_compute in H. discriminate.
Qed.

Lemma demo_shared_run :
  Demo.shared_run = (Ok Demo.shared_fields, Demo.shared_state).
Proof. vm_compute. reflexivity. Qed.

Lemma vocabularies_persisted_witness :
  ∃ st' v_src,
    build_save_vocab "<unk>" "<blank>" "<s>" "</s>" (Demo.train_files 2 3)
      Demo.fields (Demo.opt 2 true) (Demo.after_datasets 2 3)
    = (Ok (), st')
    ∧ field_vocab Demo.shared_fields Demo.shared_state "src" = Some v_src
    ∧ files st' !! "out/d_src_vocab" = Some (TextFile (vocab_lines (itos v_src))).
Proof.
  destruct (vocabularies_persisted "<unk>" "<blank>" "<s>" "</s>"
              (Demo.train_files 2 3) Demo.fields (Demo.opt 2 true)
              (Demo.after_datasets 2 3) Demo.shared_fields Demo.shared_state)
    as (st' & v_src & v_tgt & v_structure & v_mask & pairs
        & Hrun & Hsrc & _ & _ & _ & _ & _ & _ & Hfile & _).
  - exact demo_shared_run.
  - intros k l H. vm_compute in H. by apply elem_of_nil in H.
  - exists st', v_src. exact (conj Hrun (conj Hsrc Hfile)).
Defined.

Lemma save_fields_to_vocab_read_only_witness :
  save_fields_to_vocab Demo.shared_fields Demo.shared_state
  = (Ok (named_vocabs Demo.shared_fields), Demo.shared_state).
Proof.
  apply (save_fields_to_vocab_read_only Demo.shared_fields Demo.shared_state).
  intros k l H. apply lookup_lt_is_Some.
  assert (Hl : (l < 5)%nat).
  { vm_compute in H.
    repeat (apply elem_of_cons in H as [H|H]; [injection H as -> ->; lia|]).
    by apply elem_of_nil in H. }
  assert (Hlen : length (heap Demo.shared_state) = 5%nat) by (vm_compute; reflexivity).
  by rewrite Hlen.
Defined.

Lemma demo_train :
  build_save_dataset Demo.build_dataset "train" Demo.fields (Demo.opt 2 true)
    (Demo.initial 3)
  = (Ok (Demo.train_files 2 3), Demo.after_train 2 3).
Proof. vm_compute. reflexivity. Qed.

Lemma demo_valid :
  build_save_dataset Demo.build_dataset "valid" Demo.fields (Demo.opt 2 true)
    (Demo.after_train 2 3)
  = (Ok ["out/d_valid.0.pt"], Demo.after_datasets 2 3).
Proof. vm_compute. reflexivity. Qed.

Lemma vocabulary_from_training_shards_only_witness :
  main Demo.build_dataset Demo.fields "<unk>" "<blank>" "<s>" "</s>"
    (Demo.opt 2 true) (Demo.initial 3)
  = build_save_vocab "<unk>" "<blank>" "<s>" "</s>" (Demo.train_files 2 3)
      Demo.fields (Demo.opt 2 true) (Demo.after_datasets 2 3)
  ∧ agree_on (Demo.train_files 2 3) (Demo.after_train 2 3) (Demo.after_datasets 2 3).
Proof.
  destruct (vocabulary_from_training_shards_only Demo.build_dataset Demo.fields
              "<unk>" "<blank>" "<s>" "</s>" (Demo.opt 2 true) (Demo.initial 3)
              (Demo.train_files 2 3) ["out/d_valid.0.pt"]
              (Demo.after_train 2 3) (Demo.after_datasets 2 3))
    as (Hmain & Hagree & _).
  - apply Z.le_refl.
  - exact demo_train.
  - exact demo_valid.
  - exact (conj Hmain Hagree).
Defined.

Lemma shards_listed_and_text_files_removed_witness :
  ∃ st',
    build_save_in_shards_using_shards_size Demo.build_dataset
      "train.src" "train.tgt" "train.structure" "train.mask"
      Demo.fields "train" (Demo.opt 2 false) (Demo.initial 3)
    = (Ok ["out/d_train.0.pt"; "out/d_train.1.pt"], st')
    ∧ files st' !! "train.src.0.txt" = None
    ∧ files st' !! "train.mask.1.txt" = None
    ∧ files st' !! "train.src" = Some (TextFile (replicate 3 Demo.src_line)).
Proof.
  destruct (shards_listed_and_text_files_removed Demo.build_dataset
              "train.src" "train.tgt" "train.structure" "train.mask"
              Demo.fields "train" (Demo.opt 2 false) (Demo.initial 3)
              (replicate 3 Demo.src_line) (replicate 3 Demo.tgt_line)
              (replicate 3 Demo.structure_line) (replicate 3 Demo.mask_line))
    as [Hsharded _]; [reflexivity..|].
  destruct Hsharded as (st' & Hrun & _ & _ & Hgone & Hframe).
  - reflexivity.
  - change (Forall well_sized
              (replicate 3 (Demo.src_line, Demo.tgt_line,
                            Demo.structure_line, Demo.mask_line))).
    apply Forall_replicate, demo_row_well_sized.
  - intros c Hc.
    repeat (apply elem_of_cons in Hc as [->|Hc]; [vm_compute; reflexivity|]).
    by apply elem_of_nil in Hc.
  - apply (bool_decide_unpack _). vm_compute. exact I.
  - intros c c' x Hc Hc' Hne.
    repeat (apply elem_of_cons in Hc as [->|Hc]);
      try (by apply elem_of_nil in Hc);
      repeat (apply elem_of_cons in Hc' as [->|Hc']);
      try (by apply elem_of_nil in Hc');
      try done; vm_compute; reflexivity.
  - exists st'. split; [exact Hrun|]. split; [|split].
    + apply (Hgone "train.src" 0%nat); [by left|vm_compute; lia].
    + apply (Hgone "train.mask" 1%nat); [do 3 right; by left|vm_compute; lia].
    + rewrite Hframe; [reflexivity|].
      intros i _. vm_compute. discriminate.
Defined.

(** A text file left behind by someone else makes the function return
    normally while a text shard it has written itself is still there. *)
Lemma stale_text_file_leaves_shard_behind :
  let run :=
    build_save_in_shards_using_shards_size Demo.build_dataset
      "train.src" "train.tgt" "train.structure" "train.mask"
      Demo.fields "train" (Demo.opt 1 false) Demo.with_stale_file in
  run.1 = Ok ["out/d_train.0.pt"; "out/d_train.1.pt"]
  ∧ files Demo.with_stale_file !! "train.tgt.1.txt" = None
  ∧ files run.2 !! "train.tgt.1.txt" = Some (TextFile [Demo.tgt_line])
  ∧ files Demo.with_stale_file !! "train.tgt.00.txt"
    = Some (TextFile ["old" +:+ Demo.nl])
  ∧ files run.2 !! "train.tgt.00.txt" = None.
Proof. vm_compute. done. Qed.

(** * Further properties of the code *)

(** ** The dataset files of a dataset-building step *)

Lemma write_file_inv path f st u st' :
  write_file path f st = (Ok u, st') → st' = set_files <[path := f]> st.
Proof. unfold write_file. by intros [= _ <-]. Qed.

Lemma os_remove_inv path st u st' :
  os_remove path st = (Ok u, st') → st' = set_files (delete path) st.
Proof.
  unfold os_remove. destruct (files st !! path); [|done]. by intros [= _ <-].
Qed.

Lemma list_index_inv {A} (l : list A) i st a st' :
  list_index l i st = (Ok a, st') → l !! i = Some a ∧ st' = st.
Proof.
  unfold list_index. destruct (l !! i); [|done].
  by intros [-> ->]%ret_inv_ok.
Qed.

Lemma read_lines_inv path st ls st' :
  read_lines path st = (Ok ls, st') →
  files st !! path = Some (TextFile ls) ∧ st' = st.
Proof.
  unfold read_lines. destruct (files st !! path) as [[]|]; try done.
  by intros [= <- <-].
Qed.

Lemma saved_dataset_insert st p q d :
  ds_fields d = [] → saved_dataset st p →
  saved_dataset (set_files <[q := DatasetFile d]> st) p.
Proof.
  intros Hd (d' & Hp & Hd'). unfold saved_dataset. simpl.
  destruct (decide (q = p)) as [->|Hne].
  - exists d. by rewrite lookup_insert_eq.
  - exists d'. by rewrite lookup_insert_ne.
Qed.

Lemma saved_dataset_delete st p q :
  ends_txt q → ¬ ends_txt p → saved_dataset st p →
  saved_dataset (set_files (delete q) st) p.
Proof.
  intros Hq Hp (d & Hd & Hf). exists d. split; [|done]. simpl.
  rewrite lookup_delete_ne; [done|]. by intros ->.
Qed.

Lemma build_shards_saved build_dataset src_list tgt_list structure_list mask_list
    fields corpus_type opt ret_list st ret st' :
  Forall ends_txt src_list.*2 → Forall ends_txt tgt_list →
  Forall ends_txt structure_list → Forall ends_txt mask_list →
  (∀ p, p ∈ ret_list → ¬ ends_txt p ∧ saved_dataset st p) →
  build_shards build_dataset src_list tgt_list structure_list mask_list
    fields corpus_type opt ret_list st = (Ok ret, st') →
  ∀ p, p ∈ ret → ¬ ends_txt p ∧ saved_dataset st' p.
Proof.
  intros Hsrc Htgt Hstructure Hmask. revert ret_list st.
  assert (Hidx : ∀ (l : list string) i a, Forall ends_txt l → l !! i = Some a → ends_txt a).
  { intros l i a Hl Hi. eapply Forall_forall; [done|]. by eapply list_elem_of_lookup_2. }
  induction src_list as [|[index src] src_list IH]; intros ret_list st Hinv H.
  - apply ret_inv_ok in H as [-> ->]. done.
  - apply Forall_cons in Hsrc as [Hsrc0 Hsrc]. simpl in Hsrc0, H.
    unfold make_text_iterator_from_file in H.
    apply bind_inv_ok in H as (src_iter & ? & [_ ->]%read_lines_inv & H).
    apply bind_inv_ok in H as (tgt & ? & [Ht ->]%list_index_inv & H).
    apply bind_inv_ok in H as (tgt_iter & ? & [_ ->]%read_lines_inv & H).
    apply bind_inv_ok in H as (structure & ? & [Hs ->]%list_index_inv & H).
    apply bind_inv_ok in H as (structure_iter & ? & [_ ->]%read_lines_inv & H).
    apply bind_inv_ok in H as (mask & ? & [Hm ->]%list_index_inv & H).
    apply bind_inv_ok in H as (mask_iter & ? & [_ ->]%read_lines_inv & H).
    apply bind_inv_ok in H as (? & ? & ->%write_file_inv & H).
    apply bind_inv_ok in H as (? & ? & ->%os_remove_inv & H).
    apply bind_inv_ok in H as (? & ? & ->%os_remove_inv & H).
    apply bind_inv_ok in H as (? & ? & ->%os_remove_inv & H).
    apply bind_inv_ok in H as (? & ? & ->%os_remove_inv & H).
    eapply IH; [done| |exact H].
    intros p Hp.
    assert (Hnew : ¬ ends_txt p
                   ∧ saved_dataset
                       (set_files
                          <[shard_pt (save_data opt) corpus_type (Z.of_nat index) :=
                              DatasetFile
                                (mkDataset
                                   (examples
                                      (build_dataset fields src_iter tgt_iter
                                         structure_iter mask_iter
                                         (src_seq_length opt) (tgt_seq_length opt)
                                         (src_seq_length_trunc opt)
                                         (tgt_seq_length_trunc opt))) [])]> st) p).
    { apply elem_of_app in Hp as [Hp| ->%list_elem_of_singleton].
      - destruct (Hinv p Hp) as [? ?]. split; [done|].
        by apply saved_dataset_insert.
      - split; [apply shard_pt_not_txt|].
        eexists. split; [apply lookup_insert_eq|done]. }
    destruct Hnew as [Hp_txt Hnew]. split; [done|].
    repeat (apply saved_dataset_delete; [by eauto|done|]). done.
Qed.

Lemma build_save_dataset_saved build_dataset corpus_type fields opt st ret st' :
  build_save_dataset build_dataset corpus_type fields opt st = (Ok ret, st') →
  ∀ p, p ∈ ret → saved_dataset st' p.
Proof.
  unfold build_save_dataset. intros H.
  apply bind_inv_ok in H as (_ & ? & _ & H).
  destruct (if bool_decide (corpus_type = "train") then _ else _)
    as [[[src_corpus tgt_corpus] structure_corpus] mask_corpus].
  case_bool_decide.
  - unfold build_save_in_shards_using_shards_size in H.
    apply bind_inv_ok in H as (d & ? & _ & H).
    apply bind_inv_ok in H as (? & ? & _ & H).
    apply bind_inv_ok in H as (? & ? & _ & H).
    apply bind_inv_ok in H as (src_list & ? & H1 & H).
    pose proof (read_only_run _ _ _ _ (read_only_sorted_glob _) H1) as ->.
    apply bind_inv_ok in H as (tgt_list & ? & H2 & H).
    pose proof (read_only_run _ _ _ _ (read_only_sorted_glob _) H2) as ->.
    apply bind_inv_ok in H as (structure_list & ? & H3 & H).
    pose proof (read_only_run _ _ _ _ (read_only_sorted_glob _) H3) as ->.
    apply bind_inv_ok in H as (mask_list & ? & H4 & H).
    pose proof (read_only_run _ _ _ _ (read_only_sorted_glob _) H4) as ->.
    intros p Hp.
    eapply build_shards_saved in H; [by apply H| | | | |by intros ? ?%elem_of_nil|exact Hp].
    + rewrite enumerate_snd. by eapply sorted_glob_ends_txt.
    + by eapply sorted_glob_ends_txt.
    + by eapply sorted_glob_ends_txt.
    + by eapply sorted_glob_ends_txt.
  - unfold make_text_iterator_from_file in H.
    apply bind_inv_ok in H as (? & ? & [_ ->]%read_lines_inv & H).
    apply bind_inv_ok in H as (? & ? & [_ ->]%read_lines_inv & H).
    apply bind_inv_ok in H as (? & ? & [_ ->]%read_lines_inv & H).
    apply bind_inv_ok in H as (? & ? & [_ ->]%read_lines_inv & H).
    apply bind_inv_ok in H as (? & ? & ->%write_file_inv & H).
    apply ret_inv_ok in H as [-> ->].
    intros p ->%list_elem_of_singleton. eexists. split; [apply lookup_insert_eq|done].
Qed.

(** X1. Every path returned by [build_save_dataset] names a dataset file
    that exists when the function returns, and the [fields] attribute of the
    dataset saved there is the empty list; no path is returned twice.  This
    holds in both modes and whatever other files are around. *)
Theorem returned_paths_are_saved_datasets build_dataset corpus_type fields opt
    st ret st' :
  build_save_dataset build_dataset corpus_type fields opt st = (Ok ret, st') →
  NoDup ret
  ∧ ∀ p, p ∈ ret → ∃ d, files st' !! p = Some (DatasetFile d) ∧ ds_fields d = [].
Proof.
  intros Hrun. split; [|by eapply build_save_dataset_saved].
  unfold build_save_dataset in Hrun.
  apply bind_inv_ok in Hrun as (_ & ? & _ & H).
  destruct (if bool_decide (corpus_type = "train") then _ else _)
    as [[[src_corpus tgt_corpus] structure_corpus] mask_corpus].
  case_bool_decide.
  - unfold build_save_in_shards_using_shards_size in H.
    repeat (apply bind_inv_ok in H as (? & ? & _ & H)).
    apply build_shards_ret in H as ->. simpl.
    match goal with |- NoDup (_ <$> enumerate ?l) =>
      replace (_ <$> enumerate l)
        with ((λ i : nat, shard_pt (save_data opt) corpus_type (Z.of_nat i))
                <$> seq 0 (length l))
    end.
    + apply NoDup_fmap_2_strong; [|apply NoDup_seq].
      intros i j _ _ Heq%shard_pt_inj. lia.
    + rewrite <-imap_seq_0. unfold enumerate. by rewrite fmap_imap.
  - repeat (apply bind_inv_ok in H as (? & ? & _ & H)).
    apply ret_inv_ok in H as [-> _]. apply NoDup_singleton.
Qed.

(** X2. [build_save_dataset] leaves the vocabulary objects alone and,
    whatever its outcome, changes no file other than files with the
    extension [.txt] and its own dataset files
    [save_data_corpus_type.index.pt] and [save_data_corpus_type.pt]
    (the log apart, which is not modelled). *)
Theorem build_save_dataset_leaves_other_files build_dataset corpus_type fields opt
    st o st' :
  build_save_dataset build_dataset corpus_type fields opt st = (o, st') →
  heap st' = heap st
  ∧ ∀ p, ¬ ends_txt p →
         (∀ i, p ≠ shard_pt (save_data opt) corpus_type i) →
         p ≠ mono_pt (save_data opt) corpus_type →
         files st' !! p = files st !! p.
Proof.
  intros H.
  destruct (frames_build_save_dataset _ _ _ _ _ _ _ H) as [Hheap Hframe].
  split; [done|]. intros p Htxt Hshard Hmono. apply Hframe.
  intros [?|[[i ->]| ->]]; [done|by eapply Hshard|done].
Qed.

Lemma read_lines_missing path st :
  files st !! path = None → read_lines path st = (Raise (FileNotFoundError path), st).
Proof. intros H. unfold read_lines. by rewrite H. Qed.

(** X3. When one of the four corpora does not exist while the corpora
    opened before it (in the order src, tgt, structure, mask) are text
    files, [build_save_in_shards_using_shards_size] raises
    [FileNotFoundError] for that corpus and the state is as it was: nothing
    has been written. *)
Theorem missing_corpus_raises_before_output build_dataset
    (src_corpus tgt_corpus structure_corpus mask_corpus : string)
    (fields : fields_t) (corpus_type : string) (opt : options) (st : state)
    (i : nat) (q : string) :
  let paths := [src_corpus; tgt_corpus; structure_corpus; mask_corpus] in
  paths !! i = Some q →
  files st !! q = None →
  (∀ j q', (j < i)%nat → paths !! j = Some q' →
     ∃ ls, files st !! q' = Some (TextFile ls)) →
  build_save_in_shards_using_shards_size build_dataset
    src_corpus tgt_corpus structure_corpus mask_corpus fields corpus_type opt st
  = (Raise (FileNotFoundError q), st).
Proof.
  intros paths Hi Hq Hbefore.
  unfold build_save_in_shards_using_shards_size, read_corpora.
  apply bind_raise.
  destruct i as [|i].
  { injection Hi as ->. apply bind_raise. by apply read_lines_missing. }
  destruct (Hbefore 0%nat src_corpus) as [ls1 H1]; [lia|done|].
  erewrite bind_ok by (by apply read_lines_run).
  destruct i as [|i].
  { injection Hi as ->. apply bind_raise. by apply read_lines_missing. }
  destruct (Hbefore 1%nat tgt_corpus) as [ls2 H2]; [lia|done|].
  erewrite bind_ok by (by apply read_lines_run).
  destruct i as [|i].
  { injection Hi as ->. apply bind_raise. by apply read_lines_missing. }
  destruct (Hbefore 2%nat structure_corpus) as [ls3 H3]; [lia|done|].
  erewrite bind_ok by (by apply read_lines_run).
  destruct i as [|i]; [|done].
  injection Hi as ->. apply bind_raise. by apply read_lines_missing.
Qed.

Lemma dataset_error_read_lines path : raises_only dataset_error (read_lines path).
Proof.
  intros st e st'. unfold read_lines.
  destruct (files st !! path) as [[]|]; intros ?; by simplify_eq.
Qed.

Lemma dataset_error_build_shards build_dataset src_list tgt_list structure_list
    mask_list fields corpus_type opt ret_list :
  raises_only dataset_error
    (build_shards build_dataset src_list tgt_list structure_list mask_list
       fields corpus_type opt ret_list).
Proof.
  assert (Hrm : ∀ p, raises_only dataset_error (os_remove p)).
  { intros p st e st'. unfold os_remove.
    destruct (files st !! p); intros ?; by simplify_eq. }
  assert (Hidx : ∀ (l : list string) i, raises_only dataset_error (list_index l i)).
  { intros l i st e st'. unfold list_index.
    destruct (l !! i); unfold mret, M_ret, raise; intros ?; by simplify_eq. }
  revert ret_list. induction src_list as [|[index src] src_list IH]; intros ret_list.
  - apply raises_only_ret.
  - simpl.
    repeat first
      [ apply IH
      | apply dataset_error_read_lines
      | apply Hidx
      | apply Hrm
      | by intros ????
      | apply raises_only_bind; [|intros ?] ].
Qed.

Lemma dataset_error_read_corpora src_corpus tgt_corpus structure_corpus mask_corpus :
  raises_only dataset_error
    (read_corpora src_corpus tgt_corpus structure_corpus mask_corpus).
Proof.
  unfold read_corpora.
  repeat (apply raises_only_bind; [apply dataset_error_read_lines|intros ?]).
  intros st e st'. rewrite read_loop_run. case_decide; intros ?; by simplify_eq.
Qed.

(** X4. [build_save_dataset] raises nothing but an [AssertionError]
    without message, [FileNotFoundError], [UnicodeDecodeError] or
    [IndexError]: the division by [shard_size] cannot fail, since the
    sharded branch is entered for a positive [shard_size] only, and the
    length check after the reading loop never raises. *)
Theorem build_save_dataset_exceptions build_dataset corpus_type fields opt :
  raises_only dataset_error (build_save_dataset build_dataset corpus_type fields opt).
Proof.
  unfold build_save_dataset. apply raises_only_bind.
  { intros st e st'. unfold assert.
    destruct (bool_decide _); unfold mret, M_ret, raise; intros ?; by simplify_eq. }
  intros _.
  destruct (if bool_decide (corpus_type = "train") then _ else _)
    as [[[src_corpus tgt_corpus] structure_corpus] mask_corpus].
  case_bool_decide as Hsize.
  - intros st e st'. unfold build_save_in_shards_using_shards_size.
    destruct (read_corpora src_corpus tgt_corpus structure_corpus mask_corpus st)
      as [[d|e'] st1] eqn:E.
    + erewrite bind_ok by done.
      apply read_corpora_inv in E as [-> [rows ->]].
      erewrite bind_ok by apply check_lengths_rows.
      revert st e st'. apply raises_only_bind.
      { unfold split_shards. apply raises_only_bind.
        - unfold int_div. rewrite (proj2 (Z.eqb_neq _ _)) by lia.
          apply raises_only_ret.
        - intros n. apply raises_only_bind.
          + apply raises_only_for_each. intros x. cbv beta. by intros st0 e0 st0' ?.
          + intros _. case_bool_decide; [by intros ????|apply raises_only_ret]. }
      intros _.
      do 4 (apply raises_only_bind; [by intros ????|intros ?]).
      apply dataset_error_build_shards.
    + erewrite bind_raise by done. intros ?; simplify_eq.
      by eapply dataset_error_read_corpora.
  - unfold make_text_iterator_from_file.
    repeat (apply raises_only_bind; [apply dataset_error_read_lines|intros ?]).
    apply raises_only_bind; [by intros ????|intros ?; apply raises_only_ret].
Qed.

Lemma zip4_nil {A} (a b c d : list A) :
  [] ∈ [a; b; c; d] → zip4 a b c d = [].
Proof.
  unfold zip4. intros H.
  repeat (apply elem_of_cons in H as [<-|H]); [| | | |by apply elem_of_nil in H].
  - done.
  - by destruct a.
  - destruct (zip a b); done.
  - destruct (zip (zip a b) c); done.
Qed.

(** X5. When one of the four corpora has no line (and no file matches
    the pattern of the source corpus), the sharded function writes nothing
    at all: it returns the empty list and the state is as it was. *)
Theorem empty_corpus_gives_no_shard build_dataset
    (src_corpus tgt_corpus structure_corpus mask_corpus : string)
    (fields : fields_t) (corpus_type : string) (opt : options) (st : state)
    (src_file tgt_file structure_file mask_file : list string) :
  shard_size opt ≠ 0 →
  files st !! src_corpus = Some (TextFile src_file) →
  files st !! tgt_corpus = Some (TextFile tgt_file) →
  files st !! structure_corpus = Some (TextFile structure_file) →
  files st !! mask_corpus = Some (TextFile mask_file) →
  [] ∈ [src_file; tgt_file; structure_file; mask_file] →
  sorted_glob src_corpus st = (Ok [], st) →
  build_save_in_shards_using_shards_size build_dataset
    src_corpus tgt_corpus structure_corpus mask_corpus fields corpus_type opt st
  = (Ok [], st).
Proof.
  intros Hsize H1 H2 H3 H4 Hempty Hglob.
  unfold build_save_in_shards_using_shards_size.
  erewrite bind_ok; cycle 1.
  { rewrite (read_corpora_run _ _ _ _ _ _ _ _ _ H1 H2 H3 H4).
    rewrite zip4_nil by done. by rewrite decide_True by constructor. }
  erewrite bind_ok by apply check_lengths_rows.
  erewrite bind_ok; cycle 1.
  { unfold split_shards, int_div. rewrite (proj2 (Z.eqb_neq _ _)) by done.
    cbn. by destruct st. }
  erewrite bind_ok by exact Hglob.
  destruct (sorted_glob tgt_corpus st) as [o2 st2] eqn:E2.
  assert (∃ l, o2 = Ok l ∧ st2 = st) as (l2 & -> & ->).
  { unfold sorted_glob in E2. injection E2 as <- <-. eauto. }
  erewrite bind_ok by exact E2.
  destruct (sorted_glob structure_corpus st) as [o3 st3] eqn:E3.
  assert (∃ l, o3 = Ok l ∧ st3 = st) as (l3 & -> & ->).
  { unfold sorted_glob in E3. injection E3 as <- <-. eauto. }
  erewrite bind_ok by exact E3.
  destruct (sorted_glob mask_corpus st) as [o4 st4] eqn:E4.
  assert (∃ l, o4 = Ok l ∧ st4 = st) as (l4 & -> & ->).
  { unfold sorted_glob in E4. injection E4 as <- <-. eauto. }
  erewrite bind_ok by exact E4.
  done.
Qed.

(** ** The order of the shard names *)

Lemma string_compare_app (p a b : string) :
  String.compare (p +:+ a) (p +:+ b) = String.compare a b.
Proof.
  induction p as [|c p IH]; [done|].
  rewrite !string_app_cons. simpl.
  unfold Ascii.compare. by rewrite N.compare_refl.
Qed.

Lemma string_le_lt (a b : string) : String.compare a b = Lt → String.le a b.
Proof. unfold String.le, String.leb. by intros ->. Qed.

Lemma pretty_N_go_app (x : N) (s : string) :
  pretty_N_go x s = pretty_N_go x "" +:+ s.
Proof.
  revert s. induction (N.lt_wf_0 x) as [x _ IH]; intros s.
  destruct (decide (x = 0)%N) as [->|Hx].
  { by rewrite !pretty_N_go_0. }
  assert (Hlt : (x `div` 10 < x)%N) by (apply N.div_lt; lia).
  rewrite !(pretty_N_go_step x) by lia.
  rewrite (IH _ Hlt (String _ s)), (IH _ Hlt (String _ "")).
  by rewrite string_app_assoc.
Qed.

Lemma pretty_of_nat (y : nat) :
  (0 < y)%nat → pretty (Z.of_nat y) = pretty_N_go (N.of_nat y) "".
Proof.
  intros Hy. destruct y as [|y]; [lia|]. done.
Qed.

(** The decimal numerals that come after ["0"], ["1"] and ["10"] in the
    order of the names. *)
Lemma pretty_after_0 (x : N) (s : string) :
  (1 ≤ x)%N → String.compare "0.txt" (pretty_N_go x s) = Lt.
Proof.
  revert s. induction (N.lt_wf_0 x) as [x _ IH]; intros s Hx.
  rewrite pretty_N_go_step by lia.
  pose proof (N.div_mod x 10 ltac:(done)) as Hdm.
  pose proof (N.mod_lt x 10 ltac:(done)) as Hr.
  assert (Hlt : ∀ q, q = (x `div` 10)%N → q ≠ 0%N → (q < x)%N)
    by (intros q -> ?; apply N.div_lt; lia).
  remember (x `div` 10)%N as q eqn:Hq_def.
  remember (x `mod` 10)%N as r eqn:Hr_def.
  specialize (Hlt q eq_refl). clear Hq_def Hr_def.
  destruct (decide (q = 0)%N) as [Hq|Hq].
  - rewrite Hq, pretty_N_go_0.
    assert (1 ≤ r < 10)%N as Hr' by lia.
    unfold pretty_N_char. repeat case_match; first [lia | done].
  - apply IH; [apply Hlt; lia|lia].
Qed.

Lemma pretty_after_1 (x : N) (s : string) :
  (2 ≤ x)%N → String.compare "1.txt" (pretty_N_go x s) = Lt.
Proof.
  revert s. induction (N.lt_wf_0 x) as [x _ IH]; intros s Hx.
  rewrite pretty_N_go_step by lia.
  pose proof (N.div_mod x 10 ltac:(done)) as Hdm.
  pose proof (N.mod_lt x 10 ltac:(done)) as Hr.
  assert (Hlt : ∀ q, q = (x `div` 10)%N → q ≠ 0%N → (q < x)%N)
    by (intros q -> ?; apply N.div_lt; lia).
  remember (x `div` 10)%N as q eqn:Hq_def.
  remember (x `mod` 10)%N as r eqn:Hr_def.
  specialize (Hlt q eq_refl). clear Hq_def Hr_def.
  destruct (decide (q = 0)%N) as [Hq|Hq];
    [|destruct (decide (q = 1)%N) as [Hq1|Hq1]].
  - rewrite Hq, pretty_N_go_0.
    assert (2 ≤ r < 10)%N as Hr' by lia.
    unfold pretty_N_char. repeat case_match; first [lia | done].
  - rewrite Hq1, (pretty_N_go_step 1) by lia.
    change (1 `div` 10)%N with 0%N. rewrite pretty_N_go_0.
    change (pretty_N_char (1 `mod` 10)) with "1"%char.
    unfold pretty_N_char. repeat case_match; first [lia | done].
  - apply IH; [apply Hlt; lia|lia].
Qed.

Lemma pretty_after_10 (x : N) (s : string) :
  (2 ≤ x)%N → x ≠ 10%N → String.compare "10.txt" (pretty_N_go x s) = Lt.
Proof.
  revert s. induction (N.lt_wf_0 x) as [x _ IH]; intros s Hx Hne.
  rewrite pretty_N_go_step by lia.
  pose proof (N.div_mod x 10 ltac:(done)) as Hdm.
  pose proof (N.mod_lt x 10 ltac:(done)) as Hr.
  assert (Hlt : ∀ q, q = (x `div` 10)%N → q ≠ 0%N → (q < x)%N)
    by (intros q -> ?; apply N.div_lt; lia).
  remember (x `div` 10)%N as q eqn:Hq_def.
  remember (x `mod` 10)%N as r eqn:Hr_def.
  specialize (Hlt q eq_refl). clear Hq_def Hr_def.
  destruct (decide (q = 0)%N) as [Hq|Hq];
    [|destruct (decide (q = 1)%N) as [Hq1|Hq1];
      [|destruct (decide (q = 10)%N) as [Hq10|Hq10]]].
  - rewrite Hq, pretty_N_go_0.
    assert (2 ≤ r < 10)%N as Hr' by lia.
    unfold pretty_N_char. repeat case_match; first [lia | done].
  - rewrite Hq1, (pretty_N_go_step 1) by lia.
    change (1 `div` 10)%N with 0%N. rewrite pretty_N_go_0.
    change (pretty_N_char (1 `mod` 10)) with "1"%char.
    assert (1 ≤ r < 10)%N as Hr' by lia.
    unfold pretty_N_char. repeat case_match; first [lia | done].
  - rewrite Hq10, (pretty_N_go_step 10) by lia.
    change (10 `div` 10)%N with 1%N.
    change (pretty_N_char (10 `mod` 10)) with "0"%char.
    rewrite (pretty_N_go_step 1) by lia.
    change (1 `div` 10)%N with 0%N. rewrite pretty_N_go_0.
    change (pretty_N_char (1 `mod` 10)) with "1"%char.
    unfold pretty_N_char. repeat case_match; first [lia | done].
  - apply IH; [apply Hlt; lia|lia|done].
Qed.

Lemma shard_txt_le (corpus : string) (x y : nat) :
  String.compare (pretty (Z.of_nat x) +:+ ".txt") (pretty (Z.of_nat y) +:+ ".txt") = Lt →
  String.le (shard_txt corpus (Z.of_nat x)) (shard_txt corpus (Z.of_nat y)).
Proof.
  intros H. apply string_le_lt. unfold shard_txt.
  by rewrite !string_compare_app.
Qed.

Lemma shard_txt_after (corpus : string) (y : nat) :
  String.le (shard_txt corpus 0) (shard_txt corpus (Z.of_nat y))
  ∧ ((1 ≤ y)%nat →
     String.le (shard_txt corpus 1) (shard_txt corpus (Z.of_nat y)))
  ∧ ((2 ≤ y)%nat →
     String.le (shard_txt corpus 10) (shard_txt corpus (Z.of_nat y))).
Proof.
  assert (Hgo : (0 < y)%nat →
            pretty (Z.of_nat y) +:+ ".txt" = pretty_N_go (N.of_nat y) ".txt").
  { intros Hy. by rewrite pretty_of_nat, <-pretty_N_go_app. }
  split; [|split].
  - destruct (decide (y = 0)%nat) as [->|Hy]; [done|].
    apply (shard_txt_le corpus 0). rewrite Hgo by lia.
    apply pretty_after_0. lia.
  - intros H1. destruct (decide (y = 1)%nat) as [->|Hy]; [done|].
    apply (shard_txt_le corpus 1). rewrite Hgo by lia.
    apply pretty_after_1. lia.
  - intros H2. destruct (decide (y = 10)%nat) as [->|Hy]; [done|].
    apply (shard_txt_le corpus 10). rewrite Hgo by lia.
    apply pretty_after_10; lia.
Qed.

Lemma sorted_head {A} (R : relation A) `{!AntiSymm (=) R} (l : list A) (m : A) :
  StronglySorted R l → m ∈ l → (∀ y, y ∈ l → R m y) → ∃ l', l = m :: l'.
Proof.
  intros Hsorted Hm Hmin. destruct l as [|x l']; [by apply elem_of_nil in Hm|].
  apply StronglySorted_cons in Hsorted as [Hx _].
  apply elem_of_cons in Hm as [->|Hm]; [eauto|].
  assert (m = x) as ->; [|eauto].
  apply (anti_symm R); [apply Hmin; left|].
  by eapply Forall_forall.
Qed.

(** With more than ten shards, the third name in the order of the names is
    the name of shard 10. *)
Lemma sorted_names_third (corpus : string) (n : nat) (l : list string) :
  (10 < n)%nat →
  StronglySorted String.le l →
  l ≡ₚ shard_txt corpus <$> (Z.of_nat <$> seq 0 n) →
  l !! 2%nat = Some (shard_txt corpus 10).
Proof.
  intros Hn Hsorted Hperm.
  assert (Hin : ∀ p, p ∈ l ↔ ∃ x : nat, (x < n)%nat ∧ p = shard_txt corpus (Z.of_nat x)).
  { intros p. rewrite Hperm, list_elem_of_fmap. split.
    - intros (z & -> & (x & -> & Hx%elem_of_seq)%list_elem_of_fmap).
      exists x. split; [lia|done].
    - intros (x & Hx & ->). exists (Z.of_nat x). split; [done|].
      apply list_elem_of_fmap. exists x. split; [done|]. apply elem_of_seq. lia. }
  assert (Hnd : NoDup l).
  { rewrite Hperm. apply NoDup_fmap; [apply shard_txt_inj|].
    apply NoDup_fmap; [intros ???; lia|]. apply NoDup_seq. }
  assert (Hname : ∀ x y : nat,
            shard_txt corpus (Z.of_nat x) = shard_txt corpus (Z.of_nat y) → x = y).
  { intros x y Heq%shard_txt_inj. lia. }
  destruct (sorted_head String.le l (shard_txt corpus 0)) as [l1 ->]; [done| | |].
  { apply Hin. exists 0%nat. split; [lia|done]. }
  { intros p (y & _ & ->)%Hin. apply shard_txt_after. }
  apply StronglySorted_cons in Hsorted as [_ Hsorted].
  apply NoDup_cons in Hnd as [Hnot0 Hnd].
  assert (Hin1 : ∀ p, p ∈ l1 ↔
            ∃ x : nat, (1 ≤ x < n)%nat ∧ p = shard_txt corpus (Z.of_nat x)).
  { intros p. split.
    - intros Hp. destruct (proj1 (Hin p)) as (x & Hx & ->); [by right|].
      exists x. split; [|done]. destruct x; [done|lia].
    - intros (x & Hx & ->).
      assert (Hx0 : shard_txt corpus (Z.of_nat x) ∈ shard_txt corpus 0 :: l1).
      { apply Hin. exists x. split; [lia|done]. }
      apply elem_of_cons in Hx0 as [Heq|?]; [|done].
      apply (Hname x 0%nat) in Heq. lia. }
  destruct (sorted_head String.le l1 (shard_txt corpus 1)) as [l2 ->]; [done| | |].
  { apply Hin1. exists 1%nat. split; [lia|done]. }
  { intros p (y & Hy & ->)%Hin1. apply shard_txt_after. lia. }
  apply StronglySorted_cons in Hsorted as [_ Hsorted].
  apply NoDup_cons in Hnd as [Hnot1 Hnd].
  assert (Hin2 : ∀ p, p ∈ l2 ↔
            ∃ x : nat, (2 ≤ x < n)%nat ∧ p = shard_txt corpus (Z.of_nat x)).
  { intros p. split.
    - intros Hp. destruct (proj1 (Hin1 p)) as (x & Hx & ->); [by right|].
      exists x. split; [|done].
      destruct (decide (x = 1)%nat) as [->|]; [done|lia].
    - intros (x & Hx & ->).
      assert (Hx1 : shard_txt corpus (Z.of_nat x) ∈ shard_txt corpus 1 :: l2).
      { apply Hin1. exists x. split; [lia|done]. }
      apply elem_of_cons in Hx1 as [Heq|?]; [|done].
      apply (Hname x 1%nat) in Heq. lia. }
  destruct (sorted_head String.le l2 (shard_txt corpus 10)) as [l3 ->]; [done| | |].
  { apply Hin2. exists 10%nat. split; [lia|done]. }
  { intros p (y & Hy & ->)%Hin2. apply shard_txt_after. lia. }
  done.
Qed.

(** ** The contents of the text shards and of the dataset files *)

Lemma shard_txt_independent (paths : list string) (c c' : string) (x x' : nat) :
  (∀ c c' (x : nat), c ∈ paths → c' ∈ paths → c ≠ c' →
     glob_match c' (shard_txt c (Z.of_nat x)) = false) →
  c ∈ paths → c' ∈ paths →
  shard_txt c (Z.of_nat x) = shard_txt c' (Z.of_nat x') → c = c' ∧ x = x'.
Proof.
  intros Hindep Hc Hc' Heq.
  destruct (decide (c = c')) as [->|Hne].
  - split; [done|]. apply shard_txt_inj in Heq. lia.
  - pose proof (glob_match_shard_txt c' (Z.of_nat x')) as Htrue.
    rewrite <-Heq, (Hindep c c' x) in Htrue by done. done.
Qed.

Lemma split_files_content (src_corpus tgt_corpus structure_corpus mask_corpus : string)
    (chunks : nat → corpora) (fs : gmap string file) (n x : nat) :
  let paths := [src_corpus; tgt_corpus; structure_corpus; mask_corpus] in
  let fs' := foldl (λ fs x, store_shard src_corpus tgt_corpus structure_corpus
                              mask_corpus x (chunks x) fs) fs (seq 0 n) in
  NoDup paths →
  (∀ c c' (x : nat), c ∈ paths → c' ∈ paths → c ≠ c' →
     glob_match c' (shard_txt c (Z.of_nat x)) = false) →
  (x < n)%nat →
  fs' !! shard_txt src_corpus (Z.of_nat x) = Some (TextFile (src_data (chunks x)))
  ∧ fs' !! shard_txt tgt_corpus (Z.of_nat x) = Some (TextFile (tgt_data (chunks x)))
  ∧ fs' !! shard_txt structure_corpus (Z.of_nat x)
    = Some (TextFile (structure_data (chunks x)))
  ∧ fs' !! shard_txt mask_corpus (Z.of_nat x) = Some (TextFile (mask_data (chunks x))).
Proof.
  intros paths fs' Hnodup Hindep. unfold fs'. clear fs'.
  assert (Hsrc : src_corpus ∈ paths) by left.
  assert (Htgt : tgt_corpus ∈ paths) by (right; left).
  assert (Hstructure : structure_corpus ∈ paths) by (do 2 right; left).
  assert (Hmask : mask_corpus ∈ paths) by (do 3 right; left).
  assert (Hne : ∀ c c' (y y' : nat), c ∈ paths → c' ∈ paths → c ≠ c' ∨ y ≠ y' →
            shard_txt c (Z.of_nat y) ≠ shard_txt c' (Z.of_nat y')).
  { intros c c' y y' Hc Hc' Hor Heq.
    destruct (shard_txt_independent paths c c' y y' Hindep Hc Hc' Heq). tauto. }
  unfold paths in Hnodup.
  apply NoDup_cons in Hnodup as [H1 Hnodup]. apply NoDup_cons in Hnodup as [H2 Hnodup].
  apply NoDup_cons in Hnodup as [H3 _].
  assert (src_corpus ≠ tgt_corpus ∧ src_corpus ≠ structure_corpus
          ∧ src_corpus ≠ mask_corpus ∧ tgt_corpus ≠ structure_corpus
          ∧ tgt_corpus ≠ mask_corpus ∧ structure_corpus ≠ mask_corpus)
    as (?&?&?&?&?&?).
  { repeat split; intros ->.
    - apply H1. by left.
    - apply H1. right. by left.
    - apply H1. do 2 right. by left.
    - apply H2. by left.
    - apply H2. right. by left.
    - apply H3. by left. }
  induction n as [|n IH]; intros Hx; [lia|].
  rewrite seq_S, foldl_app. cbn [foldl]. change (0 + n)%nat with n.
  destruct (decide (x = n)) as [->|Hxn].
  - unfold store_shard.
    repeat split;
      rewrite ?lookup_insert_eq,
              ?(lookup_insert_ne _ (shard_txt mask_corpus _)),
              ?lookup_insert_eq,
              ?(lookup_insert_ne _ (shard_txt structure_corpus _)),
              ?lookup_insert_eq,
              ?(lookup_insert_ne _ (shard_txt tgt_corpus _)),
              ?lookup_insert_eq
        by (apply Hne; auto); done.
  - destruct IH as (IH1 & IH2 & IH3 & IH4); [lia|].
    unfold store_shard.
    rewrite !lookup_insert_ne by (apply Hne; auto).
    done.
Qed.

Lemma quad_files_elem (Q : list (string * string * string * string)) i q p :
  Q !! i = Some q → p ∈ quad_files q → p ∈ Q ≫= quad_files.
Proof.
  intros Hi Hp. apply list_elem_of_bind. exists q. split; [done|].
  by eapply list_elem_of_lookup_2.
Qed.

(** The dataset file of an entry of the build loop is built from the four
    text files of that entry, as they are when the loop starts. *)
Lemma build_shards_content build_dataset fields corpus_type opt
    (Q : list (string * string * string * string)) (k : nat)
    (tgt_list structure_list mask_list ret : list string) (st : state)
    (i : nat) (q : string * string * string * string)
    (ls1 ls2 ls3 ls4 : list string) (r : list string) (st' : state) :
  (∀ i q, Q !! i = Some q →
     tgt_list !! (k + i)%nat = Some q.1.1.2
     ∧ structure_list !! (k + i)%nat = Some q.1.2
     ∧ mask_list !! (k + i)%nat = Some q.2) →
  NoDup (Q ≫= quad_files) →
  Forall ends_txt (Q ≫= quad_files) →
  (∀ p, p ∈ Q ≫= quad_files → ∃ ls, files st !! p = Some (TextFile ls)) →
  Q !! i = Some q →
  files st !! q.1.1.1 = Some (TextFile ls1) →
  files st !! q.1.1.2 = Some (TextFile ls2) →
  files st !! q.1.2 = Some (TextFile ls3) →
  files st !! q.2 = Some (TextFile ls4) →
  build_shards build_dataset (imap (λ i q, ((k + i)%nat, q.1.1.1)) Q)
    tgt_list structure_list mask_list fields corpus_type opt ret st = (Ok r, st') →
  files st' !! shard_pt (save_data opt) corpus_type (Z.of_nat (k + i))
  = Some (DatasetFile
            (mkDataset
               (examples
                  (build_dataset fields ls1 ls2 ls3 ls4
                     (src_seq_length opt) (tgt_seq_length opt)
                     (src_seq_length_trunc opt) (tgt_seq_length_trunc opt))) [])).
Proof.
  set (pt (j : nat) := shard_pt (save_data opt) corpus_type (Z.of_nat j)).
  revert k ret st i.
  induction Q as [|[[[s t] u] m] Q IH];
    intros k ret st i Hlists Hnodup Htxt Hfiles Hi H1 H2 H3 H4 Hrun; [done|].
  rewrite bind_cons in Hnodup, Htxt, Hfiles.
  apply NoDup_app in Hnodup as (Hq & Hdisj & Hnodup).
  apply Forall_app in Htxt as [Htxt_q Htxt].
  destruct (Hlists 0%nat _ eq_refl) as (Ht & Hu & Hm). simpl in Ht, Hu, Hm.
  rewrite Nat.add_0_r in Ht, Hu, Hm.
  assert (Hne_pt : ∀ p j, ends_txt p → p ≠ pt j).
  { intros p j Hp ->. by eapply shard_pt_not_txt. }
  change (quad_files (s, t, u, m)) with [s; t; u; m] in *.
  apply Forall_cons in Htxt_q as [Hs_txt Htxt_q].
  apply Forall_cons in Htxt_q as [Ht_txt Htxt_q].
  apply Forall_cons in Htxt_q as [Hu_txt Htxt_q].
  apply Forall_cons in Htxt_q as [Hm_txt _].
  rewrite imap_cons in Hrun. cbn [build_shards] in Hrun.
  rewrite Nat.add_0_r in Hrun. unfold make_text_iterator_from_file in Hrun.
  cbn [fst snd] in Hrun.
  apply bind_inv_ok in Hrun as (src_iter & ? & [Hr1 ->]%read_lines_inv & Hrun).
  apply bind_inv_ok in Hrun as (tgt & ? & [Hx ->]%list_index_inv & Hrun).
  rewrite Ht in Hx. injection Hx as <-.
  apply bind_inv_ok in Hrun as (tgt_iter & ? & [Hr2 ->]%read_lines_inv & Hrun).
  apply bind_inv_ok in Hrun as (structure & ? & [Hx ->]%list_index_inv & Hrun).
  rewrite Hu in Hx. injection Hx as <-.
  apply bind_inv_ok in Hrun as (structure_iter & ? & [Hr3 ->]%read_lines_inv & Hrun).
  apply bind_inv_ok in Hrun as (mask & ? & [Hx ->]%list_index_inv & Hrun).
  rewrite Hm in Hx. injection Hx as <-.
  apply bind_inv_ok in Hrun as (mask_iter & ? & [Hr4 ->]%read_lines_inv & Hrun).
  apply bind_inv_ok in Hrun as (? & ? & ->%write_file_inv & Hrun).
  apply bind_inv_ok in Hrun as (? & ? & ->%os_remove_inv & Hrun).
  apply bind_inv_ok in Hrun as (? & ? & ->%os_remove_inv & Hrun).
  apply bind_inv_ok in Hrun as (? & ? & ->%os_remove_inv & Hrun).
  apply bind_inv_ok in Hrun as (? & ? & ->%os_remove_inv & Hrun).
  fold (pt k) in Hrun.
  set (D := mkDataset _ []) in Hrun.
  set (st_b := set_files (delete m) _) in Hrun.
  replace (imap (_ ∘ S) Q)
    with (imap (λ i (q : string * string * string * string),
                  ((S k + i)%nat, q.1.1.1)) Q) in Hrun.
  2: { apply imap_ext. intros j q' _. simpl. f_equal. lia. }
  assert (Hb : ∀ p, p ≠ s → p ≠ t → p ≠ u → p ≠ m → p ≠ pt k →
            files st_b !! p = files st !! p).
  { intros p ?????. unfold st_b. cbn [files set_files].
    by rewrite !lookup_delete_ne, lookup_insert_ne by done. }
  assert (Hrest : ∀ p, p ∈ Q ≫= quad_files →
            p ≠ s ∧ p ≠ t ∧ p ≠ u ∧ p ≠ m ∧ p ≠ pt k).
  { intros p Hp.
    split; [intros ->; apply (Hdisj s); [left|done]|].
    split; [intros ->; apply (Hdisj t); [right; left|done]|].
    split; [intros ->; apply (Hdisj u); [do 2 right; left|done]|].
    split; [intros ->; apply (Hdisj m); [do 3 right; left|done]|].
    apply Hne_pt. by eapply Forall_forall. }
  assert (Hlists' : ∀ j q', Q !! j = Some q' →
            tgt_list !! (S k + j)%nat = Some q'.1.1.2
            ∧ structure_list !! (S k + j)%nat = Some q'.1.2
            ∧ mask_list !! (S k + j)%nat = Some q'.2).
  { intros j q' Hj. specialize (Hlists (S j) q' Hj).
    by rewrite <-!Nat.add_succ_comm in Hlists. }
  assert (Hfiles' : ∀ p, p ∈ Q ≫= quad_files → ∃ ls, files st_b !! p = Some (TextFile ls)).
  { intros p Hp. destruct (Hrest p Hp) as (?&?&?&?&?).
    rewrite Hb by done. apply Hfiles. apply elem_of_app. by right. }
  destruct i as [|i].
  - injection Hi as <-. simpl in H1, H2, H3, H4.
    assert (src_iter = ls1) as -> by congruence.
    assert (tgt_iter = ls2) as -> by congruence.
    assert (structure_iter = ls3) as -> by congruence.
    assert (mask_iter = ls4) as -> by congruence.
    destruct (build_shards_quads build_dataset fields corpus_type opt Q (S k)
                tgt_list structure_list mask_list (ret ++ [pt k]) st_b
                Hlists' Hnodup Htxt Hfiles')
      as (st'' & Hrun' & _ & _ & _ & Hframe).
    rewrite Hrun in Hrun'. injection Hrun' as _ <-.
    rewrite Nat.add_0_r. fold (pt k). rewrite Hframe.
    + unfold st_b. cbn [files set_files].
      rewrite !lookup_delete_ne by (by apply Hne_pt).
      by rewrite lookup_insert_eq.
    + intros Hin. eapply Hne_pt; [|done]. by eapply Forall_forall.
    + intros j Hj Heq. apply shard_pt_inj in Heq. lia.
  - simpl in Hi.
    assert (Hq_in : ∀ p, p ∈ quad_files q → files st_b !! p = files st !! p).
    { intros p Hp. destruct (Hrest p) as (?&?&?&?&?); [by eapply quad_files_elem|].
      by apply Hb. }
    replace (k + S i)%nat with (S k + i)%nat by lia.
    eapply (IH (S k) _ st_b i); try done.
    + rewrite Hq_in; [done|]. by left.
    + rewrite Hq_in; [done|]. right. by left.
    + rewrite Hq_in; [done|]. do 2 right. by left.
    + rewrite Hq_in; [done|]. do 3 right. by left.
Qed.

Lemma sorted_glob_sorted corpus st l st' :
  sorted_glob corpus st = (Ok l, st') → StronglySorted String.le l.
Proof.
  unfold sorted_glob. intros [= <- _]. apply StronglySorted_merge_sort; apply _.
Qed.

Lemma zip4_lookup_Some {A} (a b c d : list A) i x y z w :
  a !! i = Some x → b !! i = Some y → c !! i = Some z → d !! i = Some w →
  zip4 a b c d !! i = Some (x, y, z, w).
Proof.
  intros Ha Hb Hc Hd. unfold zip4.
  apply lookup_zip_with_Some. exists (x, y, z), w. split; [done|]. split; [|done].
  apply lookup_zip_with_Some. exists (x, y), z. split; [done|]. split; [|done].
  apply lookup_zip_with_Some. exists x, y. done.
Qed.

(** X6. With more than ten shards the dataset files are not numbered in
    the order of the corpus: the text shards are picked up in the order of
    their names, in which [corpus.10.txt] comes right after [corpus.1.txt],
    so the dataset file with index 2 holds the dataset built from the lines
    [10*S .. 11*S) of the four corpora. *)
Theorem eleventh_shard_is_numbered_two build_dataset
    (src_corpus tgt_corpus structure_corpus mask_corpus : string)
    (fields : fields_t) (corpus_type : string) (opt : options) (st : state)
    (src_file tgt_file structure_file mask_file : list string) :
  let paths := [src_corpus; tgt_corpus; structure_corpus; mask_corpus] in
  let rows := zip4 src_file tgt_file structure_file mask_file in
  let sz := Z.to_nat (shard_size opt) in
  let n := shard_count (length rows) sz in
  let c := chunk (corpora_of_rows rows) sz 10 in
  0 < shard_size opt →
  files st !! src_corpus = Some (TextFile src_file) →
  files st !! tgt_corpus = Some (TextFile tgt_file) →
  files st !! structure_corpus = Some (TextFile structure_file) →
  files st !! mask_corpus = Some (TextFile mask_file) →
  Forall well_sized rows →
  (∀ c, c ∈ paths → sorted_glob c st = (Ok [], st)) →
  NoDup paths →
  (∀ c c' (x : nat), c ∈ paths → c' ∈ paths → c ≠ c' →
     glob_match c' (shard_txt c (Z.of_nat x)) = false) →
  (10 < n)%nat →
  ∃ ret st',
    build_save_in_shards_using_shards_size build_dataset
      src_corpus tgt_corpus structure_corpus mask_corpus fields corpus_type opt st
    = (Ok ret, st')
    ∧ ret !! 2%nat = Some (shard_pt (save_data opt) corpus_type 2)
    ∧ files st' !! shard_pt (save_data opt) corpus_type 2
      = Some (DatasetFile
                (mkDataset
                   (examples
                      (build_dataset fields (src_data c) (tgt_data c)
                         (structure_data c) (mask_data c)
                         (src_seq_length opt) (tgt_seq_length opt)
                         (src_seq_length_trunc opt) (tgt_seq_length_trunc opt)))
                   [])).
Proof.
  intros paths rows sz n c Hpos H1 H2 H3 H4 Hrows Hclean Hnodup Hindep Hn.
  destruct (build_save_in_shards_clean build_dataset src_corpus tgt_corpus
              structure_corpus mask_corpus fields corpus_type opt st
              src_file tgt_file structure_file mask_file
              Hpos H1 H2 H3 H4 Hrows Hclean Hnodup Hindep)
    as (st' & Hrun & _).
  fold rows sz n in Hrun.
  eexists _, st'. split; [exact Hrun|]. split.
  { rewrite list_lookup_fmap, lookup_seq_lt by lia. done. }
  unfold build_save_in_shards_using_shards_size in Hrun.
  erewrite bind_ok in Hrun; cycle 1.
  { rewrite (read_corpora_run _ _ _ _ _ _ _ _ _ H1 H2 H3 H4).
    by rewrite decide_True. }
  fold rows in Hrun. erewrite bind_ok in Hrun by apply check_lengths_rows.
  erewrite bind_ok in Hrun; cycle 1.
  { apply split_shards_run; [done|].
    apply columns_cases; unfold corpora_of_rows; simpl; by rewrite !length_fmap. }
  replace (length (src_data (corpora_of_rows rows))) with (length rows) in Hrun
    by (unfold corpora_of_rows; simpl; by rewrite !length_fmap).
  fold sz n in Hrun.
  set (st1 := mkState _ (heap st)) in Hrun.
  assert (Hnew : ∀ p, p ∈ shard_names paths n →
            ∃ ls, files st1 !! p = Some (TextFile ls)).
  { intros p. apply split_files_lookup. }
  assert (Hold : ∀ p, p ∉ shard_names paths n → files st1 !! p = files st !! p).
  { intros p. apply split_files_lookup. }
  assert (Hglob : ∀ c0, c0 ∈ paths →
            ∃ l, sorted_glob c0 st1 = (Ok l, st1)
                 ∧ l ≡ₚ shard_txt c0 <$> (Z.of_nat <$> seq 0 n)
                 ∧ l !! 2%nat = Some (shard_txt c0 10)).
  { intros c0 Hc0.
    destruct (sorted_glob_after_split paths n c0 st st1) as (l & Hl & Hperm);
      try done.
    - by apply Hclean.
    - intros c' x Hc' Hne. by apply Hindep.
    - intros p Hp. destruct (Hnew p Hp) as [ls ->]. eauto.
    - exists l. split; [done|]. split; [done|].
      eapply sorted_names_third; [done| |done]. by eapply sorted_glob_sorted. }
  destruct (Hglob src_corpus) as (L1 & Hg1 & HL1 & Ht1); [by left|].
  destruct (Hglob tgt_corpus) as (L2 & Hg2 & HL2 & Ht2); [right; by left|].
  destruct (Hglob structure_corpus) as (L3 & Hg3 & HL3 & Ht3); [do 2 right; by left|].
  destruct (Hglob mask_corpus) as (L4 & Hg4 & HL4 & Ht4); [do 3 right; by left|].
  erewrite bind_ok in Hrun by exact Hg1. erewrite bind_ok in Hrun by exact Hg2.
  erewrite bind_ok in Hrun by exact Hg3. erewrite bind_ok in Hrun by exact Hg4.
  assert (Hlen : ∀ L c0, L ≡ₚ shard_txt c0 <$> (Z.of_nat <$> seq 0 n) → length L = n).
  { intros L c0 ->. by rewrite !length_fmap, length_seq. }
  destruct (zip4_same_length L1 L2 L3 L4 n) as (Hc1 & Hc2 & Hc3 & Hc4 & HlenQ);
    [by eapply Hlen..|].
  set (Q := zip4 L1 L2 L3 L4) in *.
  assert (HQ : Q ≫= quad_files ≡ₚ shard_names paths n).
  { rewrite quad_files_columns, Hc1, Hc2, Hc3, Hc4, HL1, HL2, HL3, HL4.
    unfold shard_names, paths. rewrite !bind_cons. simpl. by rewrite app_nil_r. }
  rewrite <-Hc1, <-enumerate_zip4 in Hrun.
  destruct (split_files_content src_corpus tgt_corpus structure_corpus mask_corpus
              (chunk (corpora_of_rows rows) sz) (files st) n 10 Hnodup Hindep Hn)
    as (Hf1 & Hf2 & Hf3 & Hf4).
  eapply (build_shards_content build_dataset fields corpus_type opt Q 0
           L2 L3 L4 [] st1 2
           (shard_txt src_corpus 10, shard_txt tgt_corpus 10,
            shard_txt structure_corpus 10, shard_txt mask_corpus 10)
           (src_data c) (tgt_data c) (structure_data c) (mask_data c) _ st').
  - intros i q Hq. apply zip4_lookup in Hq as (_ & ? & ? & ?). done.
  - rewrite HQ. by apply shard_names_NoDup.
  - rewrite HQ. apply Forall_forall.
    intros p (c0 & x & _ & _ & ->)%elem_of_shard_names. apply shard_txt_ends_txt.
  - intros p Hp. rewrite HQ in Hp. by apply Hnew.
  - by apply zip4_lookup_Some.
  - exact Hf1.
  - exact Hf2.
  - exact Hf3.
  - exact Hf4.
  - exact Hrun.
Qed.

(** ** The special tokens of a field *)

Lemma fromkeys_go_spec (acc l : list string) :
  NoDup acc →
  ∃ r, fromkeys_go acc l = acc ++ r
       ∧ NoDup (acc ++ r)
       ∧ r `sublist_of` l
       ∧ ∀ x, x ∈ acc ++ r ↔ x ∈ acc ∨ x ∈ l.
Proof.
  revert acc. induction l as [|x l IH]; intros acc Hacc; simpl.
  - exists []. rewrite app_nil_r. split_and!; [done..|].
    intros x. split; [by left|]. by intros [?|?%elem_of_nil].
  - case_bool_decide as Hx.
    + destruct (IH acc Hacc) as (r & -> & Hnd & Hsub & Hin).
      exists r. split_and!; [done|done|by apply sublist_cons|].
      intros y. rewrite Hin. split; [intros [?|?]; [by left|by right; right]|].
      intros [?|[->|?]%elem_of_cons]; [by left|by left|by right].
    + destruct (IH (acc ++ [x])) as (r & -> & Hnd & Hsub & Hin).
      { apply NoDup_app. split_and!; [done| |apply NoDup_singleton].
        intros y Hy ->%list_elem_of_singleton. done. }
      exists (x :: r). rewrite <-app_assoc in *. simpl in *.
      split_and!; [done|done|by apply sublist_skip|].
      intros y. rewrite Hin, elem_of_app, list_elem_of_singleton, elem_of_cons.
      tauto.
Qed.

Lemma fromkeys_spec (l : list string) :
  NoDup (fromkeys l) ∧ fromkeys l `sublist_of` l ∧ ∀ x, x ∈ fromkeys l ↔ x ∈ l.
Proof.
  unfold fromkeys.
  destruct (fromkeys_go_spec [] l) as (r & -> & Hnd & Hsub & Hin); [constructor|].
  simpl in *. split_and!; [done..|]. intros x. rewrite Hin.
  split; [by intros [?%elem_of_nil|?]|by right].
Qed.

Lemma fromkeys_head (x : string) (l : list string) : head (fromkeys (x :: l)) = Some x.
Proof.
  unfold fromkeys. simpl.
  destruct (fromkeys_go_spec [x] l) as (r & -> & _); [apply NoDup_singleton|]. done.
Qed.

(** X7. The special tokens [build_field_vocab] hands to the vocabulary
    constructor are the tokens among [unk_token], [pad_token], [init_token]
    and [eos_token] of the field that are not [None], without repetition
    and in this order, starting with the first of them. *)
Theorem field_specials_distinct_in_order (f : Field) :
  let tokens := [unk_token f; pad_token f; init_token f; eos_token f] in
  NoDup (field_specials f)
  ∧ field_specials f `sublist_of` omap id tokens
  ∧ (∀ t, t ∈ field_specials f ↔ Some t ∈ tokens)
  ∧ head (field_specials f) = head (omap id tokens).
Proof.
  intros tokens. unfold field_specials. fold tokens.
  destruct (fromkeys_spec (omap id tokens)) as (Hnd & Hsub & Hin).
  split_and!; [done|done| |].
  - intros t. rewrite Hin, list_elem_of_omap. split.
    + intros ([x|] & Hx & Heq); simplify_eq/=. done.
    + intros Ht. exists (Some t). done.
  - destruct (omap id tokens) as [|x l]; [done|]. by rewrite fromkeys_head.
Qed.

(** ** The vocabulary constructor *)

Global Instance word_order_total : Total word_order.
Proof.
  intros [a x] [b y]. unfold word_order. simpl.
  destruct (lt_eq_lt_dec x y) as [[?|?]|?]; [by right; left| |by left; left].
  destruct (total String.le a b); [left|right]; right; by split.
Qed.

Global Instance word_order_trans : Transitive word_order.
Proof.
  intros [a x] [b y] [c z]. unfold word_order. simpl.
  intros [?|[? ?]] [?|[? ?]]; try (left; lia).
  right. split; [lia|]. by etrans.
Qed.

(** The tokens that remain once the special tokens are taken out. *)
Lemma lookup_delete_specials (counter : Counter) (specials : list string) w :
  foldl (λ c tok, delete tok c) counter specials !! w
  = if decide (w ∈ specials) then None else counter !! w.
Proof.
  revert counter. induction specials as [|s specials IH]; intros counter; simpl.
  - by destruct (decide (w ∈ [])) as [?%elem_of_nil|].
  - rewrite IH.
    destruct (decide (w ∈ specials)) as [Hw|Hw],
             (decide (w ∈ s :: specials)) as [Hw'|Hw']; try done.
    + exfalso. apply Hw'. by right.
    + apply elem_of_cons in Hw' as [->|?]; [|done]. apply lookup_delete_eq.
    + apply lookup_delete_ne. intros ->. apply Hw'. by left.
Qed.

Lemma append_words_spec min_freq max_size words itos :
  ∃ n, append_words min_freq max_size words itos = itos ++ (take n words).*1
       ∧ (n ≤ length words)%nat
       ∧ Forall (λ wf, min_freq ≤ Z.of_nat wf.2) (take n words)
       ∧ (∀ m, max_size = Some m → len itos ≤ m → len itos + Z.of_nat n ≤ m)
       ∧ ((n < length words)%nat →
          (∃ wf, words !! n = Some wf ∧ Z.of_nat wf.2 < min_freq)
          ∨ max_size = Some (len itos + Z.of_nat n)).
Proof.
  revert itos. induction words as [|[word freq] words IH]; intros itos; simpl.
  - exists 0%nat. simpl. rewrite app_nil_r. split_and!; [done|lia|done| |lia].
    intros; lia.
  - destruct (bool_decide (Z.of_nat freq < min_freq)
              || bool_decide (max_size = Some (len itos))) eqn:Hstop.
    + exists 0%nat. simpl. rewrite app_nil_r. split_and!; [done|lia|done| |].
      * intros; lia.
      * intros _. apply orb_true_iff in Hstop as [H|H]; apply bool_decide_eq_true in H.
        -- left. eexists. split; [done|]. done.
        -- right. rewrite H. f_equal. lia.
    + apply orb_false_iff in Hstop as [H1 H2].
      apply bool_decide_eq_false in H1, H2.
      destruct (IH (itos ++ [word])) as (n & -> & Hn & Hfreq & Hsize & Hstop).
      exists (S n). simpl. rewrite <-app_assoc. simpl.
      assert (Hlen : len (itos ++ [word]) = len itos + 1).
      { unfold len. rewrite length_app. simpl. lia. }
      split_and!; [done|lia| | |].
      * constructor; [simpl; lia|done].
      * intros m -> Hm. rewrite Hlen in Hsize.
        assert (len itos ≠ m) by congruence.
        specialize (Hsize m eq_refl). lia.
      * intros Hlt. destruct Hstop as [?| ->]; [lia|by left|].
        right. f_equal. lia.
Qed.

(** What the constructor puts into [itos]. *)
Lemma Vocab_init_itos (counter : Counter) (specials : list string)
    (max_size min_freq : Z) :
  NoDup specials →
  ∃ words,
    itos (Vocab_init counter specials (Some max_size) min_freq) = specials ++ words
    ∧ NoDup (specials ++ words)
    ∧ (∀ w, w ∈ words → Z.max min_freq 1 ≤ Z.of_nat (count counter w))
    ∧ (0 ≤ max_size → len words ≤ max_size)
    ∧ (∀ w w', w ∈ words → w' ∉ specials ++ words →
         (count counter w' ≤ count counter w)%nat)
    ∧ (len words ≠ max_size →
       ∀ w, w ∉ specials → Z.max min_freq 1 ≤ Z.of_nat (count counter w) → w ∈ words).
Proof.
  intros Hspecials. unfold Vocab_init. cbn [itos].
  set (counter' := foldl (λ c tok, delete tok c) counter specials).
  set (sorted := merge_sort word_order (map_to_list counter')).
  assert (Hperm : sorted ≡ₚ map_to_list counter') by apply merge_sort_Permutation.
  assert (Hsorted : StronglySorted word_order sorted)
    by (apply StronglySorted_merge_sort; apply _).
  assert (Hin : ∀ w n,
            (w, n) ∈ sorted ↔ (w ∉ specials) ∧ (counter !! w = Some n)).
  { intros w n. rewrite Hperm, elem_of_map_to_list. unfold counter'.
    rewrite lookup_delete_specials.
    case_decide; (split; [|by intros [? ?]]); [done|by split]. }
  assert (Hnd : NoDup sorted.*1).
  { rewrite Hperm. apply NoDup_fst_map_to_list. }
  destruct (append_words_spec (Z.max min_freq 1)
              ((λ m, m + len specials) <$> Some max_size) sorted specials)
    as (n & -> & Hn & Hfreq & Hsize & Hstop).
  exists (take n sorted).*1.
  assert (Hsplit : sorted = take n sorted ++ drop n sorted) by (by rewrite take_drop).
  assert (Hlen : len (take n sorted).*1 = Z.of_nat n).
  { unfold len. rewrite length_fmap, length_take. lia. }
  assert (Hcount : ∀ w k, (w, k) ∈ sorted → count counter w = k).
  { intros w k [_ Hw]%Hin. unfold count. by rewrite Hw. }
  split_and!.
  - done.
  - apply NoDup_app. split_and!; [done| |].
    + intros w Hw ([w' k] & -> & Hk)%list_elem_of_fmap.
      apply elem_of_take in Hk as (i & Hk & _).
      apply list_elem_of_lookup_2, Hin in Hk as [? _]. done.
    + rewrite Hsplit, fmap_app in Hnd. by apply NoDup_app in Hnd as [? _].
  - intros w ([w' k] & -> & Hk)%list_elem_of_fmap.
    pose proof (proj1 (Forall_forall _ _) Hfreq _ Hk) as Hf. simpl in *.
    rewrite (Hcount w' k); [done|]. rewrite Hsplit. apply elem_of_app. by left.
  - intros Hpos. rewrite Hlen.
    specialize (Hsize (max_size + len specials) eq_refl). lia.
  - intros w w' ([w0 k] & -> & Hk)%list_elem_of_fmap Hw'. simpl.
    rewrite (Hcount w0 k) by (rewrite Hsplit; apply elem_of_app; by left).
    unfold count at 1. destruct (counter !! w') as [k'|] eqn:Ek'; simpl; [|lia].
    assert (Hw's : w' ∉ specials) by (intros ?; apply Hw', elem_of_app; by left).
    assert (Hk' : (w', k') ∈ sorted) by (by apply Hin).
    rewrite Hsplit in Hk'. apply elem_of_app in Hk' as [Hk'|Hk'].
    { exfalso. apply Hw', elem_of_app. right.
      apply list_elem_of_fmap. by exists (w', k'). }
    rewrite Hsplit in Hsorted. apply StronglySorted_app in Hsorted as (Hord & _ & _).
    destruct (Hord _ _ Hk Hk') as [?|[? _]]; simpl in *; lia.
  - intros Hne w Hws Hw. rewrite Hlen in Hne.
    unfold count in Hw. destruct (counter !! w) as [k|] eqn:Ek; simpl in Hw; [|lia].
    assert (Hk : (w, k) ∈ sorted) by (by apply Hin).
    rewrite Hsplit in Hk. apply elem_of_app in Hk as [Hk|Hk].
    { apply list_elem_of_fmap. by exists (w, k). }
    exfalso.
    assert (Hlt : (n < length sorted)%nat).
    { apply list_elem_of_lookup_1 in Hk as (i & Hi). apply lookup_lt_Some in Hi.
      rewrite length_drop in Hi. lia. }
    destruct (Hstop Hlt) as [([w0 k0] & H0 & Hk0)|Heq].
    + simpl in Hk0.
      assert (H0' : (w0, k0) ∈ drop n sorted).
      { apply list_elem_of_lookup_2 with 0%nat. by rewrite lookup_drop, Nat.add_0_r. }
      rewrite Hsplit in Hsorted.
      apply StronglySorted_app in Hsorted as (_ & _ & Hdrop).
      destruct (drop n sorted) as [|x rest] eqn:Ed; [by apply elem_of_nil in Hk|].
      assert (x = (w0, k0)) as ->.
      { assert (Hx : drop n sorted !! 0%nat = Some x) by (by rewrite Ed).
        rewrite lookup_drop, Nat.add_0_r in Hx. congruence. }
      apply StronglySorted_cons in Hdrop as [Hall _].
      apply elem_of_cons in Hk as [Hk|Hk].
      * injection Hk as -> ->. lia.
      * pose proof (proj1 (Forall_forall _ _) Hall _ Hk) as [?|[? _]]; simpl in *; lia.
    + injection Heq as Heq. lia.
Qed.

Lemma stoi_of_snoc (l : list string) (x : string) :
  stoi_of (l ++ [x]) = <[x := length l]> (stoi_of l).
Proof.
  unfold stoi_of, enumerate. rewrite imap_app, foldl_app. simpl.
  by rewrite Nat.add_0_r.
Qed.

Lemma stoi_of_lookup (l : list string) (w : string) (i : nat) :
  NoDup l → stoi_of l !! w = Some i ↔ l !! i = Some w.
Proof.
  induction l as [|x l IH] using rev_ind; intros Hnd.
  - unfold stoi_of. simpl. by rewrite lookup_empty.
  - apply NoDup_app in Hnd as (Hl & Hx & _).
    rewrite stoi_of_snoc. destruct (decide (w = x)) as [->|Hne].
    + rewrite lookup_insert_eq. split.
      * intros [= <-]. by apply list_lookup_middle.
      * intros Hi. f_equal.
        destruct (decide (i < length l)%nat).
        -- rewrite lookup_app_l in Hi by done.
           apply list_elem_of_lookup_2 in Hi. exfalso. eapply Hx; [done|left].
        -- apply lookup_lt_Some in Hi. rewrite length_app in Hi. simpl in Hi. lia.
    + rewrite lookup_insert_ne by done. rewrite IH by done. split.
      * intros Hi. by apply lookup_app_l_Some.
      * intros Hi. destruct (decide (i < length l)%nat).
        -- by rewrite lookup_app_l in Hi.
        -- rewrite lookup_app_r in Hi by lia.
           apply list_lookup_singleton_Some in Hi as [_ ->]. done.
Qed.

Lemma build_field_vocab_inv fields k counter max_size min_freq st fields' st' :
  build_field_vocab fields k counter max_size min_freq st = (Ok fields', st') →
  ∃ f, dict_get fields k = Some (Some f)
       ∧ fields' = set_vocab k (length (heap st)) fields
       ∧ st' = mkState (files st)
                 (heap st ++ [Vocab_init counter (field_specials f)
                                (Some max_size) min_freq])
       ∧ field_vocab fields' st' k
         = Some (Vocab_init counter (field_specials f) (Some max_size) min_freq).
Proof.
  intros H. pose proof H as H'. unfold build_field_vocab in H'.
  apply bind_inv_ok in H' as (f & ? & [Hf ->]%get_field_inv & _).
  rewrite (build_field_vocab_run _ _ _ _ _ _ _ Hf) in H.
  exists f. injection H as <- <-. split_and!; [done..|].
  unfold field_vocab, field_loc. rewrite dict_get_set_vocab, decide_True by done.
  rewrite Hf. simpl. by apply list_lookup_middle.
Qed.

Lemma field_specials_NoDup f : NoDup (field_specials f).
Proof. apply fromkeys_spec. Qed.

(** X8. The vocabulary [build_field_vocab] attaches to a field keeps the
    counter as its frequency table; its [itos] starts with the special
    tokens of the field, holds no token twice, holds beyond the special
    tokens only tokens counted at least [max(min_freq, 1)] times, and at
    most [max_size] of them when [max_size] is not negative. *)
Theorem build_field_vocab_filters fields k counter max_size min_freq st fields' st' :
  build_field_vocab fields k counter max_size min_freq st = (Ok fields', st') →
  ∃ f v words,
    dict_get fields k = Some (Some f)
    ∧ field_vocab fields' st' k = Some v
    ∧ freqs v = counter
    ∧ itos v = field_specials f ++ words
    ∧ NoDup (itos v)
    ∧ (∀ w, w ∈ words → Z.max min_freq 1 ≤ Z.of_nat (count counter w))
    ∧ (0 ≤ max_size → len words ≤ max_size).
Proof.
  intros (f & Hf & _ & _ & Hv)%build_field_vocab_inv.
  destruct (Vocab_init_itos counter (field_specials f) max_size min_freq)
    as (words & Hitos & Hnd & Hfreq & Hsize & _); [apply field_specials_NoDup|].
  eexists f, _, words. split_and!; [done|exact Hv|done|done| |done|done].
  by rewrite Hitos.
Qed.

(** X9. The vocabulary [build_field_vocab] attaches to a field keeps the
    most frequent tokens: a token left out is never counted more often than
    a token that is in it (special tokens apart), and as long as the size
    limit is not reached every token counted at least [max(min_freq, 1)]
    times is in it. *)
Theorem build_field_vocab_keeps_most_frequent fields k counter max_size min_freq
    st fields' st' :
  build_field_vocab fields k counter max_size min_freq st = (Ok fields', st') →
  ∃ f v,
    dict_get fields k = Some (Some f)
    ∧ field_vocab fields' st' k = Some v
    ∧ (∀ w w', w ∈ itos v → w ∉ field_specials f → w' ∉ itos v →
         (count counter w' ≤ count counter w)%nat)
    ∧ (len (itos v) ≠ max_size + len (field_specials f) →
       ∀ w, Z.max min_freq 1 ≤ Z.of_nat (count counter w) → w ∈ itos v).
Proof.
  intros (f & Hf & _ & _ & Hv)%build_field_vocab_inv.
  destruct (Vocab_init_itos counter (field_specials f) max_size min_freq)
    as (words & Hitos & _ & _ & _ & Htop & Hall); [apply field_specials_NoDup|].
  eexists f, _. split_and!; [done|exact Hv| |]; rewrite Hitos.
  - intros w w' [?|Hw]%elem_of_app Hws Hw'; [done|]. by apply Htop.
  - intros Hlen w Hw. apply elem_of_app.
    destruct (decide (w ∈ field_specials f)); [by left|right].
    apply Hall; [|done..]. intros Heq. apply Hlen.
    unfold len in *. rewrite length_app. lia.
Qed.

(** X10. In the vocabulary [build_field_vocab] attaches to a field,
    [stoi] and [itos] are inverse to each other: the token at index [i] is
    mapped to [i], and every token of [stoi] is found at its index.  This
    rests on the special tokens being handed over without repetition. *)
Theorem built_vocab_index_round_trip fields k counter max_size min_freq
    st fields' st' :
  build_field_vocab fields k counter max_size min_freq st = (Ok fields', st') →
  ∃ v, field_vocab fields' st' k = Some v
       ∧ ∀ i w, itos v !! i = Some w ↔ stoi v !! w = Some i.
Proof.
  intros (f & Hf & _ & _ & Hv)%build_field_vocab_inv.
  destruct (Vocab_init_itos counter (field_specials f) max_size min_freq)
    as (words & Hitos & Hnd & _); [apply field_specials_NoDup|].
  eexists. split; [exact Hv|]. intros i w.
  rewrite <-Hitos in Hnd. symmetry. by apply stoi_of_lookup.
Qed.

(** ** What [build_vocab] does to the store and to the fields *)

Lemma allocates_read_only {A} (m : M A) : read_only m → allocates 0 m.
Proof.
  intros Hm st o st' ->%(read_only_run _ _ _ _ Hm).
  split; [done|]. exists []. by rewrite app_nil_r.
Qed.

Lemma allocates_weaken {A} (n n' : nat) (m : M A) :
  (n ≤ n')%nat → allocates n m → allocates n' m.
Proof.
  intros Hn Hm st o st' H. destruct (Hm _ _ _ H) as (? & h & ? & ?).
  split; [done|]. exists h. split; [done|lia].
Qed.

Lemma allocates_bind {A B} (n1 n2 : nat) (m : M A) (k : A → M B) :
  allocates n1 m → (∀ a, allocates n2 (k a)) → allocates (n1 + n2) (m ≫= k).
Proof.
  intros Hm Hk st o st'. unfold mbind, M_bind.
  destruct (m st) as [[a|e] st1] eqn:E; intros H.
  - destruct (Hm _ _ _ E) as (Hf1 & h1 & Hh1 & Hl1).
    destruct (Hk _ _ _ _ H) as (Hf2 & h2 & Hh2 & Hl2).
    split; [congruence|]. exists (h1 ++ h2).
    rewrite Hh2, Hh1, <-app_assoc, length_app. split; [done|lia].
  - injection H as <- <-. destruct (Hm _ _ _ E) as (Hf1 & h1 & Hh1 & Hl1).
    split; [done|]. exists h1. split; [done|lia].
Qed.

Lemma allocates_alloc v : allocates 1 (alloc v).
Proof.
  intros st o st'. unfold alloc. intros [= <- <-]. split; [done|]. by exists [v].
Qed.

Lemma allocates_build_field_vocab fields k c max_size min_freq :
  allocates 1 (build_field_vocab fields k c max_size min_freq).
Proof.
  unfold build_field_vocab.
  apply (allocates_bind 0 1); [apply allocates_read_only, read_only_get_field|].
  intros f. apply (allocates_bind 1 0); [apply allocates_alloc|].
  intros l. by apply allocates_read_only.
Qed.

Lemma read_only_get_counter counter k : read_only (get_counter counter k).
Proof. intros st. unfold get_counter. by destruct (counter !! k). Qed.

Lemma read_only_get_vocab fields k : read_only (get_vocab fields k).
Proof.
  unfold get_vocab. apply read_only_bind; [apply read_only_get_field|].
  intros f st. by destruct (vocab f).
Qed.

Lemma read_only_load l : read_only (load l).
Proof. intros st. unfold load. by destruct (heap st !! l). Qed.

Lemma allocates_build_vocab
    (UNK_WORD PAD_WORD BOS_WORD EOS_WORD : string)
    (train_dataset_files : list string) (fields : fields_t) (share_vocab : bool)
    (src_vocab_size src_words_min_frequency tgt_vocab_size tgt_words_min_frequency
     structure_vocab_size structure_words_min_frequency : Z) :
  allocates (if share_vocab then 5 else 4)
    (build_vocab UNK_WORD PAD_WORD BOS_WORD EOS_WORD train_dataset_files fields
       share_vocab src_vocab_size src_words_min_frequency
       tgt_vocab_size tgt_words_min_frequency
       structure_vocab_size structure_words_min_frequency).
Proof.
  assert (Hc : ∀ F counter k,
            allocates 0 (get_field F k ;; get_counter counter k)).
  { intros F counter k. apply allocates_read_only, read_only_bind.
    - apply read_only_get_field.
    - intros _. apply read_only_get_counter. }
  unfold build_vocab.
  apply (allocates_bind 0); [apply allocates_read_only, read_only_count_files|].
  intros counter.
  apply (allocates_bind 0); [apply Hc|intros c1].
  eapply allocates_weaken; [|apply (allocates_bind 1 (if share_vocab then 4 else 3));
    [apply allocates_build_field_vocab|intros F1]]; [by destruct share_vocab|].
  apply (allocates_bind 0); [apply Hc|intros c2].
  eapply allocates_weaken; [|apply (allocates_bind 1 (if share_vocab then 3 else 2));
    [apply allocates_build_field_vocab|intros F2]]; [by destruct share_vocab|].
  apply (allocates_bind 0); [apply Hc|intros c3].
  eapply allocates_weaken; [|apply (allocates_bind 1 (if share_vocab then 2 else 1));
    [apply allocates_build_field_vocab|intros F3]]; [by destruct share_vocab|].
  apply (allocates_bind 0); [apply Hc|intros c4].
  eapply allocates_weaken; [|apply (allocates_bind 1 (if share_vocab then 1 else 0));
    [apply allocates_build_field_vocab|intros F4]]; [by destruct share_vocab|].
  destruct share_vocab; [|by apply allocates_read_only].
  apply (allocates_bind 0); [apply allocates_read_only, read_only_get_vocab|intros l1].
  apply (allocates_bind 0); [apply allocates_read_only, read_only_load|intros v1].
  apply (allocates_bind 0); [apply allocates_read_only, read_only_get_vocab|intros l2].
  apply (allocates_bind 0); [apply allocates_read_only, read_only_load|intros v2].
  apply (allocates_bind 1 0); [apply allocates_alloc|intros l].
  by apply allocates_read_only.
Qed.

(** ** The fields after [build_vocab] *)

Lemma set_vocab_keys k l (fields : fields_t) : (set_vocab k l fields).*1 = fields.*1.
Proof.
  induction fields as [|[k0 f0] fields IH]; [done|].
  unfold set_vocab in *. rewrite !fmap_cons, IH. simpl. by case_bool_decide.
Qed.

Lemma build_vocab_result (UNK_WORD PAD_WORD BOS_WORD EOS_WORD : string)
    (train_dataset_files : list string) (fields : fields_t) (share_vocab : bool)
    (src_vocab_size src_words_min_frequency tgt_vocab_size tgt_words_min_frequency
     structure_vocab_size structure_words_min_frequency : Z)
    (st : state) (fields' : fields_t) (st' : state) :
  build_vocab UNK_WORD PAD_WORD BOS_WORD EOS_WORD train_dataset_files fields
    share_vocab src_vocab_size src_words_min_frequency
    tgt_vocab_size tgt_words_min_frequency
    structure_vocab_size structure_words_min_frequency st = (Ok fields', st') →
  ∃ counter f_src f_tgt f_structure f_mask,
    count_files train_dataset_files fields (empty_counters fields) st = (Ok counter, st)
    ∧ dict_get fields "src" = Some (Some f_src)
    ∧ dict_get fields "tgt" = Some (Some f_tgt)
    ∧ dict_get fields "structure" = Some (Some f_structure)
    ∧ dict_get fields "mask" = Some (Some f_mask)
    ∧ let n := length (heap st) in
      let c (k : string) := default ∅ (counter !! k) in
      let v_tgt := Vocab_init (c "tgt") (field_specials f_tgt)
                     (Some tgt_vocab_size) tgt_words_min_frequency in
      let v_src := Vocab_init (c "src") (field_specials f_src)
                     (Some src_vocab_size) src_words_min_frequency in
      let v_structure := Vocab_init (c "structure") (field_specials f_structure)
                           (Some structure_vocab_size)
                           structure_words_min_frequency in
      let v_mask := Vocab_init (c "mask") (field_specials f_mask) (Some 2) 0 in
      let fields4 :=
        set_vocab "mask" (n + 3)
          (set_vocab "structure" (n + 2)
             (set_vocab "src" (n + 1) (set_vocab "tgt" n fields))) in
      files st' = files st
      ∧ heap st'
        = heap st ++ [v_tgt; v_src; v_structure; v_mask]
            ++ (if share_vocab
                then [merge_vocabs UNK_WORD PAD_WORD BOS_WORD EOS_WORD [v_src; v_tgt]
                        (Some src_vocab_size) src_words_min_frequency]
                else [])
      ∧ fields' = (if share_vocab
                   then set_vocab "tgt" (n + 4) (set_vocab "src" (n + 4) fields4)
                   else fields4).
Proof.
  intros Hbuild.
  destruct (build_vocab_inv _ _ _ _ _ _ _ _ _ _ _ _ _ _ _ _ Hbuild)
    as (counter & f_src & f_tgt & f_structure & f_mask & Hc & Hs & Ht & Hst & Hm).
  rewrite (build_vocab_run _ _ _ _ _ _ _ _ _ _ _ _ _ _ _ _ _ _ Hc Hs Ht Hst Hm)
    in Hbuild.
  exists counter, f_src, f_tgt, f_structure, f_mask.
  split_and!; [done..|].
  destruct share_vocab; injection Hbuild as <- <-; cbn [files heap]; done.
Qed.

(** X11. Whatever its outcome, [build_vocab] leaves every file as it is
    (the log apart, which is not modelled) and every vocabulary object that
    exists as it is: it only adds vocabulary objects, at most four, or five
    with [share_vocab], and exactly that many when it returns. *)
Theorem build_vocab_only_adds_vocabularies
    (UNK_WORD PAD_WORD BOS_WORD EOS_WORD : string)
    (train_dataset_files : list string) (fields : fields_t) (share_vocab : bool)
    (src_vocab_size src_words_min_frequency tgt_vocab_size tgt_words_min_frequency
     structure_vocab_size structure_words_min_frequency : Z)
    (st : state) (o : outcome fields_t) (st' : state) :
  build_vocab UNK_WORD PAD_WORD BOS_WORD EOS_WORD train_dataset_files fields
    share_vocab src_vocab_size src_words_min_frequency
    tgt_vocab_size tgt_words_min_frequency
    structure_vocab_size structure_words_min_frequency st = (o, st') →
  files st' = files st
  ∧ ∃ h, heap st' = heap st ++ h
         ∧ (length h ≤ if share_vocab then 5 else 4)%nat
         ∧ (∀ fields', o = Ok fields' →
              length h = if share_vocab then 5%nat else 4%nat).
Proof.
  intros H.
  destruct (allocates_build_vocab _ _ _ _ _ _ _ _ _ _ _ _ _ _ _ _ H)
    as (Hfiles & h & Hh & Hlen).
  split; [done|]. exists h. split_and!; [done..|].
  intros fields' ->.
  apply build_vocab_result in H as (? & ? & ? & ? & ? & _ & _ & _ & _ & _ & _ & Hheap & _).
  rewrite Hh in Hheap. apply app_inv_head in Hheap as ->. by destruct share_vocab.
Qed.

(** X12. When [build_vocab] returns, the dictionary of fields has the
    keys it had, in the same order; the fields other than [tgt], [src],
    [structure] and [mask] are as they were; each of these four is the
    field it was with a vocabulary object created by this call; and the
    fields [src] and [tgt] refer to one and the same object exactly when
    [share_vocab] is set. *)
Theorem build_vocab_updates_four_fields
    (UNK_WORD PAD_WORD BOS_WORD EOS_WORD : string)
    (train_dataset_files : list string) (fields : fields_t) (share_vocab : bool)
    (src_vocab_size src_words_min_frequency tgt_vocab_size tgt_words_min_frequency
     structure_vocab_size structure_words_min_frequency : Z)
    (st : state) (fields' : fields_t) (st' : state) :
  build_vocab UNK_WORD PAD_WORD BOS_WORD EOS_WORD train_dataset_files fields
    share_vocab src_vocab_size src_words_min_frequency
    tgt_vocab_size tgt_words_min_frequency
    structure_vocab_size structure_words_min_frequency st = (Ok fields', st') →
  fields'.*1 = fields.*1
  ∧ (∀ k, k ∉ vocab_fields → dict_get fields' k = dict_get fields k)
  ∧ (∀ k, k ∈ vocab_fields →
       ∃ f l, dict_get fields k = Some (Some f)
              ∧ dict_get fields' k = Some (Some (with_vocab l f))
              ∧ (length (heap st) ≤ l < length (heap st'))%nat)
  ∧ (field_loc fields' "src" = field_loc fields' "tgt" ↔ share_vocab = true).
Proof.
  intros (counter & f_src & f_tgt & f_structure & f_mask
          & _ & Hs & Ht & Hst & Hm & _ & Hheap & ->)%build_vocab_result.
  assert (Hlen : length (heap st')
                 = (length (heap st) + if share_vocab then 5 else 4)%nat).
  { rewrite Hheap, length_app. by destruct share_vocab. }
  split_and!.
  - destruct share_vocab; by rewrite !set_vocab_keys.
  - intros k Hk.
    assert (k ≠ "tgt" ∧ k ≠ "src" ∧ k ≠ "structure" ∧ k ≠ "mask") as (?&?&?&?).
    { unfold vocab_fields in Hk. rewrite !elem_of_cons in Hk. naive_solver. }
    destruct share_vocab; rewrite !dict_get_set_vocab;
      by rewrite !decide_False by done.
  - intros k Hk. unfold vocab_fields in Hk.
    repeat (apply elem_of_cons in Hk as [->|Hk]); [| | | |by apply elem_of_nil in Hk].
    + exists f_tgt. destruct share_vocab; eexists;
        rewrite !dict_get_set_vocab; simpl; rewrite Ht; simpl;
        (split; [done|split; [done|lia]]).
    + exists f_src. destruct share_vocab; eexists;
        rewrite !dict_get_set_vocab; simpl; rewrite Hs; simpl;
        (split; [done|split; [done|lia]]).
    + exists f_structure. destruct share_vocab; eexists;
        rewrite !dict_get_set_vocab; simpl; rewrite Hst; simpl;
        (split; [done|split; [done|lia]]).
    + exists f_mask. destruct share_vocab; eexists;
        rewrite !dict_get_set_vocab; simpl; rewrite Hm; simpl;
        (split; [done|split; [done|lia]]).
  - unfold field_loc. destruct share_vocab;
      rewrite !dict_get_set_vocab; simpl; rewrite Hs, Ht; simpl.
    + done.
    + split; [|done]. intros [=]. lia.
Qed.

(** ** What is counted *)

Lemma empty_counters_lookup fields k c :
  empty_counters fields !! k = Some c → c = ∅.
Proof.
  unfold empty_counters.
  assert (H : ∀ (keys : list string) (m : gmap string Counter),
            (∀ c, m !! k = Some c → c = ∅) →
            ∀ c, foldl (λ counter k, <[k := ∅]> counter) m keys !! k = Some c → c = ∅).
  { induction keys as [|k0 keys IH]; intros m Hm; simpl; [done|].
    apply IH. intros c'. rewrite lookup_insert. case_decide; [congruence|apply Hm]. }
  apply H. intros c'. by rewrite lookup_empty.
Qed.

Lemma count_example_skip keys fields ex counter st counter' st' k f :
  dict_get fields k = Some (Some f) → sequential f = false →
  count_example keys fields ex counter st = (Ok counter', st') →
  counter' !! k = counter !! k.
Proof.
  intros Hk Hseq. revert counter st.
  induction keys as [|k0 keys IH]; intros counter st; simpl.
  - by intros [-> ->]%ret_inv_ok.
  - intros (f0 & st1 & [Hf0 ->]%get_field_inv & H)%bind_inv_ok.
    destruct (sequential f0) eqn:Hseq0; simpl in H; [|by eapply IH].
    apply bind_inv_ok in H as (c & st2 & _ & H).
    apply IH in H as ->. apply lookup_insert_ne. intros ->. congruence.
Qed.

Lemma count_files_skip paths fields counter st counter' st' k f :
  dict_get fields k = Some (Some f) → sequential f = false →
  count_files paths fields counter st = (Ok counter', st') →
  counter' !! k = counter !! k.
Proof.
  intros Hk Hseq.
  assert (Hexs : ∀ exs counter st counter' st',
            count_examples exs fields counter st = (Ok counter', st') →
            counter' !! k = counter !! k).
  { induction exs as [|ex exs IH]; intros c0 st0 c1 st1; simpl.
    - by intros [-> ->]%ret_inv_ok.
    - intros (c & st2 & Hc & H)%bind_inv_ok.
      apply IH in H as ->. by eapply count_example_skip. }
  revert counter st. induction paths as [|path paths IH]; intros counter st; simpl.
  - by intros [-> ->]%ret_inv_ok.
  - intros (d & st1 & _ & H)%bind_inv_ok.
    apply bind_inv_ok in H as (c & st2 & Hc & H).
    apply IH in H as ->. by eapply Hexs.
Qed.

Lemma Vocab_init_empty specials max_size min_freq :
  NoDup specials →
  itos (Vocab_init ∅ specials (Some max_size) min_freq) = specials.
Proof.
  intros Hnd.
  destruct (Vocab_init_itos ∅ specials max_size min_freq Hnd)
    as (words & -> & _ & Hfreq & _).
  destruct words as [|w words]; [by rewrite app_nil_r|].
  specialize (Hfreq w (list_elem_of_here _ _)).
  rewrite count_empty in Hfreq. lia.
Qed.

(** X13. A field whose tokens are not counted gets a vocabulary of its
    special tokens only: this is so for every field when the list of
    training datasets is empty, and for a field that is not [sequential].
    (For [src] and [tgt] this is stated without [share_vocab].) *)
Theorem uncounted_field_gets_special_tokens_only
    (UNK_WORD PAD_WORD BOS_WORD EOS_WORD : string)
    (train_dataset_files : list string) (fields : fields_t) (share_vocab : bool)
    (src_vocab_size src_words_min_frequency tgt_vocab_size tgt_words_min_frequency
     structure_vocab_size structure_words_min_frequency : Z)
    (st : state) (fields' : fields_t) (st' : state) (k : string) (f : Field) :
  build_vocab UNK_WORD PAD_WORD BOS_WORD EOS_WORD train_dataset_files fields
    share_vocab src_vocab_size src_words_min_frequency
    tgt_vocab_size tgt_words_min_frequency
    structure_vocab_size structure_words_min_frequency st = (Ok fields', st') →
  k ∈ ["structure"; "mask"] ∨ (share_vocab = false ∧ k ∈ ["src"; "tgt"]) →
  dict_get fields k = Some (Some f) →
  train_dataset_files = [] ∨ sequential f = false →
  ∃ v, field_vocab fields' st' k = Some v
       ∧ freqs v = ∅
       ∧ itos v = field_specials f.
Proof.
  intros (counter & f_src & f_tgt & f_structure & f_mask
          & Hc & Hs & Ht & Hst & Hm & _ & Hheap & ->)%build_vocab_result Hk Hf Hwhy.
  assert (Hempty : default ∅ (counter !! k) = ∅).
  { assert (Hk0 : counter !! k = empty_counters fields !! k).
    { destruct Hwhy as [->|Hseq].
      - by apply ret_inv_ok in Hc as [-> _].
      - by eapply count_files_skip. }
    rewrite Hk0. destruct (empty_counters fields !! k) as [c|] eqn:E; [|done].
    by apply empty_counters_lookup in E. }
  assert (Hv : ∀ max_size min_freq,
            let v := Vocab_init (default ∅ (counter !! k)) (field_specials f)
                       (Some max_size) min_freq in
            freqs v = ∅ ∧ itos v = field_specials f).
  { intros max_size min_freq. rewrite Hempty. split; [done|].
    apply Vocab_init_empty, field_specials_NoDup. }
  unfold field_vocab, field_loc. rewrite Hheap.
  destruct Hk as [Hk|[-> Hk]].
  - repeat (apply elem_of_cons in Hk as [->|Hk]); [| |by apply elem_of_nil in Hk].
    + assert (f_structure = f) as -> by congruence.
      eexists. split; [|apply Hv].
      destruct share_vocab; rewrite !dict_get_set_vocab; simpl; rewrite Hst; simpl;
        by rewrite lookup_app_plus.
    + assert (f_mask = f) as -> by congruence.
      eexists. split; [|apply Hv].
      destruct share_vocab; rewrite !dict_get_set_vocab; simpl; rewrite Hm; simpl;
        by rewrite lookup_app_plus.
  - repeat (apply elem_of_cons in Hk as [->|Hk]); [| |by apply elem_of_nil in Hk].
    + assert (f_src = f) as -> by congruence.
      eexists. split; [|apply Hv].
      rewrite !dict_get_set_vocab; simpl; rewrite Hs; simpl.
      by rewrite lookup_app_plus.
    + assert (f_tgt = f) as -> by congruence.
      eexists. split; [|apply Hv].
      rewrite !dict_get_set_vocab; simpl; rewrite Ht; simpl.
      by apply list_lookup_middle.
Qed.

Lemma dict_get_keys (fields : fields_t) k f : dict_get fields k = Some f → k ∈ fields.*1.
Proof.
  induction fields as [|[k0 f0] fields IH]; simpl; [done|].
  case_bool_decide; [intros _; subst; left|intros ?; right; by apply IH].
Qed.

Lemma count_example_structure keys fields ex counter st counter' st' f :
  "structure" ∈ keys →
  dict_get fields "structure" = Some (Some f) → sequential f = true →
  count_example keys fields ex counter st = (Ok counter', st') →
  ∃ val, ex !! "structure" = Some val ∧ val ≠ VNone.
Proof.
  intros Hin Hf Hseq. revert counter st.
  induction keys as [|k0 keys IH]; intros counter st; simpl.
  { by apply elem_of_nil in Hin. }
  intros (f0 & st1 & [Hf0 ->]%get_field_inv & H)%bind_inv_ok.
  destruct (decide (k0 = "structure")) as [->|Hne].
  - assert (f0 = f) as -> by congruence. rewrite Hseq in H. simpl in H.
    apply bind_inv_ok in H as (c & st2 & Hc & _).
    unfold count_value in Hc. rewrite bool_decide_eq_true_2 in Hc by done.
    destruct (ex !! "structure") as [val|]; simpl in Hc; [|done].
    exists val. split; [done|]. by intros ->.
  - apply elem_of_cons in Hin as [?|Hin]; [done|].
    destruct (sequential f0); simpl in H; [|by eapply IH].
    apply bind_inv_ok in H as (c & st2 & _ & H). by eapply IH.
Qed.

Lemma count_files_structure paths fields counter st counter' st' f path d ex :
  dict_get fields "structure" = Some (Some f) → sequential f = true →
  count_files paths fields counter st = (Ok counter', st') →
  path ∈ paths → files st !! path = Some (DatasetFile d) → ex ∈ examples d →
  ∃ val, ex !! "structure" = Some val ∧ val ≠ VNone.
Proof.
  intros Hf Hseq Hrun Hpath Hd Hex.
  assert (Hexs : ∀ exs counter st counter' st',
            count_examples exs fields counter st = (Ok counter', st') →
            ex ∈ exs → ∃ val, ex !! "structure" = Some val ∧ val ≠ VNone).
  { induction exs as [|ex0 exs IH]; intros c0 st0 c1 st1; simpl.
    - by intros _ ?%elem_of_nil.
    - intros (c & st2 & Hc & H)%bind_inv_ok [->|Hin]%elem_of_cons.
      + eapply count_example_structure; [|done..]. by eapply dict_get_keys.
      + by eapply IH. }
  revert counter st Hrun Hd.
  induction paths as [|path0 paths IH]; intros counter st Hrun Hd; simpl in Hrun.
  { by apply elem_of_nil in Hpath. }
  apply bind_inv_ok in Hrun as (d0 & st1 & Hload & Hrun).
  pose proof (read_only_run _ _ _ _ (read_only_torch_load _) Hload) as ->.
  apply bind_inv_ok in Hrun as (c & st2 & Hc & Hrun).
  pose proof (read_only_run _ _ _ _ (read_only_count_examples _ _ _) Hc) as ->.
  apply elem_of_cons in Hpath as [->|Hpath]; [|by eapply IH].
  unfold torch_load in Hload. rewrite Hd in Hload. injection Hload as <-.
  by eapply Hexs.
Qed.

(** X14. [build_vocab] returns only if every example of every training
    dataset has a [structure] attribute that is not [None], the field
    [structure] being [sequential]: iterating over a missing attribute
    raises. *)
Theorem build_vocab_needs_structure
    (UNK_WORD PAD_WORD BOS_WORD EOS_WORD : string)
    (train_dataset_files : list string) (fields : fields_t) (share_vocab : bool)
    (src_vocab_size src_words_min_frequency tgt_vocab_size tgt_words_min_frequency
     structure_vocab_size structure_words_min_frequency : Z)
    (st : state) (fields' : fields_t) (st' : state)
    (f : Field) (path : string) (d : Dataset) (ex : Example) :
  build_vocab UNK_WORD PAD_WORD BOS_WORD EOS_WORD train_dataset_files fields
    share_vocab src_vocab_size src_words_min_frequency
    tgt_vocab_size tgt_words_min_frequency
    structure_vocab_size structure_words_min_frequency st = (Ok fields', st') →
  dict_get fields "structure" = Some (Some f) → sequential f = true →
  path ∈ train_dataset_files →
  files st !! path = Some (DatasetFile d) →
  ex ∈ examples d →
  ∃ val, ex !! "structure" = Some val ∧ val ≠ VNone.
Proof.
  intros (counter & _ & _ & _ & _ & Hc & _)%build_vocab_result Hf Hseq Hpath Hd Hex.
  by eapply count_files_structure.
Qed.

(** ** Merging vocabularies *)

Lemma count_foldl_counter_add (a : Counter) (cs : list Counter) tok :
  count (foldl counter_add a cs) tok
  = (count a tok + sum_list_with (λ c, count c tok) cs)%nat.
Proof.
  revert a. induction cs as [|c cs IH]; intros a; simpl; [lia|].
  rewrite IH, count_counter_add. lia.
Qed.

Lemma positive_counts_counter_sum cs : positive_counts (counter_sum cs).
Proof.
  unfold counter_sum.
  assert (H : ∀ a, positive_counts a → positive_counts (foldl counter_add a cs)).
  { induction cs as [|c cs IH]; intros a Ha; simpl; [done|].
    apply IH. intros k n. unfold counter_add.
    by intros [_ ?]%map_lookup_filter_Some. }
  apply H. intros k n. by rewrite lookup_empty.
Qed.

Lemma positive_counts_eq (a b : Counter) :
  positive_counts a → positive_counts b →
  (∀ tok, count a tok = count b tok) → a = b.
Proof.
  intros Ha Hb Hcount. apply map_eq. intros k. specialize (Hcount k).
  unfold count in Hcount.
  destruct (a !! k) as [n|] eqn:Ea, (b !! k) as [m|] eqn:Eb; simpl in *.
  - by subst.
  - apply Ha in Ea. lia.
  - apply Hb in Eb. lia.
  - done.
Qed.

Lemma delete_specials_empty (specials : list string) :
  foldl (λ c tok, delete tok c) (∅ : Counter) specials = ∅.
Proof.
  apply map_eq. intros k. rewrite lookup_delete_specials, lookup_empty.
  by case_decide.
Qed.

(** X15. [merge_vocabs] adds up the frequency tables of any number of
    vocabularies: the count of a token in the merged vocabulary is the sum
    of its counts; merging no vocabulary at all gives the vocabulary of the
    four special tokens UNK, PAD, BOS, EOS. *)
Theorem merge_vocabs_adds_counts (UNK_WORD PAD_WORD BOS_WORD EOS_WORD : string)
    (vocabs : list Vocab) (vocab_size : option Z) (min_frequency : Z) :
  (∀ tok,
     count (freqs (merge_vocabs UNK_WORD PAD_WORD BOS_WORD EOS_WORD
                     vocabs vocab_size min_frequency)) tok
     = sum_list_with (λ v, count (freqs v) tok) vocabs)
  ∧ itos (merge_vocabs UNK_WORD PAD_WORD BOS_WORD EOS_WORD [] vocab_size min_frequency)
    = [UNK_WORD; PAD_WORD; BOS_WORD; EOS_WORD].
Proof.
  split.
  - intros tok. unfold merge_vocabs. rewrite freqs_Vocab_init.
    unfold counter_sum. rewrite count_foldl_counter_add, count_empty.
    induction vocabs as [|v vocabs IH]; simpl; [done|]. by rewrite <-IH.
  - unfold merge_vocabs, counter_sum, Vocab_init. cbn [fmap list_fmap foldl itos].
    change (delete EOS_WORD (delete BOS_WORD (delete PAD_WORD (delete UNK_WORD ∅))))
      with (foldl (λ c tok, delete tok c) (∅ : Counter)
              [UNK_WORD; PAD_WORD; BOS_WORD; EOS_WORD]).
    rewrite delete_specials_empty, map_to_list_empty. done.
Qed.

(** X16. The vocabulary [merge_vocabs] returns does not depend on the
    order in which the vocabularies are listed. *)
Theorem merge_vocabs_order_independent
    (UNK_WORD PAD_WORD BOS_WORD EOS_WORD : string)
    (vocabs vocabs' : list Vocab) (vocab_size : option Z) (min_frequency : Z) :
  vocabs ≡ₚ vocabs' →
  merge_vocabs UNK_WORD PAD_WORD BOS_WORD EOS_WORD vocabs vocab_size min_frequency
  = merge_vocabs UNK_WORD PAD_WORD BOS_WORD EOS_WORD vocabs' vocab_size min_frequency.
Proof.
  intros Hperm. unfold merge_vocabs. f_equal.
  apply positive_counts_eq; [apply positive_counts_counter_sum..|].
  intros tok. unfold counter_sum.
  rewrite !count_foldl_counter_add.
  assert (H : ∀ l : list Vocab,
            sum_list_with (λ c, count c tok) (freqs <$> l)
            = sum_list_with (λ v, count (freqs v) tok) l).
  { induction l as [|v l IH]; [done|]. cbn. f_equal. exact IH. }
  rewrite !H. by rewrite Hperm.
Qed.

(** ** The vocabulary text files *)

Lemma first_line_inj (a b r1 r2 : string) :
  single_line a = true → single_line b = true →
  a +:+ String "010"%char r1 = b +:+ String "010"%char r2 → a = b ∧ r1 = r2.
Proof.
  revert b. induction a as [|x a IH]; intros [|y b] Ha Hb;
    rewrite ?string_app_nil, ?string_app_cons; intros Heq.
  - by injection Heq as ->.
  - injection Heq as <- _. by simpl in Hb.
  - injection Heq as -> _. by simpl in Ha.
  - injection Heq as -> Heq. simpl in Ha, Hb.
    apply andb_true_iff in Ha as [_ Ha]. apply andb_true_iff in Hb as [_ Hb].
    destruct (IH b Ha Hb Heq) as [-> ->]. done.
Qed.

Lemma vocab_lines_from_inj (k : nat) (l1 l2 : list string) :
  Forall (λ t, single_line t = true) l1 → Forall (λ t, single_line t = true) l2 →
  file_text ((λ it : nat * string,
               pretty (Z.of_nat it.1) +:+ " " +:+ it.2 +:+ String "010"%char "")
             <$> imap (λ i x, ((k + i)%nat, x)) l1)
  = file_text ((λ it : nat * string,
                 pretty (Z.of_nat it.1) +:+ " " +:+ it.2 +:+ String "010"%char "")
               <$> imap (λ i x, ((k + i)%nat, x)) l2) →
  l1 = l2.
Proof.
  intros H1. revert k l2. induction H1 as [|t1 l1 Ht1 H1 IH]; intros k l2 H2 Heq.
  - destruct H2 as [|t2 l2 Ht2 H2]; [done|]. exfalso.
    cbn in Heq. rewrite !string_app_assoc in Heq.
    apply (f_equal String.length) in Heq. rewrite !string_length_app in Heq.
    simpl in Heq. lia.
  - destruct H2 as [|t2 l2 Ht2 H2].
    { exfalso. cbn in Heq. rewrite !string_app_assoc in Heq.
      apply (f_equal String.length) in Heq. rewrite !string_length_app in Heq.
      simpl in Heq. lia. }
    cbn [imap fmap list_fmap file_text foldr] in Heq. simpl fst in Heq. simpl snd in Heq.
    rewrite !string_app_assoc in Heq.
    apply (inj (String.app _)) in Heq. apply (inj (String.app _)) in Heq.
    rewrite !string_app_cons, !string_app_nil in Heq.
    apply first_line_inj in Heq as [-> Heq]; [|done..].
    assert (Hshift : ∀ l : list string,
              imap ((λ i x, ((k + i)%nat, x)) ∘ S) l
              = imap (λ i x, ((S k + i)%nat, x)) l).
    { intros l. apply imap_ext. intros i x _. simpl. f_equal. lia. }
    rewrite !Hshift in Heq.
    f_equal. apply (IH (S k)); [done|]. exact Heq.
Qed.

(** X17. The text [store_vocab_to_file] writes determines the tokens:
    two vocabularies whose tokens contain no line feed and whose files hold
    the same characters have the same [itos]. *)
Theorem vocab_file_determines_tokens (v1 v2 : Vocab) (path : string)
    (st1 st2 : state) (ls1 ls2 : list string) :
  Forall (λ t, single_line t = true) (itos v1) →
  Forall (λ t, single_line t = true) (itos v2) →
  files (store_vocab_to_file v1 path st1).2 !! path = Some (TextFile ls1) →
  files (store_vocab_to_file v2 path st2).2 !! path = Some (TextFile ls2) →
  file_text ls1 = file_text ls2 →
  itos v1 = itos v2.
Proof.
  intros H1 H2. unfold store_vocab_to_file, writelines, write_file. simpl.
  rewrite !lookup_insert_eq. intros [= <-] [= <-] Heq.
  apply (vocab_lines_from_inj 0); done.
Qed.

(** ** Failures of the vocabulary step *)

(** X18. [build_save_vocab] writes all its files or none: when it
    raises, the file system is as it was, the log apart (the vocabulary
    objects the fields refer to beforehand being in the store). *)
Theorem build_save_vocab_writes_all_or_nothing
    (UNK_WORD PAD_WORD BOS_WORD EOS_WORD : string)
    (train_dataset : list string) (fields : fields_t) (opt : options)
    (st : state) (e : exn) (st' : state) :
  (∀ k l, (k, l) ∈ named_vocabs fields → is_Some (heap st !! l)) →
  build_save_vocab UNK_WORD PAD_WORD BOS_WORD EOS_WORD train_dataset fields opt st
  = (Raise e, st') →
  files st' = files st.
Proof.
  intros Hwf Hrun.
  destruct (build_vocab UNK_WORD PAD_WORD BOS_WORD EOS_WORD train_dataset fields
              (share_vocab opt) (src_vocab_size opt) (src_words_min_frequency opt)
              (tgt_vocab_size opt) (tgt_words_min_frequency opt)
              (structure_vocab_size opt) (structure_words_min_frequency opt) st)
    as [[fields1|e1] st1] eqn:Hbuild.
  - exfalso.
    destruct (build_vocab_post _ _ _ _ _ _ _ _ _ _ _ _ _ _ _ _ Hbuild Hwf)
      as (_ & Hwf1 & [v1 H1] & [v2 H2] & [v3 H3] & [v4 H4]).
    rewrite (build_save_vocab_run _ _ _ _ _ _ _ _ _ _ _ _ _ _
               Hbuild Hwf1 H1 H2 H3 H4) in Hrun.
    discriminate.
  - unfold build_save_vocab in Hrun. erewrite bind_raise in Hrun by exact Hbuild.
    injection Hrun as <- <-.
    by destruct (allocates_build_vocab _ _ _ _ _ _ _ _ _ _ _ _ _ _ _ _ Hbuild).
Qed.

Lemma vocab_error_get_field fields k : raises_only vocab_error (get_field fields k).
Proof.
  intros st e st'. unfold get_field.
  destruct (dict_get fields k) as [[f|]|]; unfold mret, M_ret, raise;
    intros ?; by simplify_eq.
Qed.

Lemma vocab_error_get_vocab fields k : raises_only vocab_error (get_vocab fields k).
Proof.
  unfold get_vocab. apply raises_only_bind; [apply vocab_error_get_field|].
  intros f st e st'. destruct (vocab f); unfold mret, M_ret, raise;
    intros ?; by simplify_eq.
Qed.

Lemma vocab_error_load l : raises_only vocab_error (load l).
Proof.
  intros st e st'. unfold load. destruct (heap st !! l); intros ?; by simplify_eq.
Qed.

Lemma vocab_error_get_counter counter k : raises_only vocab_error (get_counter counter k).
Proof.
  intros st e st'. unfold get_counter.
  destruct (counter !! k); unfold mret, M_ret, raise; intros ?; by simplify_eq.
Qed.

Lemma vocab_error_build_field_vocab fields k c max_size min_freq :
  raises_only vocab_error (build_field_vocab fields k c max_size min_freq).
Proof.
  unfold build_field_vocab.
  apply raises_only_bind; [apply vocab_error_get_field|intros f].
  apply raises_only_bind; [by intros ????|intros l; apply raises_only_ret].
Qed.

Lemma vocab_error_count_example keys fields ex counter :
  raises_only vocab_error (count_example keys fields ex counter).
Proof.
  revert counter. induction keys as [|k keys IH]; intros counter; simpl.
  - apply raises_only_ret.
  - apply raises_only_bind; [apply vocab_error_get_field|intros f].
    destruct (sequential f); simpl; [|apply IH].
    apply raises_only_bind; [|intros c; apply IH].
    intros st e st'. unfold count_value.
    case_bool_decide; destruct (default VNone (ex !! k)) as [| |[]];
      unfold mret, M_ret, raise; intros ?; by simplify_eq.
Qed.

Lemma vocab_error_count_files paths fields counter st e st' :
  (∀ p, p ∈ paths → ∃ d, files st !! p = Some (DatasetFile d)) →
  count_files paths fields counter st = (Raise e, st') → vocab_error e.
Proof.
  assert (Hexs : ∀ exs counter,
            raises_only vocab_error (count_examples exs fields counter)).
  { induction exs as [|ex exs IH]; intros c0; simpl.
    - apply raises_only_ret.
    - apply raises_only_bind; [apply vocab_error_count_example|intros c; apply IH]. }
  revert counter. induction paths as [|path paths IH]; intros counter Hpaths; simpl.
  - by intros ?.
  - destruct (Hpaths path) as [d Hd]; [left|].
    erewrite bind_ok by (unfold torch_load; by rewrite Hd).
    destruct (count_examples (examples d) fields counter st) as [[c|e1] st1] eqn:E.
    + pose proof (read_only_run _ _ _ _ (read_only_count_examples _ _ _) E) as ->.
      erewrite bind_ok by exact E. apply IH. intros p Hp. apply Hpaths. by right.
    + erewrite bind_raise by exact E. intros [= <- <-]. by eapply Hexs.
Qed.

Lemma vocab_error_build_save_vocab
    (UNK_WORD PAD_WORD BOS_WORD EOS_WORD : string)
    (train_dataset : list string) (fields : fields_t) (opt : options)
    (st : state) (e : exn) (st' : state) :
  (∀ p, p ∈ train_dataset → ∃ d, files st !! p = Some (DatasetFile d)) →
  build_save_vocab UNK_WORD PAD_WORD BOS_WORD EOS_WORD train_dataset fields opt st
  = (Raise e, st') →
  vocab_error e.
Proof.
  intros Hpaths. unfold build_save_vocab.
  assert (Hsave : ∀ F, raises_only vocab_error (save_fields_to_vocab F)).
  { intros F. unfold save_fields_to_vocab. generalize (@nil (string * loc)).
    induction F as [|[k [[? ? ? ? ? [l|]]|]] F IH]; intros acc; simpl;
      [apply raises_only_ret| |apply IH..].
    apply raises_only_bind; [apply vocab_error_load|intros v].
    apply raises_only_bind; [by intros ????|intros _; apply IH]. }
  assert (Hpickle : ∀ vs, raises_only vocab_error (pickle_vocab vs)).
  { induction vs as [|[k l] vs IH]; simpl; [apply raises_only_ret|].
    apply raises_only_bind; [apply vocab_error_load|intros v].
    apply raises_only_bind; [apply IH|intros ?; apply raises_only_ret]. }
  assert (Hstore : ∀ F k path (m : M unit),
            raises_only vocab_error m →
            raises_only vocab_error
              (v ← (get_vocab F k ≫= load); store_vocab_to_file v path ;; m)).
  { intros F k path m Hm.
    apply raises_only_bind.
    { apply raises_only_bind; [apply vocab_error_get_vocab|intros l].
      apply vocab_error_load. }
    intros v. apply raises_only_bind; [by intros ????|by intros _]. }
  destruct (build_vocab UNK_WORD PAD_WORD BOS_WORD EOS_WORD train_dataset fields
              (share_vocab opt) (src_vocab_size opt) (src_words_min_frequency opt)
              (tgt_vocab_size opt) (tgt_words_min_frequency opt)
              (structure_vocab_size opt) (structure_words_min_frequency opt) st)
    as [[fields1|e1] st1] eqn:Hbuild.
  - erewrite bind_ok by exact Hbuild. clear Hbuild. revert st1 e st'.
    apply raises_only_bind; [apply Hsave|intros vocab].
    apply raises_only_bind.
    { unfold torch_save_vocab. apply raises_only_bind; [apply Hpickle|].
      by intros ?????. }
    intros _. do 3 apply Hstore.
    apply raises_only_bind.
    { apply raises_only_bind; [apply vocab_error_get_vocab|intros l].
      apply vocab_error_load. }
    by intros ?????.
  - erewrite bind_raise by exact Hbuild. intros [= -> ->].
    revert Hbuild. unfold build_vocab.
    destruct (count_files train_dataset fields (empty_counters fields) st)
      as [[counter|e0] st0] eqn:Hcount.
    + erewrite bind_ok by exact Hcount. clear Hcount. revert st0 e st'.
      repeat first
        [ apply raises_only_ret
        | apply vocab_error_get_field
        | apply vocab_error_get_counter
        | apply vocab_error_build_field_vocab
        | apply vocab_error_get_vocab
        | apply vocab_error_load
        | apply raises_only_bind; [|intros ?] ].
      destruct (share_vocab opt); [|apply raises_only_ret].
      repeat first
        [ apply raises_only_ret
        | apply vocab_error_get_vocab
        | apply vocab_error_load
        | by intros ????
        | apply raises_only_bind; [|intros ?] ].
    + erewrite bind_raise by exact Hcount. intros [= <- <-].
      by eapply vocab_error_count_files.
Qed.

(** X19. In [main] the vocabulary step finds every dataset file of the
    training step: after both dataset steps have returned, each path of the
    training list still names a dataset file, so [build_save_vocab] can only
    fail with a [TypeError], [AttributeError] or [KeyError], never for
    a dataset file that is missing or unreadable. *)
Theorem vocabulary_step_finds_its_datasets build_dataset get_fields
    (UNK_WORD PAD_WORD BOS_WORD EOS_WORD : string)
    (opt : options) (st : state)
    (train_dataset_files valid_dataset_files : list string) (st1 st2 : state) :
  build_save_dataset build_dataset "train" get_fields opt st
  = (Ok train_dataset_files, st1) →
  build_save_dataset build_dataset "valid" get_fields opt st1
  = (Ok valid_dataset_files, st2) →
  (∀ p, p ∈ train_dataset_files →
     ∃ d, files st2 !! p = Some (DatasetFile d) ∧ ds_fields d = [])
  ∧ ∀ e st3,
      build_save_vocab UNK_WORD PAD_WORD BOS_WORD EOS_WORD
        train_dataset_files get_fields opt st2 = (Raise e, st3) →
      vocab_error e.
Proof.
  intros Htrain Hvalid.
  assert (Hfiles : ∀ p, p ∈ train_dataset_files →
            ∃ d, files st2 !! p = Some (DatasetFile d) ∧ ds_fields d = []).
  { intros p Hp.
    destruct (frames_build_save_dataset _ _ _ _ _ _ _ Hvalid) as [_ Hframe].
    rewrite Hframe.
    - by eapply build_save_dataset_saved.
    - apply train_file_not_touched_by_valid. by eapply build_save_dataset_ret. }
  split; [done|]. intros e st3. apply vocab_error_build_save_vocab.
  intros p Hp. destruct (Hfiles p Hp) as (d & Hd & _). eauto.
Qed.

(** ** The files [main] touches *)

Lemma writes_only_bind {A B} Q (m : M A) (k : A → M B) :
  writes_only Q m → (∀ a, writes_only Q (k a)) → writes_only Q (m ≫= k).
Proof.
  intros Hm Hk st o st'. unfold mbind, M_bind.
  destruct (m st) as [[a|e] st1] eqn:E; intros H p Hp.
  - rewrite (Hk _ _ _ _ H p Hp). by eapply Hm.
  - injection H as <- <-. by eapply Hm.
Qed.

Lemma writes_only_frames {A} (Q Q' : string → Prop) (m : M A) :
  (∀ p, Q p → Q' p) → frames Q m → writes_only Q' m.
Proof.
  intros HQ Hm st o st' H p Hp. destruct (Hm _ _ _ H) as [_ Hf]. apply Hf. auto.
Qed.

Lemma writes_only_allocates {A} Q (n : nat) (m : M A) :
  allocates n m → writes_only Q m.
Proof. intros Hm st o st' H p _. destruct (Hm _ _ _ H) as [-> _]. done. Qed.

Lemma writes_only_read_only {A} Q (m : M A) : read_only m → writes_only Q m.
Proof. intros Hm st o st' ->%(read_only_run _ _ _ _ Hm) p _. done. Qed.

Lemma writes_only_write_file (Q : string → Prop) path f :
  Q path → writes_only Q (write_file path f).
Proof.
  intros HQ st o st'. unfold write_file. intros [= _ <-] p Hp. simpl.
  apply lookup_insert_ne. by intros ->.
Qed.

Lemma writes_only_save_fields_to_vocab Q fields :
  writes_only Q (save_fields_to_vocab fields).
Proof.
  unfold save_fields_to_vocab. generalize (@nil (string * loc)).
  induction fields as [|[k [[? ? ? ? ? [l|]]|]] fields IH]; intros acc; simpl;
    [by apply writes_only_read_only| |apply IH..].
  apply writes_only_bind; [apply writes_only_read_only, read_only_load|intros v].
  apply writes_only_bind; [|intros _; apply IH].
  intros st o st'. unfold store. by intros [= _ <-].
Qed.

Lemma writes_only_build_save_vocab (Q : string → Prop)
    (UNK_WORD PAD_WORD BOS_WORD EOS_WORD : string)
    (train_dataset : list string) (fields : fields_t) (opt : options) :
  (∀ p, p ∈ vocab_outputs (save_data opt) → Q p) →
  writes_only Q
    (build_save_vocab UNK_WORD PAD_WORD BOS_WORD EOS_WORD train_dataset fields opt).
Proof.
  intros HQ. unfold build_save_vocab.
  assert (Hload : ∀ F k, writes_only Q (get_vocab F k ≫= load)).
  { intros F k. apply writes_only_read_only, read_only_bind.
    - apply read_only_get_vocab.
    - intros l. apply read_only_load. }
  assert (Hstore : ∀ v path, path ∈ vocab_outputs (save_data opt) →
            writes_only Q (store_vocab_to_file v path)).
  { intros v path Hpath. apply writes_only_write_file. by apply HQ. }
  apply writes_only_bind.
  { eapply writes_only_allocates, allocates_build_vocab. }
  intros F. apply writes_only_bind; [apply writes_only_save_fields_to_vocab|].
  intros vocab. apply writes_only_bind.
  { unfold torch_save_vocab. apply writes_only_bind.
    - apply writes_only_read_only. induction vocab as [|[k l] vocab IH]; simpl.
      + apply read_only_ret.
      + apply read_only_bind; [apply read_only_load|intros v].
        apply read_only_bind; [apply IH|intros ?; apply read_only_ret].
    - intros content. apply writes_only_write_file, HQ. by left. }
  intros _.
  apply writes_only_bind; [apply Hload|intros v1].
  apply writes_only_bind; [apply Hstore; right; by left|intros _].
  apply writes_only_bind; [apply Hload|intros v2].
  apply writes_only_bind; [apply Hstore; do 2 right; by left|intros _].
  apply writes_only_bind; [apply Hload|intros v3].
  apply writes_only_bind; [apply Hstore; do 3 right; by left|intros _].
  apply writes_only_bind; [apply Hload|intros v4].
  apply Hstore. do 4 right. by left.
Qed.

(** X20. Whatever its outcome, [main] creates, replaces or deletes no
    file other than files with the extension [.txt], the dataset files of
    the corpus types ['train'] and ['valid'], and the five vocabulary files
    [save_data_vocab.pt], [_src_vocab], [_tgt_vocab], [_structure_vocab]
    and [_mask_vocab] (and the log file, which is not modelled). *)
Theorem main_touches_only_its_outputs build_dataset get_fields
    (UNK_WORD PAD_WORD BOS_WORD EOS_WORD : string) (opt : options) :
  writes_only (main_output opt)
    (main build_dataset get_fields UNK_WORD PAD_WORD BOS_WORD EOS_WORD opt).
Proof.
  unfold main. case_bool_decide.
  { by intros st o st' [= _ <-]. }
  apply writes_only_bind.
  { eapply writes_only_frames, frames_build_save_dataset. intros p ?. by left. }
  intros train_dataset_files. apply writes_only_bind.
  { eapply writes_only_frames, frames_build_save_dataset. intros p ?. right. by left. }
  intros _. apply writes_only_build_save_vocab. intros p ?. do 2 right. done.
Qed.

(** ** Corpora that are not four different files *)

Lemma os_remove_inv_Some path st u st' :
  os_remove path st = (Ok u, st') →
  is_Some (files st !! path) ∧ st' = set_files (delete path) st.
Proof.
  unfold os_remove. destruct (files st !! path) as [f|]; [|done].
  intros [= _ <-]. eauto.
Qed.

(** Four files that are removed one after the other are four different
    files. *)
Lemma removed_files_NoDup (a b c d : string) (st0 st1 st2 st3 st4 : state) :
  os_remove a st0 = (Ok (), st1) → os_remove b st1 = (Ok (), st2) →
  os_remove c st2 = (Ok (), st3) → os_remove d st3 = (Ok (), st4) →
  NoDup [a; b; c; d].
Proof.
  intros [_ ->]%os_remove_inv_Some [[fb Hb] ->]%os_remove_inv_Some
         [[fc Hc] ->]%os_remove_inv_Some [[fd Hd] _]%os_remove_inv_Some.
  cbn [files set_files] in Hb, Hc, Hd.
  assert (Hgone : ∀ (x y : string) (fs : gmap string file) f,
            delete x fs !! y = Some f → x ≠ y ∧ fs !! y = Some f).
  { intros x y fs f H. destruct (decide (x = y)) as [->|Hne].
    - by rewrite lookup_delete_eq in H.
    - by rewrite lookup_delete_ne in H. }
  apply Hgone in Hb as [Hab _].
  apply Hgone in Hc as [Hbc Hc]. apply Hgone in Hc as [Hac _].
  apply Hgone in Hd as [Hcd Hd]. apply Hgone in Hd as [Hbd Hd].
  apply Hgone in Hd as [Had _].
  repeat (apply NoDup_cons; split); try apply NoDup_nil_2;
    rewrite ?elem_of_cons, ?elem_of_nil; intros ?; tauto.
Qed.

Lemma shard_count_pos (N sz : nat) : (0 < N)%nat → (0 < sz)%nat → (0 < shard_count N sz)%nat.
Proof.
  intros HN Hsz. unfold shard_count. case_decide as Hmod; [|lia].
  pose proof (Nat.div_mod_eq N sz). nia.
Qed.

(** X21. The four corpora have to be four different paths: when two of
    them are the same path and there is at least one example, the sharded
    function does not return normally but raises, at the latest when it
    removes the same text shard for the second time. *)
Theorem equal_corpus_paths_abort build_dataset
    (src_corpus tgt_corpus structure_corpus mask_corpus : string)
    (fields : fields_t) (corpus_type : string) (opt : options) (st : state)
    (src_file tgt_file structure_file mask_file : list string) :
  let paths := [src_corpus; tgt_corpus; structure_corpus; mask_corpus] in
  0 < shard_size opt →
  files st !! src_corpus = Some (TextFile src_file) →
  files st !! tgt_corpus = Some (TextFile tgt_file) →
  files st !! structure_corpus = Some (TextFile structure_file) →
  files st !! mask_corpus = Some (TextFile mask_file) →
  zip4 src_file tgt_file structure_file mask_file ≠ [] →
  ¬ NoDup paths →
  ∃ e st',
    build_save_in_shards_using_shards_size build_dataset
      src_corpus tgt_corpus structure_corpus mask_corpus fields corpus_type opt st
    = (Raise e, st').
Proof.
  intros paths Hpos H1 H2 H3 H4 Hrows Hdup.
  destruct (build_save_in_shards_using_shards_size build_dataset
              src_corpus tgt_corpus structure_corpus mask_corpus
              fields corpus_type opt st) as [[ret|e] st'] eqn:Hrun; [|eauto].
  exfalso. apply Hdup. clear Hdup.
  unfold build_save_in_shards_using_shards_size in Hrun.
  pose proof (read_corpora_run _ _ _ _ _ _ _ _ _ H1 H2 H3 H4) as Hread.
  cbv zeta in Hread.
  destruct (decide (Forall well_sized
                      (zip4 src_file tgt_file structure_file mask_file)));
    [|by erewrite bind_raise in Hrun by exact Hread].
  erewrite bind_ok in Hrun by exact Hread. clear Hread.
  set (rows := zip4 src_file tgt_file structure_file mask_file) in *.
  erewrite bind_ok in Hrun by apply check_lengths_rows.
  erewrite bind_ok in Hrun; cycle 1.
  { apply split_shards_run; [done|].
    apply columns_cases; unfold corpora_of_rows; simpl; by rewrite !length_fmap. }
  replace (length (src_data (corpora_of_rows rows))) with (length rows) in Hrun
    by (unfold corpora_of_rows; simpl; by rewrite !length_fmap).
  set (n := shard_count (length rows) (Z.to_nat (shard_size opt))) in Hrun.
  set (st1 := mkState _ (heap st)) in Hrun.
  assert (Hn : (0 < n)%nat).
  { apply shard_count_pos; [|lia]. destruct rows; [done|simpl; lia]. }
  set (L := λ c : string,
         merge_sort String.le
           (filter (λ p, glob_match c p = true) (elements (dom (files st1))))).
  assert (Hglob : ∀ c, sorted_glob c st1 = (Ok (L c), st1)) by done.
  rewrite !(bind_ok _ _ _ _ _ (Hglob _)) in Hrun.
  assert (Hsrc : shard_txt src_corpus 0 ∈ L src_corpus).
  { unfold L. rewrite merge_sort_Permutation.
    apply list_elem_of_filter. split; [apply glob_match_shard_txt|].
    apply elem_of_elements, elem_of_dom.
    destruct (split_files_lookup src_corpus tgt_corpus structure_corpus mask_corpus
                (chunk (corpora_of_rows rows) (Z.to_nat (shard_size opt)))
                (files st) n (shard_txt src_corpus 0)) as [Hin _].
    destruct Hin as [ls Hls]; [|by eexists].
    apply elem_of_shard_names. exists src_corpus, 0%nat. split; [left|]. done. }
  destruct (L src_corpus) as [|s0 rest] eqn:HL1; [by apply elem_of_nil in Hsrc|].
  cbn [enumerate imap build_shards] in Hrun.
  unfold make_text_iterator_from_file in Hrun.
  apply bind_inv_ok in Hrun as (src_iter & ? & [_ ->]%read_lines_inv & Hrun).
  apply bind_inv_ok in Hrun as (t0 & ? & [Ht ->]%list_index_inv & Hrun).
  apply bind_inv_ok in Hrun as (tgt_iter & ? & [_ ->]%read_lines_inv & Hrun).
  apply bind_inv_ok in Hrun as (u0 & ? & [Hu ->]%list_index_inv & Hrun).
  apply bind_inv_ok in Hrun as (structure_iter & ? & [_ ->]%read_lines_inv & Hrun).
  apply bind_inv_ok in Hrun as (m0 & ? & [Hm ->]%list_index_inv & Hrun).
  apply bind_inv_ok in Hrun as (mask_iter & ? & [_ ->]%read_lines_inv & Hrun).
  apply bind_inv_ok in Hrun as ([] & st_a & _ & Hrun).
  apply bind_inv_ok in Hrun as ([] & st_b & Hr1 & Hrun).
  apply bind_inv_ok in Hrun as ([] & st_c & Hr2 & Hrun).
  apply bind_inv_ok in Hrun as ([] & st_d & Hr3 & Hrun).
  apply bind_inv_ok in Hrun as ([] & st_e & Hr4 & _).
  pose proof (removed_files_NoDup _ _ _ _ _ _ _ _ _ Hr1 Hr2 Hr3 Hr4) as Hnd.
  assert (Hs : L src_corpus !! 0%nat = Some s0) by (by rewrite HL1).
  clear -Hnd Hs Ht Hu Hm.
  assert (Hne : ∀ c c' x x', L c !! 0%nat = Some x → L c' !! 0%nat = Some x' →
            x ≠ x' → c ≠ c').
  { intros c c' x x' Hx Hx' Hxx ->. congruence. }
  apply NoDup_cons in Hnd as [Hn1 Hnd]. apply NoDup_cons in Hnd as [Hn2 Hnd].
  apply NoDup_cons in Hnd as [Hn3 _].
  assert (src_corpus ≠ tgt_corpus)
    by (eapply Hne; [done..|]; intros ->; apply Hn1; left).
  assert (src_corpus ≠ structure_corpus)
    by (eapply Hne; [done..|]; intros ->; apply Hn1; right; left).
  assert (src_corpus ≠ mask_corpus)
    by (eapply Hne; [done..|]; intros ->; apply Hn1; do 2 right; left).
  assert (tgt_corpus ≠ structure_corpus)
    by (eapply Hne; [done..|]; intros ->; apply Hn2; left).
  assert (tgt_corpus ≠ mask_corpus)
    by (eapply Hne; [done..|]; intros ->; apply Hn2; right; left).
  assert (structure_corpus ≠ mask_corpus)
    by (eapply Hne; [done..|]; intros ->; apply Hn3; left).
  unfold paths.
  repeat (apply NoDup_cons; split); try apply NoDup_nil_2;
    rewrite ?elem_of_cons, ?elem_of_nil; tauto.
Qed.

(** ** The vocabularies that are saved *)

Lemma named_vocabs_fmap_keys (h : string * option Field → string * option Field)
    (P : string → Prop) `{!∀ k, Decision (P k)} (F : fields_t) :
  (∀ kf, kf ∈ F → (h kf).1 = kf.1 ∧ (is_Some ((h kf).2 ≫= vocab) ↔ P kf.1)) →
  (named_vocabs (h <$> F)).*1 = filter P F.*1.
Proof.
  induction F as [|kf F IH]; intros HF; [done|].
  destruct (HF kf) as [Hkey Hvocab]; [left|].
  assert (IH' : (named_vocabs (h <$> F)).*1 = filter P F.*1)
    by (apply IH; intros kf' ?; apply HF; by right).
  clear IH. cbn [fmap list_fmap]. rewrite filter_cons.
  unfold named_vocabs in *. cbn [omap list_omap].
  destruct ((h kf).2 ≫= vocab) as [l|] eqn:E.
  - rewrite decide_True by (apply Hvocab; eauto). cbn [fmap list_fmap fst].
    cbn. cbn in IH'. by rewrite Hkey, <-IH'.
  - rewrite decide_False by (intros HP; apply Hvocab in HP as [? ?]; done).
    cbn. cbn in IH'. by rewrite <-IH'.
Qed.

Lemma dict_get_NoDup (fields : fields_t) k f :
  NoDup fields.*1 → (k, f) ∈ fields → dict_get fields k = Some f.
Proof.
  induction fields as [|[k0 f0] fields IH]; intros Hnd Hin; [by apply elem_of_nil in Hin|].
  rewrite fmap_cons in Hnd. apply NoDup_cons in Hnd as [Hk0 Hnd]. simpl.
  apply elem_of_cons in Hin as [[= -> ->]|Hin].
  - by rewrite bool_decide_eq_true_2.
  - rewrite bool_decide_eq_false_2; [by apply IH|].
    intros ->. apply Hk0. apply list_elem_of_fmap. by exists (k, f).
Qed.

Lemma named_vocabs_nil (fields : fields_t) kf :
  named_vocabs fields = [] → kf ∈ fields → kf.2 ≫= vocab = None.
Proof.
  intros Hnil Hin. destruct (kf.2 ≫= vocab) as [l|] eqn:E; [|done].
  assert (Hl : (kf.1, l) ∈ named_vocabs fields).
  { unfold named_vocabs. apply list_elem_of_omap. exists kf. split; [done|].
    by rewrite E. }
  rewrite Hnil in Hl. by apply elem_of_nil in Hl.
Qed.

Lemma sets_vocab_of_step (k : string) (l : loc) :
  sets_vocab_of (λ x, x = k)
    (λ kf : string * option Field,
       if bool_decide (kf.1 = k) then (kf.1, with_vocab l <$> kf.2) else kf).
Proof.
  intros [k0 f0]. simpl. case_bool_decide as Hk; simpl.
  - split; [done|]. split; [by rewrite fmap_is_Some|].
    destruct f0 as [f0|]; simpl.
    + split; [intros _; left; eauto|eauto].
    + split; [by intros [? ?]|]. intros [[_ [? ?]]|[? ?]]; done.
  - split; [done|]. split; [done|]. split; [by right|]. by intros [[? _]|?].
Qed.

Lemma sets_vocab_of_compose (P1 P2 : string → Prop) h1 h2 :
  sets_vocab_of P1 h1 → sets_vocab_of P2 h2 →
  sets_vocab_of (λ x, P2 x ∨ P1 x) (h2 ∘ h1).
Proof.
  intros H1 H2 kf. simpl.
  destruct (H1 kf) as (K1 & S1 & V1), (H2 (h1 kf)) as (K2 & S2 & V2).
  split; [congruence|]. split; [by rewrite S2|].
  rewrite V2, V1, K1, S1. tauto.
Qed.

(** X22. When [build_vocab] returns on a dictionary of fields (its keys
    are distinct) that had no vocabulary yet, [save_fields_to_vocab]
    applied to the result returns one pair for each of
    "src", "tgt", "structure" and "mask" and for no other field, in the
    order of the dictionary, and every vocabulary it names was created by
    this run of [build_vocab]; the state is left as it is. *)
Theorem saved_vocabularies_are_the_four_fields
    (UNK_WORD PAD_WORD BOS_WORD EOS_WORD : string)
    (train_dataset_files : list string) (fields : fields_t) (share_vocab : bool)
    (src_vocab_size src_words_min_frequency tgt_vocab_size tgt_words_min_frequency
     structure_vocab_size structure_words_min_frequency : Z)
    (st : state) (fields' : fields_t) (st' : state) :
  build_vocab UNK_WORD PAD_WORD BOS_WORD EOS_WORD train_dataset_files fields
    share_vocab src_vocab_size src_words_min_frequency
    tgt_vocab_size tgt_words_min_frequency
    structure_vocab_size structure_words_min_frequency st = (Ok fields', st') →
  NoDup fields.*1 →
  named_vocabs fields = [] →
  ∃ vocab,
    save_fields_to_vocab fields' st' = (Ok vocab, st')
    ∧ vocab.*1 = filter (λ k, k ∈ vocab_fields) fields.*1
    ∧ ∀ k l, (k, l) ∈ vocab → (length (heap st) ≤ l < length (heap st'))%nat.
Proof.
  intros Hbuild Hnodup Hnone.
  assert (Hwf : ∀ k l, (k, l) ∈ named_vocabs fields → is_Some (heap st !! l)).
  { intros k l Hin. rewrite Hnone in Hin. by apply elem_of_nil in Hin. }
  destruct (build_vocab_post _ _ _ _ _ _ _ _ _ _ _ _ _ _ _ _ Hbuild Hwf)
    as (_ & Hwf' & _).
  exists (named_vocabs fields'). split; [|split].
  - unfold save_fields_to_vocab.
    by rewrite (save_fields_to_vocab_loop_run _ _ _ Hwf').
  - apply build_vocab_result in Hbuild
      as (counter & f_src & f_tgt & f_structure & f_mask
          & _ & Hs & Ht & Hst & Hm & _ & _ & ->).
    assert (Hentry : ∀ kf, kf ∈ fields → kf.1 ∈ vocab_fields → is_Some kf.2).
    { intros [k f] Hin Hk. apply (dict_get_NoDup _ _ _ Hnodup) in Hin.
      unfold vocab_fields in Hk. simpl in *.
      repeat (apply elem_of_cons in Hk as [->|Hk]); [| | | |by apply elem_of_nil in Hk];
        rewrite Hin in *; simplify_eq; eauto. }
    assert (Hkeys : ∀ (P : string → Prop) h,
              sets_vocab_of P h → (∀ k, P k ↔ k ∈ vocab_fields) →
              (named_vocabs (h <$> fields)).*1
              = filter (λ k, k ∈ vocab_fields) fields.*1).
    { intros P h Hh HP. apply named_vocabs_fmap_keys. intros kf Hin.
      destruct (Hh kf) as (K & S & V). split; [done|].
      rewrite V, (named_vocabs_nil _ _ Hnone Hin), HP. split.
      - intros [[? _]|[? ?]]; done.
      - intros Hk. left. split; [done|]. by apply Hentry. }
    destruct share_vocab; unfold set_vocab; rewrite <-!list_fmap_compose.
    + eapply Hkeys.
      * repeat first [simple apply sets_vocab_of_step
                     |simple apply sets_vocab_of_compose].
      * intros k. unfold vocab_fields. rewrite !elem_of_cons, elem_of_nil. tauto.
    + eapply Hkeys.
      * repeat first [simple apply sets_vocab_of_step
                     |simple apply sets_vocab_of_compose].
      * intros k. unfold vocab_fields. rewrite !elem_of_cons, elem_of_nil. tauto.
  - intros k l Hin.
    apply build_vocab_result in Hbuild
      as (counter & f_src & f_tgt & f_structure & f_mask
          & _ & _ & _ & _ & _ & _ & Hheap & ->).
    rewrite Hheap, length_app.
    destruct share_vocab;
      repeat (apply named_vocabs_set_vocab in Hin as [->|Hin]; [simpl; lia|]);
      rewrite Hnone in Hin; by apply elem_of_nil in Hin.
Qed.

(** * The further properties at the small instance *)

Lemma not_ends_txt (p : string) : strip_suffix ".txt" p = None → ¬ ends_txt p.
Proof. intros H [q ->]. by rewrite strip_suffix_app in H. Qed.

Lemma demo_untrained :
  Demo.untrained = (Ok Demo.untrained_fields, Demo.untrained_state).
Proof. vm_compute. reflexivity. Qed.

Lemma returned_paths_are_saved_datasets_witness :
  NoDup (Demo.train_files 2 3)
  ∧ ∃ d, files (Demo.after_train 2 3) !! "out/d_train.1.pt" = Some (DatasetFile d)
         ∧ ds_fields d = [].
Proof.
  destruct (returned_paths_are_saved_datasets _ _ _ _ _ _ _ demo_train)
    as [Hnodup Hsaved].
  split; [exact Hnodup|]. apply Hsaved. vm_compute. right. left.
Defined.

Lemma build_save_dataset_leaves_other_files_witness :
  heap (Demo.after_datasets 2 3) = heap (Demo.after_train 2 3)
  ∧ files (Demo.after_datasets 2 3) !! "train.src"
    = files (Demo.after_train 2 3) !! "train.src".
Proof.
  destruct (build_save_dataset_leaves_other_files _ _ _ _ _ _ _ demo_valid)
    as [Hheap Hfiles].
  split; [exact Hheap|]. apply Hfiles.
  - apply not_ends_txt. vm_compute. reflexivity.
  - intros i. vm_compute. discriminate.
  - vm_compute. discriminate.
Defined.

Lemma missing_corpus_raises_before_output_witness :
  build_save_in_shards_using_shards_size Demo.build_dataset
    "train.src" "train.tgt" "train.structure" "train.mask"
    Demo.fields "train" (Demo.opt 2 false) Demo.without_tgt
  = (Raise (FileNotFoundError "train.tgt"), Demo.without_tgt).
Proof.
  apply (missing_corpus_raises_before_output Demo.build_dataset
           "train.src" "train.tgt" "train.structure" "train.mask"
           Demo.fields "train" (Demo.opt 2 false) Demo.without_tgt 1 "train.tgt").
  - reflexivity.
  - vm_compute. reflexivity.
  - intros j q' Hj Hq'. destruct j as [|j]; [|lia]. injection Hq' as <-.
    exists (replicate 2 Demo.src_line). vm_compute. reflexivity.
Defined.

Lemma build_save_dataset_exceptions_witness :
  build_save_dataset Demo.build_dataset "test" Demo.fields (Demo.opt 2 true)
    (Demo.initial 3)
  = (Raise (AssertionError None), Demo.initial 3)
  ∧ dataset_error (AssertionError None).
Proof.
  assert (Hrun : build_save_dataset Demo.build_dataset "test" Demo.fields
                   (Demo.opt 2 true) (Demo.initial 3)
                 = (Raise (AssertionError None), Demo.initial 3))
    by (vm_compute; reflexivity).
  split; [exact Hrun|].
  exact (build_save_dataset_exceptions _ _ _ _ _ _ _ Hrun).
Defined.

Lemma empty_corpus_gives_no_shard_witness :
  build_save_in_shards_using_shards_size Demo.build_dataset
    "train.src" "train.tgt" "train.structure" "train.mask"
    Demo.fields "train" (Demo.opt 2 false) (Demo.initial 0)
  = (Ok [], Demo.initial 0).
Proof.
  apply (empty_corpus_gives_no_shard Demo.build_dataset
           "train.src" "train.tgt" "train.structure" "train.mask"
           Demo.fields "train" (Demo.opt 2 false) (Demo.initial 0) [] [] [] []).
  - simpl. lia.
  - reflexivity.
  - reflexivity.
  - reflexivity.
  - reflexivity.
  - left.
  - vm_compute. reflexivity.
Defined.

Lemma eleventh_shard_is_numbered_two_witness :
  let rows := replicate 11 Demo.row in
  let c := chunk (corpora_of_rows rows) 1 10 in
  ∃ ret st',
    build_save_in_shards_using_shards_size Demo.build_dataset
      "train.src" "train.tgt" "train.structure" "train.mask"
      Demo.fields "train" (Demo.opt 1 false) (Demo.initial 11)
    = (Ok ret, st')
    ∧ ret !! 2%nat = Some (shard_pt "out/d" "train" 2)
    ∧ files st' !! shard_pt "out/d" "train" 2
      = Some (DatasetFile
                (mkDataset
                   (examples
                      (Demo.build_dataset Demo.fields (src_data c) (tgt_data c)
                         (structure_data c) (mask_data c) 50 50 0 0))
                   [])).
Proof.
  apply (eleventh_shard_is_numbered_two Demo.build_dataset
           "train.src" "train.tgt" "train.structure" "train.mask"
           Demo.fields "train" (Demo.opt 1 false) (Demo.initial 11)
           (replicate 11 Demo.src_line) (replicate 11 Demo.tgt_line)
           (replicate 11 Demo.structure_line) (replicate 11 Demo.mask_line)).
  - simpl. lia.
  - reflexivity.
  - reflexivity.
  - reflexivity.
  - reflexivity.
  - change (Forall well_sized (replicate 11 Demo.row)).
    apply Forall_replicate, demo_row_well_sized.
  - intros c Hc.
    repeat (apply elem_of_cons in Hc as [->|Hc]; [vm_compute; reflexivity|]).
    by apply elem_of_nil in Hc.
  - apply (bool_decide_unpack _). vm_compute. exact I.
  - intros c c' x Hc Hc' Hne.
    repeat (apply elem_of_cons in Hc as [->|Hc]);
      try (by apply elem_of_nil in Hc);
      repeat (apply elem_of_cons in Hc' as [->|Hc']);
      try (by apply elem_of_nil in Hc');
      try done; vm_compute; reflexivity.
  - vm_compute. lia.
Defined.

Lemma field_specials_distinct_in_order_witness :
  NoDup (field_specials Demo.f_tgt)
  ∧ head (field_specials Demo.f_tgt) = Some "<unk>".
Proof.
  destruct (field_specials_distinct_in_order Demo.f_tgt) as (Hnd & _ & _ & Hhead).
  exact (conj Hnd Hhead).
Defined.

Lemma demo_src_built :
  build_field_vocab Demo.fields "src" Demo.small_counter 1 2 Demo.empty
  = (Ok (set_vocab "src" 0 Demo.fields), Demo.src_built).
Proof. apply (build_field_vocab_run Demo.fields "src" Demo.f_plain). reflexivity. Qed.

Lemma build_field_vocab_filters_witness :
  ∃ v words,
    field_vocab (set_vocab "src" 0 Demo.fields) Demo.src_built "src" = Some v
    ∧ itos v = field_specials Demo.f_plain ++ words
    ∧ NoDup (itos v)
    ∧ len words ≤ 1.
Proof.
  destruct (build_field_vocab_filters _ _ _ _ _ _ _ _ demo_src_built)
    as (f & v & words & Hf & Hv & _ & Hitos & Hnd & _ & Hsize).
  injection Hf as <-.
  exists v, words. exact (conj Hv (conj Hitos (conj Hnd (Hsize ltac:(lia))))).
Defined.

Lemma build_field_vocab_keeps_most_frequent_witness :
  ∃ v,
    field_vocab (set_vocab "src" 0 Demo.fields) Demo.src_built "src" = Some v
    ∧ ("a" ∈ itos v → "b" ∉ itos v →
       (count Demo.small_counter "b" ≤ count Demo.small_counter "a")%nat).
Proof.
  destruct (build_field_vocab_keeps_most_frequent _ _ _ _ _ _ _ _ demo_src_built)
    as (f & v & Hf & Hv & Htop & _).
  injection Hf as <-.
  exists v. split; [exact Hv|]. intros Ha Hb. apply Htop; [exact Ha| |exact Hb].
  vm_compute. intros H.
  repeat (apply elem_of_cons in H as [H|H]; [discriminate|]).
  by apply elem_of_nil in H.
Defined.

Lemma built_vocab_index_round_trip_witness :
  ∃ v,
    field_vocab (set_vocab "src" 0 Demo.fields) Demo.src_built "src" = Some v
    ∧ (itos v !! 0%nat = Some "<unk>" ↔ stoi v !! "<unk>" = Some 0%nat).
Proof.
  destruct (built_vocab_index_round_trip _ _ _ _ _ _ _ _ demo_src_built)
    as (v & Hv & Hinv).
  exists v. exact (conj Hv (Hinv 0%nat "<unk>")).
Defined.

Lemma build_vocab_only_adds_vocabularies_witness :
  files Demo.shared_state = files (Demo.after_datasets 2 3)
  ∧ ∃ h, heap Demo.shared_state = heap (Demo.after_datasets 2 3) ++ h
         ∧ length h = 5%nat.
Proof.
  destruct (build_vocab_only_adds_vocabularies "<unk>" "<blank>" "<s>" "</s>"
              (Demo.train_files 2 3) Demo.fields true 50000 0 50000 0 50000 0
              (Demo.after_datasets 2 3) (Ok Demo.shared_fields) Demo.shared_state
              demo_shared_run)
    as (Hfiles & h & Hheap & _ & Hlen).
  split; [exact Hfiles|]. exists h. exact (conj Hheap (Hlen _ eq_refl)).
Defined.

Lemma build_vocab_updates_four_fields_witness :
  Demo.shared_fields.*1 = Demo.fields.*1
  ∧ field_loc Demo.shared_fields "src" = field_loc Demo.shared_fields "tgt".
Proof.
  destruct (build_vocab_updates_four_fields "<unk>" "<blank>" "<s>" "</s>"
              (Demo.train_files 2 3) Demo.fields true 50000 0 50000 0 50000 0
              (Demo.after_datasets 2 3) Demo.shared_fields Demo.shared_state
              demo_shared_run)
    as (Hkeys & _ & _ & Halias).
  exact (conj Hkeys (proj2 Halias eq_refl)).
Defined.

Lemma uncounted_field_gets_special_tokens_only_witness :
  ∃ v, field_vocab Demo.untrained_fields Demo.untrained_state "mask" = Some v
       ∧ freqs v = ∅
       ∧ itos v = field_specials Demo.f_plain.
Proof.
  apply (uncounted_field_gets_special_tokens_only "<unk>" "<blank>" "<s>" "</s>"
           [] Demo.fields false 50000 0 50000 0 50000 0
           Demo.empty Demo.untrained_fields Demo.untrained_state "mask" Demo.f_plain).
  - exact demo_untrained.
  - left. right. left.
  - reflexivity.
  - left. reflexivity.
Defined.

Lemma build_vocab_needs_structure_witness :
  ∃ val, Demo.example_of Demo.row !! "structure" = Some val ∧ val ≠ VNone.
Proof.
  apply (build_vocab_needs_structure "<unk>" "<blank>" "<s>" "</s>"
           (Demo.train_files 2 3) Demo.fields true 50000 0 50000 0 50000 0
           (Demo.after_datasets 2 3) Demo.shared_fields Demo.shared_state
           Demo.f_plain "out/d_train.0.pt" Demo.first_shard).
  - exact demo_shared_run.
  - reflexivity.
  - reflexivity.
  - vm_compute. left.
  - vm_compute. reflexivity.
  - left.
Defined.

Lemma merge_vocabs_adds_counts_witness :
  let v := mkVocab Demo.small_counter [] ∅ in
  count (freqs (merge_vocabs "<unk>" "<blank>" "<s>" "</s>" [v; v] None 1)) "a"
  = 6%nat.
Proof.
  intros v.
  destruct (merge_vocabs_adds_counts "<unk>" "<blank>" "<s>" "</s>" [v; v] None 1)
    as [Hcount _].
  exact (Hcount "a").
Defined.

Lemma merge_vocabs_order_independent_witness :
  let v1 := mkVocab Demo.small_counter [] ∅ in
  let v2 := mkVocab ∅ [] ∅ in
  merge_vocabs "<unk>" "<blank>" "<s>" "</s>" [v1; v2] None 1
  = merge_vocabs "<unk>" "<blank>" "<s>" "</s>" [v2; v1] None 1.
Proof.
  intros v1 v2. apply merge_vocabs_order_independent. apply perm_swap.
Defined.

Lemma vocab_file_determines_tokens_witness :
  let v1 := mkVocab ∅ ["a"; "b"] ∅ in
  let v2 := mkVocab Demo.small_counter ["a"; "b"] ∅ in
  itos v1 = itos v2.
Proof.
  intros v1 v2.
  apply (vocab_file_determines_tokens v1 v2 "out/d_src_vocab" Demo.empty Demo.empty
           (vocab_lines ["a"; "b"]) (vocab_lines ["a"; "b"])).
  - repeat constructor.
  - repeat constructor.
  - reflexivity.
  - reflexivity.
  - reflexivity.
Defined.

Lemma build_save_vocab_writes_all_or_nothing_witness :
  let run :=
    build_save_vocab "<unk>" "<blank>" "<s>" "</s>" [] [] (Demo.opt 2 true)
      Demo.empty in
  run.1 = Raise (KeyError "tgt") ∧ files run.2 = files Demo.empty.
Proof.
  intros run.
  assert (Hrun : run = (Raise (KeyError "tgt"), run.2)) by (vm_compute; reflexivity).
  split; [by rewrite Hrun|].
  apply (build_save_vocab_writes_all_or_nothing "<unk>" "<blank>" "<s>" "</s>"
           [] [] (Demo.opt 2 true) Demo.empty (KeyError "tgt") run.2).
  - intros k l H. by apply elem_of_nil in H.
  - exact Hrun.
Defined.

Lemma vocabulary_step_finds_its_datasets_witness :
  ∃ d, files (Demo.after_datasets 2 3) !! "out/d_train.0.pt" = Some (DatasetFile d)
       ∧ ds_fields d = [].
Proof.
  destruct (vocabulary_step_finds_its_datasets Demo.build_dataset Demo.fields
              "<unk>" "<blank>" "<s>" "</s>" (Demo.opt 2 true) (Demo.initial 3)
              _ _ _ _ demo_train demo_valid)
    as [Hfiles _].
  apply Hfiles. vm_compute. left.
Defined.

Lemma main_touches_only_its_outputs_witness :
  let run :=
    main Demo.build_dataset Demo.fields "<unk>" "<blank>" "<s>" "</s>"
      (Demo.opt 2 true) (Demo.initial 3) in
  files run.2 !! "train.src" = files (Demo.initial 3) !! "train.src".
Proof.
  intros run.
  apply (main_touches_only_its_outputs Demo.build_dataset Demo.fields
           "<unk>" "<blank>" "<s>" "</s>" (Demo.opt 2 true) (Demo.initial 3)
           run.1 run.2).
  - apply surjective_pairing.
  - intros [H|[H|H]].
    + destruct H as [H|[[i H]|H]].
      * revert H. apply not_ends_txt. vm_compute. reflexivity.
      * vm_compute in H. discriminate.
      * vm_compute in H. discriminate.
    + destruct H as [H|[[i H]|H]].
      * revert H. apply not_ends_txt. vm_compute. reflexivity.
      * vm_compute in H. discriminate.
      * vm_compute in H. discriminate.
    + vm_compute in H.
      repeat (apply elem_of_cons in H as [H|H]; [discriminate|]).
      by apply elem_of_nil in H.
Defined.

Lemma equal_corpus_paths_abort_witness :
  ∃ e st',
    build_save_in_shards_using_shards_size Demo.build_dataset
      "train.src" "train.tgt" "train.structure" "train.structure"
      Demo.fields "train" (Demo.opt 2 false) (Demo.initial 3)
    = (Raise e, st').
Proof.
  apply (equal_corpus_paths_abort Demo.build_dataset
           "train.src" "train.tgt" "train.structure" "train.structure"
           Demo.fields "train" (Demo.opt 2 false) (Demo.initial 3)
           (replicate 3 Demo.src_line) (replicate 3 Demo.tgt_line)
           (replicate 3 Demo.structure_line) (replicate 3 Demo.structure_line)).
  - simpl. lia.
  - reflexivity.
  - reflexivity.
  - reflexivity.
  - reflexivity.
  - vm_compute. discriminate.
  - intros Hnd. apply (bool_decide_pack _) in Hnd. vm_compute in Hnd. exact Hnd.
Defined.

Lemma saved_vocabularies_are_the_four_fields_witness :
  ∃ vocab,
    save_fields_to_vocab Demo.shared_fields Demo.shared_state
    = (Ok vocab, Demo.shared_state)
    ∧ vocab.*1 = filter (λ k, k ∈ vocab_fields) Demo.fields.*1
    ∧ ∀ k l, (k, l) ∈ vocab →
        (length (heap (Demo.after_datasets 2 3)) ≤ l
         < length (heap Demo.shared_state))%nat.
Proof.
  apply (saved_vocabularies_are_the_four_fields "<unk>" "<blank>" "<s>" "</s>"
           (Demo.train_files 2 3) Demo.fields true 50000 0 50000 0 50000 0
           (Demo.after_datasets 2 3) Demo.shared_fields Demo.shared_state
           demo_shared_run).
  - apply (bool_decide_unpack _). vm_compute. exact I.
  - reflexivity.
Defined.
